(** * Doct-Redaction: entity reconciliation and redaction geometry

    A shallow embedding of the reconciliation pipeline of
    [src/app/api/redact-pdf/route.ts] and the properties its specification
    states about it, followed by the rest of the route (its collaborators
    and the handler [POST]), the upload page with its list of files and
    the log transport of [src/lib/logger.ts], with the properties that
    their code shows.

    Conventions of the embedding.
    - A JavaScript string is the list of its UTF-16 code units ([jsstring]);
      [.length], [substring], [includes] and the regular expressions of the
      route all work on code units.
    - Offsets and lengths (JSON integers) are [Z].
    - Geometry (page coordinates, paddings, the 72 points per inch) is exact
      rational arithmetic [Q]; the rounding of IEEE doubles is abstracted.
    - [Array.prototype.sort] is stable; it is embedded as a stable insertion
      sort. *)

From Stdlib Require Import List ZArith NArith QArith Qminmax Bool Ascii String Lia Lqa.
From Stdlib Require Import DecimalString Qabs.
From Stdlib Require Import Permutation Sorted.
Import ListNotations.

Local Open Scope Z_scope.

(* ================================================================== *)
(** ** JavaScript strings *)

Module JS.

Definition jsstring := list N.

(** Code units of a literal written in this file (UTF-8 decoded; a code
    point above U+FFFF becomes a surrogate pair). *)
Fixpoint utf16 (s : string) : jsstring :=
  match s with
  | EmptyString => []
  | String a r =>
    let b := N_of_ascii a in
    if (b <? 128)%N then b :: utf16 r
    else if (b <? 224)%N then
      match r with
      | String a1 r1 => ((b - 192) * 64 + (N_of_ascii a1 - 128))%N :: utf16 r1
      | EmptyString => [b]
      end
    else if (b <? 240)%N then
      match r with
      | String a1 (String a2 r2) =>
        ((b - 224) * 4096 + (N_of_ascii a1 - 128) * 64 + (N_of_ascii a2 - 128))%N
          :: utf16 r2
      | _ => [b]
      end
    else
      match r with
      | String a1 (String a2 (String a3 r3)) =>
        let cp := ((b - 240) * 262144 + (N_of_ascii a1 - 128) * 4096
                   + (N_of_ascii a2 - 128) * 64 + (N_of_ascii a3 - 128))%N in
        let v := (cp - 65536)%N in
        (55296 + v / 1024)%N :: (56320 + v mod 1024)%N :: utf16 r3
      | _ => [b]
      end
  end.

(** [a === b] on strings. *)
Fixpoint streq (a b : jsstring) : bool :=
  match a, b with
  | [], [] => true
  | x :: a', y :: b' => (x =? y)%N && streq a' b'
  | _, _ => false
  end.

(** [s.length] *)
Definition strlen (s : jsstring) : Z := Z.of_nat (List.length s).

(** [a + b] on strings is [++]. *)

(** *** Character classes *)

Definition inRange (lo hi c : N) : bool := ((lo <=? c) && (c <=? hi))%N.

(** [\d] *)
Definition isDigit (c : N) : bool := inRange 48 57 c.

(** [\w]: [A-Za-z0-9_] *)
Definition isWordChar (c : N) : bool :=
  inRange 65 90 c || inRange 97 122 c || isDigit c || (c =? 95)%N.

(** [\s], which is also what [trim] strips: the white space and line
    terminator code points of ECMAScript. *)
Definition isWhiteSpace (c : N) : bool :=
  inRange 9 13 c || (c =? 32)%N || (c =? 160)%N || (c =? 5760)%N
  || inRange 8192 8202 c || (c =? 8232)%N || (c =? 8233)%N
  || (c =? 8239)%N || (c =? 8287)%N || (c =? 12288)%N || (c =? 65279)%N.

(** Membership of a code unit in the characters of a literal, [[...]]. *)
Definition oneOf (chars : jsstring) (c : N) : bool :=
  existsb (N.eqb c) chars.

(** *** Case *)

(** [toLowerCase], code unit by code unit.  It is exact wherever the
    lower case lies in the Basic Latin or Latin-1 Supplement block, which
    hold every character of the whitelists, labels and patterns of the
    route: the letters of the two blocks, and the five characters outside
    them that lower into them (U+0130, U+0178, U+1E9E, the Kelvin sign
    U+212A and the Angstrom sign U+212B).  Letters of other scripts are
    left as they are: their lower case is outside the two blocks, like
    themselves, and has their length. *)
Definition lowerUnits (c : N) : jsstring :=
  if inRange 65 90 c then [(c + 32)%N]
  else if inRange 192 222 c && negb (c =? 215)%N then [(c + 32)%N]
  else if (c =? 304)%N then [105; 775]%N
  else if (c =? 376)%N then [255%N]
  else if (c =? 7838)%N then [223%N]
  else if (c =? 8490)%N then [107%N]
  else if (c =? 8491)%N then [229%N]
  else [c].

Definition toLowerCase (s : jsstring) : jsstring := flat_map lowerUnits s.

(** Canonicalisation of a pattern character under the [i] flag: only the
    ASCII letters have a case partner among the pattern characters used. *)
Definition foldAscii (c : N) : N :=
  if inRange 65 90 c then (c + 32)%N else c.

(** *** Searching and cutting *)

Fixpoint startsWith (prefix s : jsstring) : bool :=
  match prefix, s with
  | [], _ => true
  | p :: prefix', c :: s' => (p =? c)%N && startsWith prefix' s'
  | _ :: _, [] => false
  end.

(** [s.includes(needle)] *)
Fixpoint includes (s needle : jsstring) : bool :=
  startsWith needle s
  || match s with
     | [] => false
     | _ :: s' => includes s' needle
     end.

Fixpoint dropWhile {A} (f : A -> bool) (l : list A) : list A :=
  match l with
  | [] => []
  | x :: r => if f x then dropWhile f r else l
  end.

(** [s.trim()] *)
Definition trim (s : jsstring) : jsstring :=
  rev (dropWhile isWhiteSpace (rev (dropWhile isWhiteSpace s))).

(** [s.split(sep)] for a separator that is one code unit matched by [sep]
    (as in [split(' ')]): one piece per separator, empty pieces kept. *)
Fixpoint splitOn (sep : N -> bool) (s : jsstring) : list jsstring :=
  match s with
  | [] => [[]]
  | c :: s' =>
    if sep c then [] :: splitOn sep s'
    else match splitOn sep s' with
         | piece :: pieces => (c :: piece) :: pieces
         | [] => [[c]]
         end
  end.

(** [s.split(/\s+/)]: cut at every maximal run of white space; a run at
    the start or at the end leaves an empty piece there. *)
Fixpoint splitRuns (sep : N -> bool) (inRun : bool) (s : jsstring)
    : list jsstring :=
  match s with
  | [] => [[]]
  | c :: s' =>
    if sep c then
      if inRun then splitRuns sep true s'
      else [] :: splitRuns sep true s'
    else match splitRuns sep false s' with
         | piece :: pieces => (c :: piece) :: pieces
         | [] => [[c]]
         end
  end.

Definition splitWhiteSpace (s : jsstring) : list jsstring :=
  splitRuns isWhiteSpace false s.

Definition nonEmpty (s : jsstring) : bool :=
  match s with
  | [] => false
  | _ :: _ => true
  end.

(** [s.replace(/[...]/g, by)] for a character class. *)
Definition replaceClass (cls : N -> bool) (by_ : jsstring) (s : jsstring)
    : jsstring :=
  flat_map (fun c => if cls c then by_ else [c]) s.

(** [s.replace(/\s+/g, ' ')]-style replacement of every maximal run. *)
Fixpoint replaceRuns (cls : N -> bool) (by_ : jsstring) (inRun : bool)
    (s : jsstring) : jsstring :=
  match s with
  | [] => []
  | c :: s' =>
    if cls c then
      if inRun then replaceRuns cls by_ true s'
      else by_ ++ replaceRuns cls by_ true s'
    else c :: replaceRuns cls by_ false s'
  end.

(** [s.replace(/lit/g, by)] (and [/lit/gi] with [fold := foldAscii]) for a
    non-empty literal [lit]: matches are taken left to right and do not
    overlap.  [skip] counts the code units of the last match that are
    still to be passed over. *)
Fixpoint replaceLiteralFrom (fold : N -> N) (lit by_ : jsstring)
    (skip : nat) (s : jsstring) : jsstring :=
  match s with
  | [] => []
  | c :: s' =>
    match skip with
    | S skip' => replaceLiteralFrom fold lit by_ skip' s'
    | O =>
      if startsWith (map fold lit) (map fold s) then
        by_ ++ replaceLiteralFrom fold lit by_ (List.length lit - 1) s'
      else c :: replaceLiteralFrom fold lit by_ O s'
    end
  end.

Definition replaceLiteral (fold : N -> N) (lit by_ s : jsstring) : jsstring :=
  replaceLiteralFrom fold lit by_ O s.

(** A word boundary [\b] between two neighbours; [None] is an end of the
    string. *)
Definition boundaryBetween (before after : option N) : bool :=
  let w o := match o with Some c => isWordChar c | None => false end in
  xorb (w before) (w after).

(** [s.replace(/\blit\b/gi, by)]: as [replaceLiteral], a match needing a
    word boundary on both sides; [prev] is the code unit before the scan
    position ([None] at the start of the string). *)
Fixpoint replaceWordFrom (fold : N -> N) (lit by_ : jsstring) (skip : nat)
    (prev : option N) (s : jsstring) : jsstring :=
  match s with
  | [] => []
  | c :: s' =>
    match skip with
    | S skip' => replaceWordFrom fold lit by_ skip' (Some c) s'
    | O =>
      if startsWith (map fold lit) (map fold s)
         && boundaryBetween prev (Some c)
         && boundaryBetween (nth_error s (List.length lit - 1))
                            (nth_error s (List.length lit)) then
        by_ ++ replaceWordFrom fold lit by_ (List.length lit - 1) (Some c) s'
      else c :: replaceWordFrom fold lit by_ O (Some c) s'
    end
  end.

Definition replaceWord (fold : N -> N) (lit by_ s : jsstring) : jsstring :=
  replaceWordFrom fold lit by_ O None s.

(** [new RegExp('\\b' + lit + '\\b', 'i').test(s)] for a literal [lit]:
    an occurrence of [lit] with a word boundary on both sides. *)
Fixpoint wordSomewhere (fold : N -> N) (lit : jsstring) (prev : option N)
    (s : jsstring) : bool :=
  (startsWith (map fold lit) (map fold s)
   && boundaryBetween prev (hd_error s)
   && boundaryBetween
        (match lit with
         | [] => prev
         | _ => nth_error s (List.length lit - 1)
         end)
        (nth_error s (List.length lit)))
  || match s with
     | [] => false
     | c :: s' => wordSomewhere fold lit (Some c) s'
     end.

(** *** [parseInt(s, 10)] *)

Fixpoint digitsValue (acc : Z) (s : jsstring) : Z :=
  match s with
  | c :: s' =>
    if isDigit c then digitsValue (acc * 10 + Z.of_N (c - 48)) s' else acc
  | [] => acc
  end.

(** [None] is [NaN].  Leading white space is skipped, one sign is read,
    then the longest run of digits; what follows the digits is ignored. *)
Definition parseInt (s : jsstring) : option Z :=
  let t := dropWhile isWhiteSpace s in
  let '(sign, body) :=
    match t with
    | 45%N :: r => (-1, r)
    | 43%N :: r => (1, r)
    | _ => (1, t)
    end in
  match body with
  | c :: _ => if isDigit c then Some (sign * digitsValue 0 body) else None
  | [] => None
  end.

(** *** Regular expressions tested with [RegExp.prototype.test] *)

Inductive regex :=
| Never
| Eps
| Chr (cls : N -> bool)
| Seq (r1 r2 : regex)
| Alt (r1 r2 : regex)
| Star (r : regex).

Definition Opt (r : regex) : regex := Alt r Eps.
Definition Plus (r : regex) : regex := Seq r (Star r).

(** [r{n}] and [r{n,m}] *)
Fixpoint Times (n : nat) (r : regex) : regex :=
  match n with
  | O => Eps
  | S n' => Seq r (Times n' r)
  end.

Fixpoint UpTo (n : nat) (r : regex) : regex :=
  match n with
  | O => Eps
  | S n' => Opt (Seq r (UpTo n' r))
  end.

Definition Rep (n m : nat) (r : regex) : regex :=
  Seq (Times n r) (UpTo (m - n) r).

(** A literal, character by character; [fold] is [foldAscii] under the
    [i] flag and the identity otherwise. *)
Fixpoint Lit (fold : N -> N) (s : jsstring) : regex :=
  match s with
  | [] => Eps
  | c :: s' => Seq (Chr (fun x => (fold x =? fold c)%N)) (Lit fold s')
  end.

Fixpoint nullable (r : regex) : bool :=
  match r with
  | Never => false
  | Eps => true
  | Chr _ => false
  | Seq r1 r2 => nullable r1 && nullable r2
  | Alt r1 r2 => nullable r1 || nullable r2
  | Star _ => true
  end.

(** What remains to be matched after reading [c]. *)
Fixpoint deriv (c : N) (r : regex) : regex :=
  match r with
  | Never => Never
  | Eps => Never
  | Chr cls => if cls c then Eps else Never
  | Seq r1 r2 =>
    if nullable r1 then Alt (Seq (deriv c r1) r2) (deriv c r2)
    else Seq (deriv c r1) r2
  | Alt r1 r2 => Alt (deriv c r1) (deriv c r2)
  | Star r1 => Seq (deriv c r1) (Star r1)
  end.

(** [/^r$/.test(s)] *)
Fixpoint matches (r : regex) (s : jsstring) : bool :=
  match s with
  | [] => nullable r
  | c :: s' => matches (deriv c r) s'
  end.

(** [/^r/.test(s)]: some prefix of [s] matches. *)
Fixpoint matchesPrefix (r : regex) (s : jsstring) : bool :=
  nullable r
  || match s with
     | [] => false
     | c :: s' => matchesPrefix (deriv c r) s'
     end.

(** [/r/.test(s)]: some substring of [s] matches. *)
Fixpoint matchesSomewhere (r : regex) (s : jsstring) : bool :=
  matchesPrefix r s
  || match s with
     | [] => false
     | _ :: s' => matchesSomewhere r s'
     end.

(** The language of a regular expression, for the statements about the
    three tests above. *)
Inductive Matches : regex -> jsstring -> Prop :=
| MatchesEps : Matches Eps []
| MatchesChr (cls : N -> bool) (c : N) :
    cls c = true -> Matches (Chr cls) [c]
| MatchesSeq (r1 r2 : regex) (s1 s2 : jsstring) :
    Matches r1 s1 -> Matches r2 s2 -> Matches (Seq r1 r2) (s1 ++ s2)
| MatchesAltL (r1 r2 : regex) (s : jsstring) :
    Matches r1 s -> Matches (Alt r1 r2) s
| MatchesAltR (r1 r2 : regex) (s : jsstring) :
    Matches r2 s -> Matches (Alt r1 r2) s
| MatchesStarNil (r : regex) : Matches (Star r) []
| MatchesStarApp (r : regex) (s1 s2 : jsstring) :
    Matches r s1 -> Matches (Star r) s2 -> Matches (Star r) (s1 ++ s2).

End JS.

Import JS.

(* ================================================================== *)
(** ** Data model *)

(** [interface PIIEntity] *)
Record PIIEntity := mkEntity {
  text : jsstring;
  category : jsstring;
  offset : Z;
  length : Z;
  confidenceScore : Q
}.

Definition Occupation := utf16 "Occupation".
Definition Organization := utf16 "Organization".
Definition DEBankCode := utf16 "DEBankCode".
Definition PhoneNumber := utf16 "PhoneNumber".
Definition InternationalBankingAccountNumber := utf16 "InternationalBankingAccountNumber".

(* ================================================================== *)
(** ** Arrays *)

(** [arr.findIndex(f)]; [None] is the -1 of JavaScript. *)
Fixpoint findIndex {A} (f : A -> bool) (arr : list A) : option nat :=
  match arr with
  | [] => None
  | x :: rest =>
    if f x then Some O
    else match findIndex f rest with
         | Some i => Some (S i)
         | None => None
         end
  end.

(** [arr.splice(i, 1)] *)
Fixpoint splice1 {A} (i : nat) (arr : list A) : list A :=
  match arr, i with
  | [], _ => []
  | _ :: rest, O => rest
  | x :: rest, S j => x :: splice1 j rest
  end.

(** Stable sort of an array by an integer key, the embedding of
    [arr.sort((a, b) => key(a) - key(b))]: each element is inserted, from
    the last to the first, in front of the first element whose key is not
    smaller, so elements with equal keys keep their order. *)
Section Sort.
Context {A : Type} (key : A -> Z).

Fixpoint insertByKey (x : A) (sorted : list A) : list A :=
  match sorted with
  | [] => [x]
  | y :: rest =>
    if key x <=? key y then x :: y :: rest
    else y :: insertByKey x rest
  end.

Definition sortByKey (arr : list A) : list A :=
  fold_right insertByKey [] arr.
End Sort.

(* ================================================================== *)
(** ** EntityMerger: [mergeEntities] *)

(** The index search of the three priority branches:
    [e.offset === azureEntity.offset && e.length === azureEntity.length
     && e.category === cat]. *)
Definition sameSpanCategory (azureEntity : PIIEntity) (cat : jsstring)
    (e : PIIEntity) : bool :=
  (offset e =? offset azureEntity) && (length e =? length azureEntity)
  && streq (category e) cat.

Definition removeFound (f : PIIEntity -> bool) (merged : list PIIEntity)
    : list PIIEntity :=
  match findIndex f merged with
  | Some indexToRemove => splice1 indexToRemove merged
  | None => merged
  end.

Definition hasOverlap (customEntity azureEntity : PIIEntity) : bool :=
  let customStart := offset customEntity in
  let customEnd := offset customEntity + length customEntity in
  let azureStart := offset azureEntity in
  let azureEnd := offset azureEntity + length azureEntity in
  (customStart <? azureEnd) && (customEnd >? azureStart).

(** [azureEntities.some(azureEntity => ...)]: the callback mutates [merged]
    and [some] stops at the first [true]; the pair is the value of [some]
    and the array [merged] afterwards. *)
Fixpoint someAzure (customEntity : PIIEntity)
    (azureEntities merged : list PIIEntity) : bool * list PIIEntity :=
  match azureEntities with
  | [] => (false, merged)
  | azureEntity :: rest =>
    let overlap := hasOverlap customEntity azureEntity in
    if overlap && streq (category customEntity) Occupation
       && streq (category azureEntity) Organization then
      someAzure customEntity rest
        (removeFound (sameSpanCategory azureEntity Organization) merged)
    else if overlap && streq (category customEntity) DEBankCode
            && streq (category azureEntity) PhoneNumber then
      someAzure customEntity rest
        (removeFound (sameSpanCategory azureEntity PhoneNumber) merged)
    else if overlap && streq (category customEntity) DEBankCode
            && streq (category azureEntity) InternationalBankingAccountNumber then
      someAzure customEntity rest
        (removeFound
           (sameSpanCategory azureEntity InternationalBankingAccountNumber) merged)
    else if overlap then (true, merged)
    else someAzure customEntity rest merged
  end.

(** One turn of [customEntities.forEach]. *)
Definition mergeStep (azureEntities merged : list PIIEntity)
    (customEntity : PIIEntity) : list PIIEntity :=
  let '(overlaps, merged') := someAzure customEntity azureEntities merged in
  if negb overlaps then merged' ++ [customEntity] else merged'.

(** [merged] before the final sort. *)
Definition mergeLoop (azureEntities customEntities : list PIIEntity)
    : list PIIEntity :=
  fold_left (mergeStep azureEntities) customEntities azureEntities.

Definition mergeEntities (azureEntities customEntities : list PIIEntity)
    : list PIIEntity :=
  sortByKey offset (mergeLoop azureEntities customEntities).

(* ================================================================== *)
(** ** Vocabulary of the statements about [mergeEntities] *)

(** The three priority pairs (pattern category, NER category). *)
Definition priority (customEntity azureEntity : PIIEntity) : bool :=
  (streq (category customEntity) Occupation
   && streq (category azureEntity) Organization)
  || (streq (category customEntity) DEBankCode
      && streq (category azureEntity) PhoneNumber)
  || (streq (category customEntity) DEBankCode
      && streq (category azureEntity) InternationalBankingAccountNumber).

(** Entities with the span and the category of [a]. *)
Definition sameKey (a : PIIEntity) : PIIEntity -> bool :=
  sameSpanCategory a (category a).

Fixpoint removeFirst {A} (f : A -> bool) (l : list A) : list A :=
  match l with
  | [] => []
  | x :: r => if f x then r else x :: removeFirst f r
  end.

Definition removeKey (m : list PIIEntity) (a : PIIEntity) : list PIIEntity :=
  removeFirst (sameKey a) m.

(** The NER entities for which [some] runs a priority branch on behalf of
    [c], in order, up to the entity where [some] stops. *)
Fixpoint requests (c : PIIEntity) (ner : list PIIEntity) : list PIIEntity :=
  match ner with
  | [] => []
  | a :: rest =>
    if hasOverlap c a && priority c a then a :: requests c rest
    else if hasOverlap c a then []
    else requests c rest
  end.

(** [c] overlaps a NER entity outside the priority pairs. *)
Definition blocked (c : PIIEntity) (ner : list PIIEntity) : bool :=
  existsb (fun a => hasOverlap c a && negb (priority c a)) ner.

(** NER entities left in [merged], and pattern entities pushed onto it. *)
Definition survivors (ner pats : list PIIEntity) : list PIIEntity :=
  fold_left removeKey (flat_map (fun c => requests c ner) pats) ner.

Definition admitted (ner pats : list PIIEntity) : list PIIEntity :=
  filter (fun c => negb (blocked c ner)) pats.

(** Number of entities of [l] with the span and category of [a]. *)
Definition countKey (a : PIIEntity) (l : list PIIEntity) : nat :=
  List.length (filter (sameKey a) l).

(** Data-model invariant [length > 0] on a list of entities. *)
Definition positiveLengths (l : list PIIEntity) : Prop :=
  Forall (fun a => 0 < length a) l.

Definition byOffset (a b : PIIEntity) : Prop := offset a <= offset b.

(** Sample entities over the text ["Praxis Arzt Meier"]: two NER entities
    and the match of the job-title pattern. *)
Definition orgPraxis : PIIEntity :=
  mkEntity (utf16 "Praxis Arzt") Organization 0 11 0.8.
Definition personMeier : PIIEntity :=
  mkEntity (utf16 "Arzt Meier") (utf16 "Person") 7 10 0.9.
Definition occArzt : PIIEntity :=
  mkEntity (utf16 "Arzt") Occupation 7 4 0.85.

(** What the date-of-birth patterns of [detectCustomPatterns] emit on the
    text ["Geb.-Datum: 01.02.1990"]: [germanDOBPattern], [germanDOBFallback]
    and [gebDatumTable] all match, with the date at offset 12. *)
Definition dobLabelled : PIIEntity :=
  mkEntity (utf16 "01.02.1990") (utf16 "DateOfBirth") 12 10 0.90.
Definition dobFallback : PIIEntity :=
  mkEntity (utf16 "01.02.1990") (utf16 "DateOfBirth") 12 10 0.85.
Definition dobTable : PIIEntity :=
  mkEntity (utf16 "01.02.1990") (utf16 "DateOfBirth") 12 10 0.85.

(* ================================================================== *)
(** ** NER collaborator: [detectPII] *)

(** [s.substring(start, end)]: both indices are clamped to the string and
    swapped when out of order. *)
Definition substring (s : jsstring) (start finish : Z) : jsstring :=
  let len := strlen s in
  let a := Z.min (Z.max start 0) len in
  let b := Z.min (Z.max finish 0) len in
  firstn (Z.to_nat (Z.max a b - Z.min a b)) (skipn (Z.to_nat (Z.min a b)) s).

(** Decimal digits of a number in a template literal. *)
Definition decimal (n : Z) : jsstring :=
  utf16 (NilZero.string_of_int (Z.to_int n)).

(** The part of [AzurePIIResponse] that [detectPII] reads:
    [results.documents] and, per document, [entities]; each may be absent. *)
Record PIIDocument := mkDocument {
  entities : option (list PIIEntity)
}.

Record AzurePIIResponse := mkResponse {
  documents : option (list PIIDocument)
}.

(** The document of [analysisInput] in the request body; the other fields
    of the body are constants. *)
Record AnalysisInput := mkInput {
  id : jsstring;
  language : jsstring;
  inputText : jsstring
}.

(** Settlement of the promise of [axios.post]: it resolves with
    [response.data], or rejects with an error whose
    [error.response?.data?.error?.message || error.message] is [message]. *)
Inductive Settled :=
| Resolved (data : AzurePIIResponse)
| Rejected (message : jsstring).

(** An [async] function returns or throws. *)
Inductive Completion (A : Type) :=
| Returns (value : A)
| Throws (message : jsstring).
Arguments Returns {A} value.
Arguments Throws {A} message.

Definition CHUNK_SIZE : Z := 5000.

(** [results && results.documents && results.documents.length > 0], then
    [results.documents[0].entities || []]. *)
Definition firstDocumentEntities (data : AzurePIIResponse)
    : option (list PIIEntity) :=
  match documents data with
  | Some (doc :: _) =>
    Some (match entities doc with Some es => es | None => [] end)
  | _ => None
  end.

(** [{ ...entity, offset: entity.offset + offset }] *)
Definition adjustOffset (chunkOffset : Z) (entity : PIIEntity) : PIIEntity :=
  mkEntity (text entity) (category entity) (offset entity + chunkOffset)
           (length entity) (confidenceScore entity).

Section DetectPII.
(** The service behind [axios.post(url, requestBody, ...)]. *)
Variable post : AnalysisInput -> Settled.

(** The document sent for the chunk at [chunkOffset]. *)
Definition chunkInput (lang text : jsstring) (chunkOffset : Z) : AnalysisInput :=
  let chunk := substring text chunkOffset (chunkOffset + CHUNK_SIZE) in
  let chunkNum := chunkOffset / CHUNK_SIZE + 1 in
  mkInput (utf16 "chunk-" ++ decimal chunkNum) lang chunk.

(** The body of the chunk loop: the value of [allEntities] after the
    turn at [chunkOffset]. *)
Definition chunkTurn (lang text : jsstring) (chunkOffset : Z)
    (allEntities : list PIIEntity) : list PIIEntity :=
  match post (chunkInput lang text chunkOffset) with
  | Resolved data =>
    match firstDocumentEntities data with
    | Some chunkEntities =>
      allEntities ++ map (adjustOffset chunkOffset) chunkEntities
    | None => allEntities
    end
  | Rejected _ => allEntities   (* the catch block only logs *)
  end.

(** [for (let offset = 0; offset < text.length; offset += CHUNK_SIZE)];
    [fuel] bounds the number of turns. *)
Fixpoint chunkLoop (lang text : jsstring) (fuel : nat) (chunkOffset : Z)
    (allEntities : list PIIEntity) : list PIIEntity :=
  match fuel with
  | O => allEntities
  | S fuel' =>
    if chunkOffset <? strlen text then
      chunkLoop lang text fuel' (chunkOffset + CHUNK_SIZE)
                (chunkTurn lang text chunkOffset allEntities)
    else allEntities
  end.

Definition detectPII (text lang : jsstring) : Completion (list PIIEntity) :=
  if strlen text <=? CHUNK_SIZE then
    match post (mkInput (utf16 "1") lang text) with
    | Resolved data =>
      match firstDocumentEntities data with
      | Some es => Returns es
      | None => Returns []
      end
    | Rejected message =>
      Throws (utf16 "Azure PII Detection failed: " ++ message)
    end
  else
    Returns (chunkLoop lang text (List.length text) 0 []).

(** Vocabulary: the offsets at which a text of [len] code units is cut,
    and what the chunk at an offset contributes when its request
    succeeds (nothing when it fails). *)
Definition chunkOffsetsFrom (start : Z) (count : nat) : list Z :=
  map (fun i => start + Z.of_nat i * CHUNK_SIZE) (seq 0 count).

Definition chunkCount (len : Z) : nat :=
  Z.to_nat ((len + CHUNK_SIZE - 1) / CHUNK_SIZE).

Definition chunkContribution (lang text : jsstring) (chunkOffset : Z)
    : list PIIEntity :=
  match post (chunkInput lang text chunkOffset) with
  | Resolved data =>
    match firstDocumentEntities data with
    | Some chunkEntities => map (adjustOffset chunkOffset) chunkEntities
    | None => []
    end
  | Rejected _ => []
  end.
End DetectPII.

(** A service that fails on the request with the given [id] and finds one
    entity at offset 3 of every other chunk. *)
Definition failingOn (failId : jsstring) (input : AnalysisInput) : Settled :=
  if streq (id input) failId then Rejected (utf16 "Request failed with status code 429")
  else Resolved (mkResponse (Some [mkDocument (Some
         [mkEntity (utf16 "Max") (utf16 "Person") 3 3 0.9])])).

Definition longText : jsstring := repeat 97%N (Z.to_nat 10001).

(* ================================================================== *)
(** ** OCR result and redaction regions *)

Inductive PageUnit := pixel | inch.

Module Span.
Record t := mk { offset : Z; length : Z }.
End Span.

(** [polygon: number[]], eight numbers [[x1, y1, x2, y2, x3, y3, x4, y4]];
    [polygon[0]] is [x1], [polygon[1]] is [y1], ..., [polygon[7]] is [y4]. *)
Record Polygon := mkPolygon {
  x1 : Q; y1 : Q; x2 : Q; y2 : Q; x3 : Q; y3 : Q; x4 : Q; y4 : Q
}.

Module Word.
Record t := mk {
  content : jsstring;
  polygon : Polygon;
  span : Span.t;
  confidence : Q
}.
End Word.
Definition DocIntelWord := Word.t.

Module Page.
Record t := mk {
  pageNumber : Z;
  angle : Q;
  width : Q;
  height : Q;
  unit : PageUnit;
  words : list DocIntelWord
}.
End Page.
Definition DocIntelPage := Page.t.

Module Style.
Record t := mk {
  isHandwritten : option bool;
  spans : list Span.t;
  confidence : Q
}.
End Style.
Definition DocIntelStyle := Style.t.

(** [DocIntelResponse['analyzeResult']] *)
Module Doc.
Record t := mk {
  content : jsstring;
  pages : list DocIntelPage;
  styles : option (list DocIntelStyle)
}.
End Doc.

Module Region.
Record t := mk {
  pageIndex : nat;
  x : Q;
  y : Q;
  width : Q;
  height : Q;
  text : option jsstring;
  category : option jsstring
}.
End Region.
Definition RedactionCoordinate := Region.t.

(** Numbers *)
Definition Qltb (a b : Q) : bool := negb (Qle_bool b a).

(** [Math.min(...coords)] and [Math.max(...coords)] of four numbers. *)
Definition min4 (a b c d : Q) : Q := Qmin (Qmin (Qmin a b) c) d.
Definition max4 (a b c d : Q) : Q := Qmax (Qmax (Qmax a b) c) d.

(** [v *= 72] when the page unit is ['inch']. *)
Definition toPoints (u : PageUnit) (v : Q) : Q :=
  match u with
  | inch => (v * 72)%Q
  | pixel => v
  end.

(** Half-open overlap of a word span with [[spanStart, spanEnd)]:
    [wordStart < spanEnd && wordEnd > spanStart]. *)
Definition wordOverlaps (word : DocIntelWord) (spanStart spanEnd : Z) : bool :=
  let wordStart := Span.offset (Word.span word) in
  let wordEnd := wordStart + Span.length (Word.span word) in
  (wordStart <? spanEnd) && (wordEnd >? spanStart).

(** [arr.forEach((v, i) => ...)]: the elements with their indices. *)
Definition indexed {A} (arr : list A) : list (nat * A) :=
  combine (seq 0 (List.length arr)) arr.

(* ================================================================== *)
(** ** CoordinateMapper: [convertEntitiesToRedactionCoordinates] *)

Definition PADDING_INCH : Q := 0.02.

(** [allWords] before the sort: [{ word, pageIndex }] over all pages. *)
Definition collectWords (pages : list DocIntelPage)
    : list (DocIntelWord * nat) :=
  flat_map (fun '(pageIndex, page) =>
              map (fun word => (word, pageIndex)) (Page.words page))
           (indexed pages).

(** The body of [relevantWords.forEach]. *)
Definition wordRedaction (azurePage : DocIntelPage) (entity : PIIEntity)
    (item : DocIntelWord * nat) : RedactionCoordinate :=
  let polygon := Word.polygon (fst item) in
  let minX := min4 (x1 polygon) (x2 polygon) (x3 polygon) (x4 polygon) in
  let minY := min4 (y1 polygon) (y2 polygon) (y3 polygon) (y4 polygon) in
  let maxX := max4 (x1 polygon) (x2 polygon) (x3 polygon) (x4 polygon) in
  let maxY := max4 (y1 polygon) (y2 polygon) (y3 polygon) (y4 polygon) in
  let minX := Qmax 0 (minX - PADDING_INCH) in
  let minY := Qmax 0 (minY - PADDING_INCH) in
  let maxX := (maxX + PADDING_INCH)%Q in
  let maxY := (maxY + PADDING_INCH)%Q in
  let x := minX in
  let y := minY in
  let w := (maxX - minX)%Q in
  let h := (maxY - minY)%Q in
  let u := Page.unit azurePage in
  Region.mk (snd item) (toPoints u x) (toPoints u y) (toPoints u w)
            (toPoints u h) (Some (text entity)) (Some (category entity)).

Definition relevantWords (allWords : list (DocIntelWord * nat))
    (entity : PIIEntity) : list (DocIntelWord * nat) :=
  let entityStart := offset entity in
  let entityEnd := offset entity + length entity in
  filter (fun item => wordOverlaps (fst item) entityStart entityEnd) allWords.

Definition convertEntitiesToRedactionCoordinates (entities : list PIIEntity)
    (docIntelResult : Doc.t) : list RedactionCoordinate :=
  let pages := Doc.pages docIntelResult in
  let allWords :=
    sortByKey (fun item => Span.offset (Word.span (fst item)))
              (collectWords pages) in
  flat_map (fun entity =>
    flat_map (fun item =>
      (* [docIntelResult.pages[item.pageIndex]] exists: the index was taken
         from [pages] *)
      match nth_error pages (snd item) with
      | Some azurePage => [wordRedaction azurePage entity item]
      | None => []
      end) (relevantWords allWords entity)) entities.

(* ================================================================== *)
(** ** SignatureDetector: primary pass of [detectSignaturesFromStyles] *)

Definition signatureLabels : list jsstring :=
  map utf16 ["unterschrift"; "unterschriften"; "signature"; "signatures";
             "signed"; "datum/unterschrift"; "unterzeichner";
             "unterzeichnet"; "gezeichnet"; "gez."; "i.a."; "ppa.";
             "protokollführer"; "zeuge"]%string.

(** A pattern of [formFieldPatterns] with its anchors. *)
Inductive Pattern :=
| Whole (r : regex)      (* /^r$/ *)
| AtStart (r : regex).   (* /^r/ *)

Definition test (pattern : Pattern) (s : jsstring) : bool :=
  match pattern with
  | Whole r => matches r s
  | AtStart r => matchesPrefix r s
  end.

(** [\d+[.,]?\d*\s*], the common start of the measurement patterns. *)
Definition numberThenSpace : regex :=
  Seq (Plus (Chr isDigit))
      (Seq (Opt (Chr (oneOf (utf16 ".,"))))
           (Seq (Star (Chr isDigit)) (Star (Chr isWhiteSpace)))).

Definition formFieldPatterns : list Pattern :=
  [ (* /^[\d\s.,€$%]+$/ *)
    Whole (Plus (Chr (fun c => isDigit c || isWhiteSpace c
                               || oneOf (utf16 ".,€$%") c)));
    (* /^\d{1,2}[.,]\d{2}[.,]\d{4}$/ *)
    Whole (Seq (Rep 1 2 (Chr isDigit))
          (Seq (Chr (oneOf (utf16 ".,")))
          (Seq (Times 2 (Chr isDigit))
          (Seq (Chr (oneOf (utf16 ".,")))
               (Times 4 (Chr isDigit))))));
    (* /^[xX✓✗]$/ *)
    Whole (Chr (oneOf (utf16 "xX✓✗")));
    (* /^ja$/i, /^nein$/i *)
    Whole (Lit foldAscii (utf16 "ja"));
    Whole (Lit foldAscii (utf16 "nein"));
    (* /^EUR?$/i *)
    Whole (Seq (Lit foldAscii (utf16 "EU")) (Opt (Lit foldAscii (utf16 "R"))));
    (* /^\d{5}$/ *)
    Whole (Times 5 (Chr isDigit));
    (* /^\d+[.,]?\d*\s*kWh/i *)
    AtStart (Seq numberThenSpace (Lit foldAscii (utf16 "kWh")));
    (* /^\d+[.,]?\d*\s*m[²2³3]/i *)
    AtStart (Seq numberThenSpace
            (Seq (Lit foldAscii (utf16 "m")) (Chr (oneOf (utf16 "²2³3")))));
    (* /^\d+[.,]?\d*\s*%$/ *)
    Whole (Seq numberThenSpace (Lit (fun c => c) (utf16 "%")));
    (* /^[A-H]\+?$/i *)
    Whole (Seq (Chr (fun c => inRange 97 104 (foldAscii c)))
               (Opt (Lit (fun c => c) (utf16 "+"))));
    (* /^>?\d+$/ *)
    Whole (Seq (Opt (Lit (fun c => c) (utf16 ">"))) (Plus (Chr isDigit)));
    (* /^\d{1,3}$/ *)
    Whole (Rep 1 3 (Chr isDigit));
    (* /^[A-Z]{1,5}$/ *)
    Whole (Rep 1 5 (Chr (inRange 65 90))) ].

(** An element of [matchingWords]. *)
Record MatchingWord := mkMatchingWord {
  word : DocIntelWord;
  pageIndex : nat;
  pageHeight : Q;
  pageUnit : PageUnit
}.

Section PrimaryPass.
Variable content : jsstring.
Variable pages : list DocIntelPage.
Variable span : Span.t.

Definition spanStart : Z := Span.offset span.
Definition spanEnd : Z := Span.offset span + Span.length span.

Definition handwrittenText : jsstring :=
  trim (substring content spanStart spanEnd).

Definition contextRadius : Z := 150.

(** The text signal: a label within the context window. *)
Definition isNearSignatureLabel : bool :=
  let contextStart := Z.max 0 (Span.offset span - contextRadius) in
  let contextEnd :=
    Z.min (strlen content)
          (Span.offset span + Span.length span + contextRadius) in
  let context := toLowerCase (substring content contextStart contextEnd) in
  existsb (fun label => includes context label) signatureLabels.

Definition isFormField : bool :=
  existsb (fun pattern => test pattern handwrittenText) formFieldPatterns.

Definition matchingWords : list MatchingWord :=
  flat_map (fun '(pageIdx, page) =>
    flat_map (fun word =>
      if wordOverlaps word spanStart spanEnd then
        [mkMatchingWord word pageIdx (Page.height page) (Page.unit page)]
      else []) (Page.words page)) (indexed pages).

(** [(polygon[1] + polygon[5]) / 2] and [(polygon[0] + polygon[2]) / 2] *)
Definition centreY (w : DocIntelWord) : Q :=
  ((y1 (Word.polygon w) + y3 (Word.polygon w)) / 2)%Q.
Definition centreX (w : DocIntelWord) : Q :=
  ((x1 (Word.polygon w) + x2 (Word.polygon w)) / 2)%Q.

(** The spatial signal: a label word on the page of the first matching
    word, closer than 2.0 vertically and 4.0 horizontally. *)
Definition isNearLabelSpatially (first : MatchingWord) : bool :=
  let handwrittenY := centreY (word first) in
  let handwrittenX := centreX (word first) in
  match nth_error pages (pageIndex first) with
  | Some samePage =>
    existsb (fun pageWord =>
      let wordText := toLowerCase (Word.content pageWord) in
      let isLabel := existsb (fun label => includes wordText label)
                             signatureLabels in
      isLabel
      && (let yDistance := Qabs (handwrittenY - centreY pageWord) in
          let xDistance := Qabs (handwrittenX - centreX pageWord) in
          Qltb yDistance 2.0 && Qltb xDistance 4.0))
      (Page.words samePage)
  | None => false
  end.

Definition isInBottomPortion (first : MatchingWord)
    (matching : list MatchingWord) : bool :=
  let avgWordY :=
    (fold_left (fun sum mw => sum + centreY (word mw)) matching 0
     / inject_Z (Z.of_nat (List.length matching)))%Q in
  Qltb (pageHeight first * 0.75) avgWordY.

(** The region of an accepted span.  The running minimum and maximum
    start at [Infinity] and [-Infinity]; over the coordinates of at least
    one word that is the minimum and maximum of the coordinates. *)
Definition signatureRegion (first : MatchingWord)
    (matching : list MatchingWord) : RedactionCoordinate :=
  let xs := flat_map (fun mw => let p := Word.polygon (word mw) in
                                [x1 p; x2 p; x3 p; x4 p]) matching in
  let ys := flat_map (fun mw => let p := Word.polygon (word mw) in
                                [y1 p; y2 p; y3 p; y4 p]) matching in
  let minX := fold_left Qmin xs (x1 (Word.polygon (word first))) in
  let maxX := fold_left Qmax xs (x1 (Word.polygon (word first))) in
  let minY := fold_left Qmin ys (y1 (Word.polygon (word first))) in
  let maxY := fold_left Qmax ys (y1 (Word.polygon (word first))) in
  let padding := 0.05%Q in
  let minX := Qmax 0 (minX - padding) in
  let minY := Qmax 0 (minY - padding) in
  let maxX := (maxX + padding)%Q in
  let maxY := (maxY + padding)%Q in
  let u := pageUnit first in
  let minX := toPoints u minX in
  let minY := toPoints u minY in
  let maxX := toPoints u maxX in
  let maxY := toPoints u maxY in
  Region.mk (pageIndex first) minX minY (maxX - minX)%Q (maxY - minY)%Q
    (Some (utf16 "[Signature: " ++ substring handwrittenText 0 30
           ++ utf16 "...]"))
    (Some (utf16 "Signature")).

(** One turn of the loop over the spans of a handwritten style: the
    region pushed onto [signatures], or [None] when the turn ends in a
    [continue] or in the final [else]. *)
Definition processSpan : option RedactionCoordinate :=
  let minLength := if isNearSignatureLabel then 2 else 3 in
  if strlen handwrittenText <? minLength then None
  else if isFormField then None
  else
    match matchingWords with
    | [] => None
    | first :: _ =>
      let nearSpatially := isNearLabelSpatially first in
      let isNearLabel := isNearSignatureLabel || nearSpatially in
      let recheck :=
        if negb isNearSignatureLabel && nearSpatially
           && (strlen handwrittenText >=? 2) then true
        else negb (strlen handwrittenText <? (if isNearLabel then 2 else 3)) in
      if negb recheck then None
      else
        let isLikelySignature :=
          isNearLabel
          || (isInBottomPortion first matchingWords
              && (strlen handwrittenText >=? 5)) in
        if isLikelySignature then Some (signatureRegion first matchingWords)
        else None
    end.
End PrimaryPass.

(** The loop over the handwritten styles and their spans.  (The fallback
    loop of the function, which runs when this one leaves [signatures]
    empty, is a separate pass.) *)
Definition primarySignaturePass (docIntelResult : Doc.t)
    : list RedactionCoordinate :=
  let styles := match Doc.styles docIntelResult with
                | Some s => s
                | None => []
                end in
  let pages := Doc.pages docIntelResult in
  let content := Doc.content docIntelResult in
  let handwrittenStyles :=
    filter (fun style => match Style.isHandwritten style with
                         | Some true => true
                         | _ => false
                         end) styles in
  flat_map (fun style =>
    flat_map (fun span =>
      match processSpan content pages span with
      | Some signature => [signature]
      | None => []
      end) (Style.spans style)) handwrittenStyles.

(** Vocabulary of the statements about regions. *)

(** Points per page unit. *)
Definition pointsPerUnit (u : PageUnit) : Q :=
  match u with
  | inch => 72
  | pixel => 1
  end.

Definition nonNegativePolygon (p : Polygon) : Prop :=
  (0 <= x1 p /\ 0 <= y1 p /\ 0 <= x2 p /\ 0 <= y2 p
   /\ 0 <= x3 p /\ 0 <= y3 p /\ 0 <= x4 p /\ 0 <= y4 p)%Q.

(** Every word of every page lies in the quadrant of the page. *)
Definition nonNegativeCoordinates (pages : list DocIntelPage) : Prop :=
  forall page w, In page pages -> In w (Page.words page) ->
                 nonNegativePolygon (Word.polygon w).

(** The word of the specification's conversion example, corners
    (1,1), (2,1), (2,2), (1,2), on a page measured in inches, and an
    entity over it. *)
Definition unitSquare : Polygon := mkPolygon 1 1 2 1 2 2 1 2.
Definition wordMax : DocIntelWord :=
  Word.mk (utf16 "Max") unitSquare (Span.mk 10 3) 0.99.
Definition inchPage : DocIntelPage := Page.mk 1 0 8.5 11 inch [wordMax].
Definition inchDoc : Doc.t := Doc.mk (utf16 "Patient:  Max") [inchPage] None.
Definition personMax : PIIEntity :=
  mkEntity (utf16 "Max") (utf16 "Person") 10 3 0.9.

(** A word in the corner of the page: its box starts at the origin. *)
Definition cornerSquare : Polygon := mkPolygon 0 0 1 0 1 1 0 1.
Definition wordCorner : DocIntelWord :=
  Word.mk (utf16 "Max") cornerSquare (Span.mk 10 3) 0.99.
Definition cornerPage : DocIntelPage := Page.mk 1 0 8.5 11 inch [wordCorner].
Definition cornerDoc : Doc.t := Doc.mk (utf16 "Patient:  Max") [cornerPage] None.

(** The acceptance rule of the primary pass as the specification words
    it: the length bound is 2 when a label is near by either signal. *)
Section AcceptanceRule.
Variable content : jsstring.
Variable pages : list DocIntelPage.
Variable span : Span.t.

Definition nearLabelSpatially : bool :=
  match matchingWords pages span with
  | first :: _ => isNearLabelSpatially pages first
  | [] => false
  end.

Definition nearLabel : bool :=
  isNearSignatureLabel content span || nearLabelSpatially.

Definition inBottomQuarter : bool :=
  match matchingWords pages span with
  | first :: _ => isInBottomPortion first (matchingWords pages span)
  | [] => false
  end.

Definition acceptedAsSpecified : bool :=
  (strlen (handwrittenText content span) >=? (if nearLabel then 2 else 3))
  && negb (isFormField content span)
  && (nearLabel
      || (inBottomQuarter
          && (strlen (handwrittenText content span) >=? 5))).
End AcceptanceRule.

(** A signed line: the label, then two handwritten words. *)
Definition signedContent : jsstring := utf16 "Unterschrift: Max M.".
Definition wordLabel : DocIntelWord :=
  Word.mk (utf16 "Unterschrift:") (mkPolygon 1 9 2.2 9 2.2 9.2 1 9.2)
          (Span.mk 0 13) 0.99.
Definition wordGiven : DocIntelWord :=
  Word.mk (utf16 "Max") (mkPolygon 2.5 9 3 9 3 9.2 2.5 9.2) (Span.mk 14 3) 0.9.
Definition wordInitial : DocIntelWord :=
  Word.mk (utf16 "M.") (mkPolygon 3.1 9 3.4 9 3.4 9.2 3.1 9.2) (Span.mk 18 2) 0.9.
Definition signedPage : DocIntelPage :=
  Page.mk 1 0 8.5 11 inch [wordLabel; wordGiven; wordInitial].
Definition signedSpan : Span.t := Span.mk 14 6.
Definition signedDoc : Doc.t :=
  Doc.mk signedContent [signedPage]
         (Some [Style.mk (Some true) [signedSpan] 0.8]).

(** Two handwritten letters whose label is far in the text (more than 150
    code units) and close on the page. *)
Definition farLabelContent : jsstring :=
  utf16 "Mk" ++ repeat 46%N 160 ++ utf16 "Unterschrift".
Definition wordTwoLetters : DocIntelWord :=
  Word.mk (utf16 "Mk") (mkPolygon 1 9.5 1.4 9.5 1.4 9.7 1 9.7) (Span.mk 0 2) 0.9.
Definition wordFarLabel : DocIntelWord :=
  Word.mk (utf16 "Unterschrift") (mkPolygon 1 9 2.2 9 2.2 9.2 1 9.2)
          (Span.mk 162 12) 0.99.
Definition farLabelPage : DocIntelPage :=
  Page.mk 1 0 8.5 11 inch [wordTwoLetters; wordFarLabel].

(* ================================================================== *)
(** ** WhitelistFilter *)

Definition WHITELISTED_ADDRESSES : list jsstring :=
  map utf16
    ["Deutsche Grundstücksauktionen AG, Kurfürstendamm 65, 10707 Berlin";
     "Sächsische Grundstücksauktionen AG, Hohe Straße 12, 01069 Dresden";
     "WESTDEUTSCHE GRUNDSTÜCKSAUKTIONEN AG, Apostelnstraße 9, 50667 Köln";
     "Norddeutsche Grundstücksauktionen AG, Ernst-Barlach-Strasse 4, 18055 Rostock";
     "PLETTNER & BRECHT IMMOBILIEN GMBH, Kirschenallee 20, 14050 Berlin";
     "Kurfürstendamm 65, 10707 Berlin";
     "Kurfürstendamm 65";
     "10707 Berlin";
     "Hohe Straße 12, 01069 Dresden";
     "Hohe Straße 12";
     "01069 Dresden";
     "Apostelnstraße 9, 50667 Köln";
     "Apostelnstraße 9";
     "50667 Köln";
     "Ernst-Barlach-Strasse 4, 18055 Rostock";
     "Ernst-Barlach-Strasse 4";
     "18055 Rostock";
     "Kirschenallee 20, 14050 Berlin";
     "Kirschenallee 20";
     "14050 Berlin"]%string.

Definition WHITELISTED_ORGANIZATIONS : list jsstring :=
  map utf16
    ["Deutsche Grundstücksauktionen AG";
     "Sächsische Grundstücksauktionen AG";
     "WESTDEUTSCHE GRUNDSTÜCKSAUKTIONEN AG";
     "Norddeutsche Grundstücksauktionen AG";
     "PLETTNER & BRECHT IMMOBILIEN GMBH"]%string.

Definition WHITELISTED_ROLE_WORDS : list jsstring :=
  map utf16
    ["Anwesenden"; "Ausbauberechtigten"; "Ausbauberechtigte"; "Beauftragte";
     "Bevollmächtigten"; "Erschienenen"; "Erbengemeinschaft"; "Fachmann";
     "teilende Eigentümer"; "Eigentümer"; "Eigentümern"; "Notarin"; "Notar";
     "Notaramtes"; "Nutzungsberechtigten"; "Sondernutzungsberechtigte";
     "Geschäftsführer"; "Inhaber"; "Miterben"; "Mieter"; "Mieterin";
     "Beteiligten"; "Miteigentümer"; "Teileigentümer"; "Wohnungseigentümer";
     "Wohnungseigentümers"; "Verwalters"; "Verwalter"; "Verwalterin";
     "Vermieter"; "Vermieterin"; "Versammlungsleiter"; "Dritter"; "Zahlender";
     "Vermieters"; "Mieters"; "Dritte"; "Bewohner"; "Gebäude"; "Pächter";
     "Pächters"; "Verpächter"; "Verpächters"; "Alleinpächter";
     "Nachfolgepächter"; "Grundstück"; "Betriebsnachfolger";
     "Landwirtschaftskammer"; "Parteien"; "Pachtvertrag"; "Behörde";
     "Sachverständigen"; "Vergleichswerte Endenergie"; "Vergleichswerte";
     "Endenergie"; "Endenergiebedarf"; "Primärenergiebedarf";
     "Energieeffizienzklasse"; "Energieausweis"; "Energiebedarf";
     "Energiekennwert"; "EEWärmeG"; "EnEV"; "Wärmeschutz";
     "Anforderungswert"; "Ersatzmaßnahmen"; "Erläuterungen";
     "Berechnungsverfahren"; "Pflichtangabe"; "Immobilienanzeigen";
     "Angaben zum"; "Dritten"; "behindertengerechte"; "Erfüllungsgehilfen";
     "Beauftragten"]%string.

(** [\r] and [\n] *)
Definition isLineBreak (c : N) : bool := (c =? 13)%N || (c =? 10)%N.

Definition space : jsstring := [32%N].

(** The normalisation of [isWhitelisted], repeated inline for the dynamic
    exclusion. *)
Definition normalizeText (t : jsstring) : jsstring :=
  let t := toLowerCase t in
  let t := replaceClass (N.eqb 223) (utf16 "ss") t in       (* /ß/g *)
  let t := replaceClass (N.eqb 228) (utf16 "ae") t in       (* /ä/g *)
  let t := replaceClass (N.eqb 246) (utf16 "oe") t in       (* /ö/g *)
  let t := replaceClass (N.eqb 252) (utf16 "ue") t in       (* /ü/g *)
  let t := replaceLiteral foldAscii (utf16 "str.") (utf16 "strasse") t in
                                                            (* /str\./gi *)
  let t := replaceWord foldAscii (utf16 "str") (utf16 "strasse") t in
                                                            (* /\bstr\b/gi *)
  let t := replaceClass (fun c => isLineBreak c || oneOf (utf16 ",-.") c)
                        space t in                          (* /[\r\n,\-\.]/g *)
  let t := replaceRuns isWhiteSpace space false t in        (* /\s+/g *)
  trim t.

(** [s.split(' ')] *)
Definition splitSpaces (s : jsstring) : list jsstring :=
  splitOn (N.eqb 32) s.

(** [s.split(' ').filter(p => p.length > 2)] *)
Definition longParts (s : jsstring) : list jsstring :=
  filter (fun p => strlen p >? 2) (splitSpaces s).

(** [arr.includes(s)] on an array of strings *)
Definition arrayIncludes (arr : list jsstring) (s : jsstring) : bool :=
  existsb (streq s) arr.

Definition isWhitelisted (entityText : jsstring) : bool :=
  let normalizedEntity := normalizeText entityText in
  existsb (fun roleWord =>
    let normalizedRole := normalizeText roleWord in
    let entityWords := splitSpaces normalizedEntity in
    streq normalizedEntity normalizedRole
    || ((List.length entityWords =? 1)%nat
        && streq (hd [] entityWords) normalizedRole)
    || arrayIncludes entityWords normalizedRole
    || wordSomewhere foldAscii normalizedRole None normalizedEntity)
    WHITELISTED_ROLE_WORDS
  || existsb (fun org =>
       let normalizedOrg := normalizeText org in
       streq normalizedEntity normalizedOrg
       || includes normalizedEntity normalizedOrg
       || includes normalizedOrg normalizedEntity)
       WHITELISTED_ORGANIZATIONS
  || existsb (fun address =>
       let normalizedAddress := normalizeText address in
       includes normalizedEntity normalizedAddress
       || includes normalizedAddress normalizedEntity
       || (let addressParts := longParts normalizedAddress in
           let entityParts := longParts normalizedEntity in
           let matchingParts :=
             filter (fun part =>
               existsb (fun entityPart =>
                 streq entityPart part || includes entityPart part
                 || includes part entityPart) entityParts) addressParts in
           let matchRatio :=
             (inject_Z (Z.of_nat (List.length matchingParts))
              / inject_Z (Z.of_nat (List.length addressParts)))%Q in
           Qle_bool 0.5 matchRatio
           && (2 <=? List.length matchingParts)%nat))
       WHITELISTED_ADDRESSES.

(** [calculateSimilarity]: Levenshtein distance by rows.  [nextRow]
    computes the entries [1..] of the row of one character [c] of [s1]
    from the previous row [old = costs[j-1] :: costs[j] :: ...] and the
    entry to the left, [lastValue]. *)
Fixpoint nextRow (c : N) (s2 : jsstring) (old : list Z) (lastValue : Z)
    : list Z :=
  match s2, old with
  | d :: s2', diagonal :: ((above :: _) as old') =>
    let newValue :=
      if (c =? d)%N then diagonal
      else Z.min (Z.min diagonal lastValue) above + 1 in
    newValue :: nextRow c s2' old' newValue
  | _, _ => []
  end.

Definition editDistance (s1 s2 : jsstring) : Z :=
  let firstRow := map Z.of_nat (seq 0 (S (List.length s2))) in
  let '(_, costs) :=
    fold_left (fun '(i, costs) c => (i + 1, i :: nextRow c s2 costs i))
              s1 (1, firstRow) in
  last costs 0.

Definition calculateSimilarity (str1 str2 : jsstring) : Q :=
  let longer := if strlen str1 >? strlen str2 then str1 else str2 in
  let shorter := if strlen str1 >? strlen str2 then str2 else str1 in
  if strlen longer =? 0 then 1
  else (inject_Z (strlen longer - editDistance longer shorter)
        / inject_Z (strlen longer))%Q.

(** [arr.find(f) || ''] *)
Definition findOrEmpty (f : jsstring -> bool) (arr : list jsstring) : jsstring :=
  match find f arr with
  | Some p => p
  | None => []
  end.

Record AddressComponents := mkComponents {
  street : jsstring;
  number : jsstring;
  postal : jsstring;
  city : jsstring
}.

(** [/strasse|str/i], [/^\d+[a-z]?$/i], [/^\d{5}$/] *)
Definition looksLikeStreet (p : jsstring) : bool :=
  matchesSomewhere (Alt (Lit foldAscii (utf16 "strasse"))
                        (Lit foldAscii (utf16 "str"))) p.
Definition looksLikeNumber (p : jsstring) : bool :=
  matches (Seq (Plus (Chr isDigit))
               (Opt (Chr (fun c => inRange 97 122 (foldAscii c))))) p.
Definition looksLikePostal (p : jsstring) : bool :=
  matches (Times 5 (Chr isDigit)) p.

Definition extractComponents (addr : jsstring) : AddressComponents :=
  let parts := filter nonEmpty (splitSpaces addr) in
  mkComponents
    (findOrEmpty looksLikeStreet parts)
    (findOrEmpty looksLikeNumber parts)
    (findOrEmpty looksLikePostal parts)
    (findOrEmpty (fun p => (strlen p >? 2) && negb (looksLikeStreet p)
                           && negb (looksLikeNumber p)
                           && negb (looksLikePostal p)) parts).

(** The four methods of the dynamic exclusion. *)
Definition dynamicallyExcluded (entityText excludeAddress : jsstring) : bool :=
  let normalizedEntityText := normalizeText entityText in
  let normalizedExcludeAddress := normalizeText excludeAddress in
  (* METHOD 1 *)
  includes normalizedEntityText normalizedExcludeAddress
  || includes normalizedExcludeAddress normalizedEntityText
  (* METHOD 2 *)
  || Qle_bool 0.85 (calculateSimilarity normalizedEntityText
                                        normalizedExcludeAddress)
  (* METHOD 3 *)
  || (let excludeParts := longParts normalizedExcludeAddress in
      let entityParts := longParts normalizedEntityText in
      let matchingParts :=
        filter (fun part =>
          existsb (fun entityPart =>
            streq entityPart part
            || Qle_bool 0.85 (calculateSimilarity entityPart part))
            entityParts) excludeParts in
      let matchRatio :=
        (inject_Z (Z.of_nat (List.length matchingParts))
         / inject_Z (Z.of_nat (List.length excludeParts)))%Q in
      Qle_bool 0.6 matchRatio && (2 <=? List.length matchingParts)%nat)
  (* METHOD 4 *)
  || (let entityComponents := extractComponents normalizedEntityText in
      let excludeComponents := extractComponents normalizedExcludeAddress in
      let hasComponents :=
        nonEmpty (street entityComponents) || nonEmpty (number entityComponents)
        || nonEmpty (postal entityComponents) || nonEmpty (city entityComponents) in
      let count (b : bool) : nat := if b then 1%nat else 0%nat in
      let matchCount :=
        (count (nonEmpty (street entityComponents)
                && nonEmpty (street excludeComponents)
                && Qle_bool 0.75 (calculateSimilarity
                                    (street entityComponents)
                                    (street excludeComponents)))
         + count (nonEmpty (number entityComponents)
                  && nonEmpty (number excludeComponents)
                  && streq (number entityComponents) (number excludeComponents))
         + count (nonEmpty (postal entityComponents)
                  && nonEmpty (postal excludeComponents)
                  && streq (postal entityComponents) (postal excludeComponents))
         + count (nonEmpty (city entityComponents)
                  && nonEmpty (city excludeComponents)
                  && Qle_bool 0.75 (calculateSimilarity
                                      (city entityComponents)
                                      (city excludeComponents))))%nat in
      hasComponents && (2 <=? matchCount)%nat).

(** [nums.every((n, i) => i === 0 || f(nums[i - 1], n))] *)
Fixpoint everyWithPrevious (f : Z -> Z -> bool) (nums : list Z) : bool :=
  match nums with
  | a :: ((b :: _) as rest) => f a b && everyWithPrevious f rest
  | _ => true
  end.

(** [entity.text.replace(/[\n\r]/g, ' ').trim()] *)
Definition entityTextClean (entity : PIIEntity) : jsstring :=
  trim (replaceClass isLineBreak space (text entity)).

(** [entityTextClean.split(/\s+/).filter(s => s.length > 0)] *)
Definition numberParts (entity : PIIEntity) : list jsstring :=
  filter nonEmpty (splitWhiteSpace (entityTextClean entity)).

(** The three suppressions of short [Organization] entities. *)
Definition organizationNoise (clean : jsstring) : bool :=
  (* /^[A-H]\+?$/i *)
  matches (Seq (Chr (fun c => inRange 97 104 (foldAscii c)))
               (Opt (Lit (fun c => c) (utf16 "+")))) clean
  (* /^\d{1,3}$/ and 0 <= parseInt <= 300 *)
  || (matches (Rep 1 3 (Chr isDigit)) clean
      && match parseInt clean with
         | Some num => (num >=? 0) && (num <=? 300)
         | None => false
         end)
  || (strlen clean <=? 2).

Definition looksLikeEnergyScale (parts : list jsstring) : bool :=
  (3 <=? List.length parts)%nat
  && forallb (fun part => match parseInt part with
                          | Some num => (num >=? 0) && (num <=? 300)
                          | None => false
                          end) parts
  && (let nums := map (fun p => match parseInt p with
                                | Some num => num
                                | None => 0   (* not reached *)
                                end) parts in
      let isIncrementing := everyWithPrevious (fun prev n => n >? prev) nums in
      let firstDiff := match nums with
                       | a :: b :: _ => b - a
                       | _ => 0
                       end in
      let isEvenlySpaced :=
        ((firstDiff =? 25) || (firstDiff =? 50))
        && everyWithPrevious (fun prev n => n - prev =? firstDiff) nums in
      isIncrementing || isEvenlySpaced).

(** The callback of [entities.filter]: [true] keeps the entity.
    [excludeAddress] is [None] when the caller gave none. *)
Definition keepEntity (excludeAddress : option jsstring) (entity : PIIEntity)
    : bool :=
  if isWhitelisted (text entity) then false
  else if streq (category entity) Organization
          && organizationNoise (entityTextClean entity) then false
  else if looksLikeEnergyScale (numberParts entity) then false
  else match excludeAddress with
       | None | Some [] => true        (* !excludeAddress *)
       | Some address => negb (dynamicallyExcluded (text entity) address)
       end.

Definition filteredEntities (excludeAddress : option jsstring)
    (entities : list PIIEntity) : list PIIEntity :=
  filter (keepEntity excludeAddress) entities.

(** Vocabulary: the energy-scale rule as the specification words it.  The
    tokens of a text are the non-empty pieces between white space; a
    token is an integer when it is a non-empty run of decimal digits. *)
Definition tokens (s : jsstring) : list jsstring :=
  filter nonEmpty (splitOn isWhiteSpace s).

Definition isDecimal (tok : jsstring) : bool :=
  nonEmpty tok && forallb isDigit tok.

Definition decimalValue (tok : jsstring) : Z := digitsValue 0 tok.

Fixpoint strictlyIncreasing (nums : list Z) : bool :=
  match nums with
  | a :: ((b :: _) as rest) => (a <? b) && strictlyIncreasing rest
  | _ => true
  end.

Fixpoint spacedBy (d : Z) (nums : list Z) : bool :=
  match nums with
  | a :: ((b :: _) as rest) => (b - a =? d) && spacedBy d rest
  | _ => true
  end.

(** Evenly spaced at an interval of [d]: neighbours differ by [d], going
    up or going down. *)
Definition evenlySpaced (d : Z) (nums : list Z) : bool :=
  spacedBy d nums || spacedBy (- d) nums.

Definition energyScaleText (s : jsstring) : bool :=
  let toks := tokens s in
  (3 <=? List.length toks)%nat
  && forallb (fun tok => isDecimal tok && (decimalValue tok <=? 300)) toks
  && (let nums := map decimalValue toks in
      strictlyIncreasing nums || evenlySpaced 25 nums || evenlySpaced 50 nums).

(** Vocabulary: the energy-scale rule as the filter applies it.  A token
    counts by the number that [parseInt] reads at its head (an optional
    sign and the leading digits; what follows the digits is ignored), and
    the numbers must be strictly increasing; the tokens spaced by 25 or
    by 50 that the filter also tests are strictly increasing. *)
Definition energyScaleRule (s : jsstring) : bool :=
  let toks := tokens s in
  (3 <=? List.length toks)%nat
  && forallb (fun tok => match parseInt tok with
                         | Some num => (0 <=? num) && (num <=? 300)
                         | None => false
                         end) toks
  && strictlyIncreasing (map (fun tok => match parseInt tok with
                                         | Some num => num
                                         | None => 0
                                         end) toks).

(** Vocabulary: none of the other rules of the filter matches the
    entity: the whitelist, the rule for short [Organization] entities,
    the exclusion of the address given by the caller. *)
Definition otherRulesKeep (excludeAddress : option jsstring)
    (entity : PIIEntity) : bool :=
  negb (isWhitelisted (text entity))
  && negb (streq (category entity) Organization
           && organizationNoise (entityTextClean entity))
  && match excludeAddress with
     | None | Some [] => true
     | Some address => negb (dynamicallyExcluded (text entity) address)
     end.

(** A scale read from the top: evenly spaced at an interval of 25, going
    down. *)
Definition scaleDescending : PIIEntity :=
  mkEntity (utf16 "100 75 50") Organization 40 9 0.6.

(* ================================================================== *)
(** ** PatternDetectorBank: the phone-number detector *)

(** [\+?\d{1,3}[\s\-]?\(?\d{2,4}\)?[\s\-]?\d{3,4}[\s\-]?\d{3,4}], the
    group of [phonePattern] between its two [\b].  The two [\b] bear on
    where in a text a candidate begins and ends, not on what is done with
    it: a candidate begins at a word boundary ([boundaryBetween]), so
    with its [+] only where a word character comes before the [+]. *)
Definition phonePattern : regex :=
  let separator := Opt (Chr (fun c => isWhiteSpace c || (c =? 45)%N)) in
  Seq (Opt (Chr (N.eqb 43)))
  (Seq (Rep 1 3 (Chr isDigit))
  (Seq separator
  (Seq (Opt (Chr (N.eqb 40)))
  (Seq (Rep 2 4 (Chr isDigit))
  (Seq (Opt (Chr (N.eqb 41)))
  (Seq separator
  (Seq (Rep 3 4 (Chr isDigit))
  (Seq separator
       (Rep 3 4 (Chr isDigit)))))))))).

Definition scaleAnchors : list jsstring :=
  map utf16 ["25"; "50"; "75"; "100"; "125"; "150"; "175"; "200"; "225";
             "250"]%string.

(** The body of the loop over the matches of [phonePattern]: [true] when
    the candidate is pushed as a [PhoneNumber] entity, [false] when the
    turn ends in a [continue]. *)
Definition phoneCandidateEmitted (phoneCandidate : jsstring) : bool :=
  (* phoneCandidate.replace(/[\s\-\(\)\n\r]/g, '') *)
  let digitsOnly :=
    replaceClass (fun c => isWhiteSpace c || oneOf (utf16 "-()") c
                           || isLineBreak c) [] phoneCandidate in
  if strlen digitsOnly <? 10 then false
  else
    let isLikelyEnergyScale :=
      (includes phoneCandidate [10%N] || includes phoneCandidate [13%N])
      (* digitsOnly.match(/^\d{1,3}(\d{1,3})*$/) *)
      && matches (Seq (Rep 1 3 (Chr isDigit)) (Star (Rep 1 3 (Chr isDigit))))
                 digitsOnly
      (* /^(25|50|75|100|125|150|175|200|225|250)/.test(digitsOnly) *)
      && existsb (fun anchor => matchesPrefix (Lit (fun c => c) anchor)
                                              digitsOnly) scaleAnchors in
    let spaceSeparatedNumbers :=
      filter nonEmpty
             (splitWhiteSpace (replaceClass isLineBreak space phoneCandidate)) in
    let allSmallNumbers :=
      forallb (fun num => match parseInt num with
                          | Some parsed => parsed <=? 300
                          | None => false
                          end) spaceSeparatedNumbers in
    let hasEnoughSmallNumbers :=
      (3 <=? List.length spaceSeparatedNumbers)%nat && allSmallNumbers in
    if isLikelyEnergyScale || hasEnoughSmallNumbers then false
    else true.

(** Vocabulary: the phone rule as the specification words it.  The digit
    groups of a candidate are its maximal runs of digits. *)
Definition digitGroups (s : jsstring) : list jsstring :=
  filter nonEmpty (splitOn (fun c => negb (isDigit c)) s).

Definition phoneEmittedAsSpecified (candidate : jsstring) : bool :=
  let digits := filter isDigit candidate in
  let scaleArtifact :=
    existsb isLineBreak candidate
    && forallb (fun g => strlen g <=? 3) (digitGroups candidate)
    && existsb (fun anchor => startsWith anchor digits) scaleAnchors in
  let smallNumbers :=
    (3 <=? List.length (tokens candidate))%nat
    && forallb (fun tok => isDecimal tok && (decimalValue tok <=? 300))
               (tokens candidate) in
  negb (scaleArtifact || smallNumbers) && (10 <=? strlen digits).

(** A number broken over two lines after its first group, and a number
    with a country code and nine digits. *)
Definition phoneOverTwoLines : jsstring :=
  utf16 "250" ++ [10%N] ++ utf16 "1234 567 890".
Definition phoneNineDigits : jsstring := utf16 "+1 23 456 789".

(** Entities outside the data model: a NER entity of length 0 inside the
    span of two job titles, and a pattern entity with its span and
    category. *)
Definition emptyOrg : PIIEntity := mkEntity [] Organization 5 0 0.5.
Definition emptyOrgPattern : PIIEntity := mkEntity [] Organization 5 0 0.5.
Definition occArztAgain : PIIEntity :=
  mkEntity (utf16 "Arzt") Occupation 3 4 0.80.
Definition occArztFirst : PIIEntity :=
  mkEntity (utf16 "Arzt") Occupation 3 4 0.85.

(** Sample entities over the text ["BLZ 100 700 24"]: what [blzPattern]
    emits, and the same digits taken for a phone number by the NER
    service. *)
Definition bankCode : PIIEntity :=
  mkEntity (utf16 "10070024") DEBankCode 4 10 0.90.
Definition phoneNer : PIIEntity :=
  mkEntity (utf16 "100 700 24") PhoneNumber 4 10 0.8.

(** Vocabulary: the number of words, over all pages, whose span overlaps
    the span of an entity. *)
Definition overlapCount (pages : list DocIntelPage) (entity : PIIEntity) : nat :=
  list_sum
    (map (fun page =>
            List.length
              (filter (fun w => wordOverlaps w (offset entity)
                                             (offset entity + length entity))
                      (Page.words page)))
         pages).

(** The end-to-end scenario of the specification: an entity over
    [[10, 25)] and two words with spans [[10, 14)] and [[15, 25)] on the
    first page. *)
Definition wordFirstName : DocIntelWord :=
  Word.mk (utf16 "Max") (mkPolygon 1 1 2 1 2 2 1 2) (Span.mk 10 4) 0.99.
Definition wordSurname : DocIntelWord :=
  Word.mk (utf16 "Mustermann") (mkPolygon 2 1 4 1 4 2 2 2) (Span.mk 15 10) 0.99.
Definition scenarioDoc : Doc.t :=
  Doc.mk (utf16 "Patient:  Max  Mustermann")
         [Page.mk 1 0 8.5 11 inch [wordFirstName; wordSurname]] None.
Definition personMustermann : PIIEntity :=
  mkEntity (utf16 "Max Mustermann") (utf16 "Person") 10 15 0.9.

(* ================================================================== *)
(** ** SignatureDetector: fallback pass and [detectSignaturesFromStyles] *)

(** The keyword test of the fallback pass: the label, or the first five
    code units of a label longer than four. *)
Definition isSignatureLabel (wordText : jsstring) : bool :=
  existsb (fun label =>
             includes wordText label
             || ((strlen label >? 4)
                 && includes wordText (substring label 0 5)))
          signatureLabels.

(** [/^(ja|nein|oder|und|der|die|das|nicht|bitte|von|zu)$/i] *)
Definition commonWord : regex :=
  fold_right (fun w r => Alt (Lit foldAscii (utf16 w)) r) Never
    ["ja"; "nein"; "oder"; "und"; "der"; "die"; "das"; "nicht"; "bitte";
     "von"; "zu"]%string.

(** [/[a-zA-ZäöüÄÖÜß]{3,}/] *)
Definition threeLetters : regex :=
  let letter := Chr (fun c => inRange 97 122 c || inRange 65 90 c
                              || oneOf (utf16 "äöüÄÖÜß") c) in
  Seq (Times 3 letter) (Star letter).

(** [signatures.some(sig => ...)] of the fallback pass; the word corner is
    scaled by 72 whatever the unit of the page. *)
Definition alreadyDetected (signatures : list RedactionCoordinate)
    (pageIdx : nat) (nearbyWord : DocIntelWord) : bool :=
  existsb (fun sig =>
             (Region.pageIndex sig =? pageIdx)%nat
             && Qltb (Qabs (Region.x sig - x1 (Word.polygon nearbyWord) * 72)) 50
             && Qltb (Qabs (Region.y sig - y1 (Word.polygon nearbyWord) * 72)) 50)
          signatures.

(** The box of a fallback candidate, [None] when it fails
    [w > 20 && h > 10]. *)
Definition fallbackRegion (pageIdx : nat) (page : DocIntelPage)
    (nearbyWord : DocIntelWord) : option RedactionCoordinate :=
  let polygon := Word.polygon nearbyWord in
  let x := (Qmin (x1 polygon) (x4 polygon) - 0.1)%Q in
  let y := (Qmin (y1 polygon) (y2 polygon) - 0.1)%Q in
  let w := (Qmax (x2 polygon) (x3 polygon) - x + 0.2)%Q in
  let h := (Qmax (y3 polygon) (y4 polygon) - y + 0.2)%Q in
  let u := Page.unit page in
  let x := toPoints u x in
  let y := toPoints u y in
  let w := toPoints u w in
  let h := toPoints u h in
  if Qltb 20 w && Qltb 10 h then
    Some (Region.mk pageIdx x y w h
            (Some (utf16 "[Signature (fallback): " ++ Word.content nearbyWord
                   ++ utf16 "]"))
            (Some (utf16 "Signature")))
  else None.

(** The position test of a candidate against a label. *)
Definition belowAndBeside (labelWord nearbyWord : DocIntelWord) : bool :=
  let labelY := centreY labelWord in
  let labelX := centreX labelWord in
  let nearbyY := centreY nearbyWord in
  let nearbyX := centreX nearbyWord in
  let isBelow := Qltb labelY nearbyY && Qltb (nearbyY - labelY) 1.0 in
  let isBeside := Qltb (Qabs (nearbyX - labelX)) 3.0 in
  isBelow && isBeside.

(** The text test of a candidate. *)
Definition looksLikeSignatureText (nearbyText : jsstring) : bool :=
  let isCommonWord := matches commonWord nearbyText in
  let hasLetters := matchesSomewhere threeLetters nearbyText in
  negb isCommonWord && hasLetters && (strlen nearbyText >=? 3).

(** One turn of the inner loop over [page.words]: [nearbyWord === word]
    compares the objects, here their indices in the page. *)
Definition fallbackNearbyTurn (pageIdx : nat) (page : DocIntelPage)
    (labelIdx : nat) (labelWord : DocIntelWord)
    (signatures : list RedactionCoordinate)
    (indexedNearby : nat * DocIntelWord) : list RedactionCoordinate :=
  let '(nearbyIdx, nearbyWord) := indexedNearby in
  if (nearbyIdx =? labelIdx)%nat then signatures
  else if belowAndBeside labelWord nearbyWord then
    if looksLikeSignatureText (Word.content nearbyWord)
       && negb (alreadyDetected signatures pageIdx nearbyWord) then
      match fallbackRegion pageIdx page nearbyWord with
      | Some signature => signatures ++ [signature]
      | None => signatures
      end
    else signatures
  else signatures.

(** One turn of the loop over the words of a page, the word taken as a
    possible label. *)
Definition fallbackLabelTurn (pageIdx : nat) (page : DocIntelPage)
    (signatures : list RedactionCoordinate)
    (indexedWord : nat * DocIntelWord) : list RedactionCoordinate :=
  let '(labelIdx, labelWord) := indexedWord in
  let wordText := toLowerCase (Word.content labelWord) in
  if isSignatureLabel wordText && (strlen wordText >? 3) then
    if Qltb (centreY labelWord) (Page.height page * 0.5) then signatures
    else fold_left (fallbackNearbyTurn pageIdx page labelIdx labelWord)
                   (indexed (Page.words page)) signatures
  else signatures.

Definition fallbackPass (docIntelResult : Doc.t) : list RedactionCoordinate :=
  fold_left (fun signatures '(pageIdx, page) =>
               fold_left (fallbackLabelTurn pageIdx page)
                         (indexed (Page.words page)) signatures)
            (indexed (Doc.pages docIntelResult)) [].

Definition detectSignaturesFromStyles (docIntelResult : Doc.t)
    : list RedactionCoordinate :=
  let signatures := primarySignaturePass docIntelResult in
  match signatures with
  | [] => fallbackPass docIntelResult      (* signatures.length === 0 *)
  | _ :: _ => signatures
  end.

(** A page with a date line in its lower half: the word ["Datum"] and
    the place under it. *)
Definition wordDate : DocIntelWord :=
  Word.mk (utf16 "Datum") (mkPolygon 1 9 1.6 9 1.6 9.2 1 9.2)
          (Span.mk 0 5) 0.99.
Definition wordPlace : DocIntelWord :=
  Word.mk (utf16 "Berlin") (mkPolygon 1 9.5 1.7 9.5 1.7 9.8 1 9.8)
          (Span.mk 6 6) 0.99.
Definition dateDoc : Doc.t :=
  Doc.mk (utf16 "Datum Berlin")
         [Page.mk 1 0 8.5 11 inch [wordDate; wordPlace]] None.

(** A page without handwriting annotation: a label in the lower half and
    a name under it, at the left edge. *)
Definition wordLabelLow : DocIntelWord :=
  Word.mk (utf16 "Unterschrift") (mkPolygon 0 9 1.2 9 1.2 9.2 0 9.2)
          (Span.mk 0 12) 0.99.
Definition wordNameBelow : DocIntelWord :=
  Word.mk (utf16 "Mustermann") (mkPolygon 0 9.5 1.3 9.5 1.3 9.8 0 9.8)
          (Span.mk 13 10) 0.8.
Definition fallbackDoc : Doc.t :=
  Doc.mk (utf16 "Unterschrift Mustermann")
         [Page.mk 1 0 8.5 11 inch [wordLabelLow; wordNameBelow]] None.

(** Vocabulary of the statements about [editDistance]. *)

(** The entries of a row of the distance table: entry [j] of row [i] is
    between 0 and the larger of [i] and [j]. *)
Fixpoint rowBounded (i j : Z) (row : list Z) : Prop :=
  match row with
  | [] => True
  | v :: rest => 0 <= v <= Z.max i j /\ rowBounded i (j + 1) rest
  end.

(** Row [i] of the table of a string against itself, from column [j]. *)
Definition diagRow (i j : Z) (len : nat) : list Z :=
  map (fun k => Z.abs (i - (j + Z.of_nat k))) (seq 0 len).

(** Vocabulary: the alphabet of a normalised text.  No upper-case ASCII
    letter, none of the four letters that are written out, none of the
    punctuation marks that are blanked, and no white space but the
    space. *)
Definition normalChar (c : N) : bool :=
  negb (inRange 65 90 c)
  && negb (oneOf [223; 228; 246; 252]%N c)
  && negb (oneOf (utf16 ",-.") c)
  && (negb (isWhiteSpace c) || (c =? 32)%N).

(** Vocabulary: no two white-space code units in a row. *)
Fixpoint singleSpaced (s : jsstring) : bool :=
  match s with
  | a :: ((b :: _) as rest) =>
    negb (isWhiteSpace a && isWhiteSpace b) && singleSpaced rest
  | _ => true
  end.

(* ================================================================== *)
(** ** PatternDetectorBank: card numbers and bank identifier codes *)

(** [\d{4}[\s\-]?\d{4}[\s\-]?\d{4}[\s\-]?\d{4}], the group of
    [creditCardPattern] between its two [\b]. *)
Definition creditCardPattern : regex :=
  let separator := Opt (Chr (fun c => isWhiteSpace c || (c =? 45)%N)) in
  Seq (Times 4 (Chr isDigit))
  (Seq separator
  (Seq (Times 4 (Chr isDigit))
  (Seq separator
  (Seq (Times 4 (Chr isDigit))
  (Seq separator
       (Times 4 (Chr isDigit))))))).

(** The body of the loop over the matches of [creditCardPattern]: [true]
    when the match is pushed as a [CreditCardNumber] entity. *)
Definition creditCardEmitted (candidate : jsstring) : bool :=
  (* match[1].replace(/[\s\-]/g, '') *)
  let digits :=
    replaceClass (fun c => isWhiteSpace c || (c =? 45)%N) [] candidate in
  strlen digits =? 16.

(** [[A-Z]{4}\s?[A-Z]{2}\s?[A-Z0-9]\s?[A-Z0-9]\s?(?:[A-Z0-9]{3})?], the
    group of [bicPattern] and of [bicWithKeywordPattern]; [letter] is
    [[A-Z]], which under the [i] flag of the second pattern has the small
    letters too. *)
Definition bicCode (letter : N -> bool) : regex :=
  let alnum := Chr (fun c => letter c || isDigit c) in
  let blank := Opt (Chr isWhiteSpace) in
  Seq (Times 4 (Chr letter))
  (Seq blank
  (Seq (Times 2 (Chr letter))
  (Seq blank
  (Seq alnum
  (Seq blank
  (Seq alnum
  (Seq blank
       (Opt (Times 3 alnum))))))))).

Definition bicPattern : regex := bicCode (inRange 65 90).

Definition bicWithKeywordCode : regex :=
  bicCode (fun c => inRange 97 122 (foldAscii c)).

(** The body of both loops: [true] when the code is pushed as a
    [SWIFTCode] entity. *)
Definition bicEmitted (bicWithSpaces : jsstring) : bool :=
  (* bicWithSpaces.replace(/\s/g, '') *)
  let bicClean := replaceClass isWhiteSpace [] bicWithSpaces in
  (strlen bicClean =? 8) || (strlen bicClean =? 11).

(* ================================================================== *)
(** ** OCR and language collaborators *)

(** Settlement of the promise of [axios.post] in [detectLanguage]: it
    resolves, and
    [response.data.results?.documents?.[0]?.detectedLanguage?.iso6391Name]
    is a string or [undefined], or it rejects. *)
Inductive LanguageSettled :=
| LanguageResolved (iso6391Name : option jsstring)
| LanguageRejected.

(** Settlement of the first request of [extractTextWithAzureDocIntel] and
    of one poll of the operation: the status code, the
    [operation-location] header and [data.analyzeResult] of the first,
    [data.status] and [data.analyzeResult] of the second. *)
Inductive AnalyzeSettled :=
| AnalyzeResolved (status : Z) (operationLocation : option jsstring)
                  (analyzeResult : option Doc.t)
| AnalyzeRejected (message : jsstring).

Inductive PollSettled :=
| PollResolved (status : jsstring) (analyzeResult : option Doc.t)
| PollRejected (message : jsstring).

Section Collaborators.
(** The language service, by the text of the document sent. *)
Variable postLanguage : jsstring -> LanguageSettled.

Definition detectLanguage (text : jsstring) : jsstring :=
  match postLanguage (substring text 0 1000) with
  | LanguageResolved (Some detectedLang) =>
    if nonEmpty detectedLang then detectedLang else utf16 "en"
  | LanguageResolved None => utf16 "en"
  | LanguageRejected => utf16 "en"       (* the catch block *)
  end.

(** The answer to the upload, and the answers to the polls in the order
    in which they are made. *)
Variable analyze : AnalyzeSettled.
Variable poll : nat -> PollSettled.

(** [status === 'running' || status === 'notStarted'] *)
Definition stillRunning (status : jsstring) : bool :=
  streq status (utf16 "running") || streq status (utf16 "notStarted").

(** The [while] loop, from the poll numbered [made]; [fuel] bounds the
    number of polls and [None] is a loop still waiting when it runs out.
    The result is what the function returns or throws: an error thrown
    in the loop passes through the [catch] of the function. *)
Fixpoint pollLoop (fuel made : nat) : option (Completion (option Doc.t)) :=
  match fuel with
  | O => None
  | S fuel' =>
    match poll made with
    | PollRejected message => Some (Throws (utf16 "OCR failed: " ++ message))
    | PollResolved status analyzeResult =>
      if streq status (utf16 "failed") then
        Some (Throws (utf16 "OCR failed: Azure Document Intelligence analysis failed."))
      else if stillRunning status then pollLoop fuel' (S made)
      else Some (Returns analyzeResult)
    end
  end.

Definition extractTextWithAzureDocIntel (fuel : nat)
    : option (Completion (option Doc.t)) :=
  match analyze with
  | AnalyzeRejected message => Some (Throws (utf16 "OCR failed: " ++ message))
  | AnalyzeResolved status operationLocation analyzeResult =>
    if status =? 202 then
      match operationLocation with
      | Some (_ :: _) => pollLoop fuel 0
      | _ =>
        Some (Throws (utf16 "OCR failed: Azure accepted the request but returned no Operation-Location header."))
      end
    else Some (Returns analyzeResult)
  end.
End Collaborators.

(** A service that is still running at the first two polls and answers
    the third with the given status and no result. *)
Definition thirdPoll (status : jsstring) (made : nat) : PollSettled :=
  match made with
  | 0%nat => PollResolved (utf16 "notStarted") None
  | 1%nat => PollResolved (utf16 "running") None
  | _ => PollResolved status None
  end.

(* ================================================================== *)
(** ** The route: [POST] *)

(** Bytes of a PDF. *)
Definition Buffer := list N.

Module File.
Record t := mk {
  originalFilename : jsstring;
  buffer : Buffer
}.
End File.
Definition UploadedFile := File.t.

(** The environment variables read by the route; [None] is
    [undefined]. *)
Module Env.
Record t := mk {
  API_BEARER_TOKEN : option jsstring;
  AZURE_PII_ENDPOINT : option jsstring;
  AZURE_PII_API_KEY : option jsstring;
  AZURE_DOCUMENT_INTELLIGENCE_ENDPOINT : option jsstring;
  AZURE_DOCUMENT_INTELLIGENCE_KEY : option jsstring
}.
End Env.

(** The form data: the files of the field [files[]] and the field
    [excludeAddress]. *)
Module Form.
Record t := mk {
  files : list UploadedFile;
  excludeAddress : option jsstring
}.
End Form.

(** What the route reads of the request: whether
    [supabase.auth.getUser()] gave a user, the [authorization] header
    ([None] is [null]) and the settlement of [req.formData()]. *)
Module Request.
Record t := mk {
  user : bool;
  authorization : option jsstring;
  formData : Completion Form.t
}.
End Request.

Module Entry.
Record t := mk {
  filename : jsstring;
  redactedBase64 : jsstring;
  pageCount : Z;
  redactionsCount : Z
}.
End Entry.

(** The body of a response with status 200.  [address] holds the keys
    [excludedAddress] and [addressWasExcluded]; it is [None] in the body
    that has neither. *)
Module Body.
Record t := mk {
  files : list Entry.t;
  combinedBase64 : jsstring;
  totalEntities : Z;
  totalRedactions : Z;
  filesMerged : Z;
  address : option (option jsstring * bool)
}.
End Body.

Inductive HttpResponse :=
| JsonError (status : Z) (error : jsstring)
| Json (body : Body.t).

Module Result.
Record t := mk {
  file : UploadedFile;
  docIntelResult : Doc.t;
  redactions : list RedactionCoordinate;
  pageCount : Z;
  redactedBase64 : jsstring
}.
End Result.

(** A string that is neither [undefined] (or [null]) nor empty. *)
Definition truthy (v : option jsstring) : bool :=
  match v with
  | Some (_ :: _) => true
  | _ => false
  end.

(** [s.replace(lit, by)] with a string [lit]: the first occurrence. *)
Fixpoint replaceFirst (lit by_ s : jsstring) : jsstring :=
  if startsWith lit s then by_ ++ skipn (List.length lit) s
  else match s with
       | [] => []
       | c :: s' => c :: replaceFirst lit by_ s'
       end.

(** The authentication at the head of [POST]: [Some] is the response
    returned there, [None] lets the request through. *)
Definition authenticate (env : Env.t) (req : Request.t) : option HttpResponse :=
  let isAuthenticatedUser := Request.user req in
  if isAuthenticatedUser then None
  else
    match Env.API_BEARER_TOKEN env with
    | Some ((_ :: _) as expectedToken) =>
      match Request.authorization req with
      | Some ((_ :: _) as authHeader) =>
        if negb (startsWith (utf16 "Bearer ") authHeader) then
          Some (JsonError 401
                  (utf16 "Invalid authorization header. Expected Bearer token."))
        else
          let token := replaceFirst (utf16 "Bearer ") [] authHeader in
          if negb (streq token expectedToken) then
            Some (JsonError 401 (utf16 "Invalid bearer token"))
          else None
      | _ =>
        Some (JsonError 401
                (utf16 "Authentication required. Please login or provide a valid bearer token."))
      end
    | _ => None
    end.

Definition bind {A B} (c : Completion A) (f : A -> Completion B)
    : Completion B :=
  match c with
  | Returns value => f value
  | Throws message => Throws message
  end.

Definition parseForm (req : Request.t) : Completion Form.t :=
  bind (Request.formData req) (fun form =>
  match Form.files form with
  | [] => Throws (utf16 "No files uploaded")
  | _ => Returns form
  end).

(** Steps 5 and 6 of a file, and step 7. *)
Definition fileEntities (excludeAddress : option jsstring)
    (azureEntities customEntities : list PIIEntity) : list PIIEntity :=
  filteredEntities excludeAddress (mergeEntities azureEntities customEntities).

Definition piiRedactions (filtered : list PIIEntity) (docIntelResult : Doc.t)
    : list RedactionCoordinate :=
  match filtered with
  | [] => []
  | _ => convertEntitiesToRedactionCoordinates filtered docIntelResult
  end.

Section Route.
(** The collaborators of the route: [extractTextWithAzureDocIntel]
    (whose result may be [undefined]), [detectLanguage], [detectPII],
    [detectCustomPatterns], [detectSignaturesWithYOLO] (which catches its
    errors), the page count of a PDF, [redactPdfWithPyMuPDF], the merge
    of the redacted PDFs into one (from and to base64) and
    [buffer.toString('base64')]. *)
Variable ocr : Buffer -> Completion (option Doc.t).
Variable languageOf : jsstring -> jsstring.
Variable ner : jsstring -> jsstring -> Completion (list PIIEntity).
Variable patterns : jsstring -> list PIIEntity.
Variable yolo : Buffer -> list RedactionCoordinate -> list RedactionCoordinate.
Variable pageCountOf : Buffer -> Completion Z.
Variable redact :
  Buffer -> list RedactionCoordinate -> jsstring -> Completion Buffer.
Variable mergePdfs : list jsstring -> Completion jsstring.
Variable base64 : Buffer -> jsstring.

(** One turn of the loop over the files: the number of entities left by
    the filter, and the result pushed. *)
Definition processFile (excludeAddress : option jsstring) (i : nat)
    (file : UploadedFile) : Completion (Z * Result.t) :=
  bind (ocr (File.buffer file)) (fun analyzeResult =>
  match analyzeResult with
  | None =>
    Throws (utf16 "Cannot read properties of undefined (reading 'content')")
  | Some docIntelResult =>
    let fullText := Doc.content docIntelResult in
    let language := languageOf fullText in
    bind (ner fullText language) (fun azureEntities =>
    let customEntities := patterns fullText in
    let filtered := fileEntities excludeAddress azureEntities customEntities in
    let piiRedactions := piiRedactions filtered docIntelResult in
    let signatureRedactions := detectSignaturesFromStyles docIntelResult in
    let yoloSignatures := yolo (File.buffer file) signatureRedactions in
    let signatureRedactions :=
      match yoloSignatures with
      | [] => signatureRedactions
      | _ => signatureRedactions ++ yoloSignatures
      end in
    let redactions := piiRedactions ++ signatureRedactions in
    bind (pageCountOf (File.buffer file)) (fun pageCount =>
    let name :=
      match File.originalFilename file with
      | [] => utf16 "file-" ++ decimal (Z.of_nat i + 1) ++ utf16 ".pdf"
      | originalFilename => originalFilename
      end in
    bind (redact (File.buffer file) redactions name) (fun redactedPdfBuffer =>
    Returns (Z.of_nat (List.length filtered),
             Result.mk file docIntelResult redactions pageCount
                       (base64 redactedPdfBuffer)))))
  end).

(** The loop over the files, from the file numbered [i]. *)
Fixpoint processFiles (excludeAddress : option jsstring) (i : nat)
    (files : list UploadedFile) (fileResults : list Result.t)
    (totalEntities : Z) : Completion (list Result.t * Z) :=
  match files with
  | [] => Returns (fileResults, totalEntities)
  | file :: rest =>
    bind (processFile excludeAddress i file) (fun turn =>
    processFiles excludeAddress (S i) rest (fileResults ++ [snd turn])
                 (totalEntities + fst turn))
  end.

(** What follows the loop. *)
Definition respond (uploadedFiles : list UploadedFile)
    (excludeAddress : option jsstring) (fileResults : list Result.t)
    (totalEntities : Z) : Completion HttpResponse :=
  let merged :=
    bind (mergePdfs (map Result.redactedBase64 fileResults))
      (fun combinedBase64 =>
    Returns (Json (Body.mk
      (map (fun fr => Entry.mk (File.originalFilename (Result.file fr))
                               (Result.redactedBase64 fr)
                               (Result.pageCount fr)
                               (Z.of_nat (List.length (Result.redactions fr))))
           fileResults)
      combinedBase64 totalEntities
      (fold_left (fun total result =>
                    total + Z.of_nat (List.length (Result.redactions result)))
                 fileResults 0)
      (Z.of_nat (List.length uploadedFiles))
      (Some (if truthy excludeAddress then excludeAddress else None,
             truthy excludeAddress))))) in
  match uploadedFiles with
  | [first] =>
    (* uploadedFiles.length === 1 && totalEntities === 0 *)
    if totalEntities =? 0 then
      let originalBase64 := base64 (File.buffer first) in
      Returns (Json (Body.mk
        [Entry.mk (File.originalFilename first) originalBase64
                  (match fileResults with
                   | result :: _ => Result.pageCount result
                   | [] => 0
                   end)
                  0]
        originalBase64 0 0 (Z.of_nat (List.length uploadedFiles)) None))
    else merged
  | _ => merged
  end.

Definition POST (env : Env.t) (req : Request.t) : HttpResponse :=
  match authenticate env req with
  | Some response => response
  | None =>
    let outcome :=
      bind (parseForm req) (fun form =>
      let uploadedFiles := Form.files form in
      let excludeAddress := Form.excludeAddress form in
      match uploadedFiles with
      | [] => Returns (JsonError 400 (utf16 "No files uploaded"))
      | _ =>
        if negb (truthy (Env.AZURE_DOCUMENT_INTELLIGENCE_ENDPOINT env))
           || negb (truthy (Env.AZURE_DOCUMENT_INTELLIGENCE_KEY env)) then
          Returns (JsonError 500
            (utf16 "Azure Document Intelligence credentials not configured"))
        else if negb (truthy (Env.AZURE_PII_ENDPOINT env))
                || negb (truthy (Env.AZURE_PII_API_KEY env)) then
          Returns (JsonError 500 (utf16 "Azure PII credentials not configured"))
        else
          bind (processFiles excludeAddress 0 uploadedFiles [] 0) (fun done =>
          respond uploadedFiles excludeAddress (fst done) (snd done))
      end) in
    match outcome with
    | Returns response => response
    | Throws message =>            (* the catch block of the route *)
      JsonError 500 (match message with
                     | [] => utf16 "An unexpected error occurred"
                     | _ => message
                     end)
    end
  end.
End Route.

(** A request with one file and collaborators that find no entity in
    it: the OCR result is [signedDoc], a page with a handwritten
    signature. *)
Definition pdfBytes : Buffer := [37; 80; 68; 70]%N.
Definition signedFile : UploadedFile := File.mk (utf16 "signed.pdf") pdfBytes.
Definition openEnv : Env.t :=
  Env.mk None (Some (utf16 "https://pii")) (Some (utf16 "key"))
         (Some (utf16 "https://ocr")) (Some (utf16 "key")).
Definition tokenEnv : Env.t :=
  Env.mk (Some (utf16 "s3cret")) (Some (utf16 "https://pii"))
         (Some (utf16 "key")) (Some (utf16 "https://ocr")) (Some (utf16 "key")).
Definition signedRequest : Request.t :=
  Request.mk false None (Returns (Form.mk [signedFile] None)).
Definition emptyRequest : Request.t :=
  Request.mk true None (Returns (Form.mk [] None)).
Definition blackened (pdf : Buffer) (redactions : list RedactionCoordinate)
    (name : jsstring) : Completion Buffer :=
  Returns (pdf ++ [Z.to_N (Z.of_nat (List.length redactions))]).

(* ================================================================== *)
(** ** The upload page and its list of files *)

(** A [File] of the browser. *)
Module Upload.
Record t := mk {
  name : jsstring;
  type : jsstring;
  size : Z
}.
End Upload.

(** [arr.splice(i, 0, item)] *)
Definition spliceIn {A} (i : nat) (item : A) (arr : list A) : list A :=
  firstn i arr ++ item :: skipn i arr.

Module FileList.
(** [handleDrop] of the list: the array passed to [onReorder], or [None]
    when [onReorder] is not called.  [draggedIndex] is [None] when it is
    [null]; [undefined] is what [const [draggedFile] = []] binds. *)
Definition handleDrop {A} (undefined : A) (files : list A)
    (draggedIndex : option nat) (dropIndex : nat) : option (list A) :=
  match draggedIndex with
  | None => None
  | Some dragged =>
    if (dragged =? dropIndex)%nat then None
    else
      let draggedFile := nth dragged files undefined in
      let newFiles := splice1 dragged files in
      Some (spliceIn dropIndex draggedFile newFiles)
  end.
End FileList.

Module Home.
(** The state of the page that the handlers of the selection read and
    write.  The page is rendered between two events, so a handler reads
    the state that the handler before it wrote. *)
Record State := mkState {
  files : list Upload.t;
  error : option jsstring
}.

Definition initial : State := mkState [] None.

(** [f.type === "application/pdf"] *)
Definition isPdf (f : Upload.t) : bool :=
  streq (Upload.type f) (utf16 "application/pdf").

(** The part shared by [handleFileChange] and [handleDrop]. *)
Definition addFiles (s : State) (chosen : list Upload.t) : State :=
  let validFiles := filter isPdf chosen in
  if negb (List.length validFiles =? List.length chosen)%nat then
    mkState (files s) (Some (utf16 "Only PDF files are allowed."))
  else if (10 <? List.length (files s) + List.length validFiles)%nat then
    mkState (files s) (Some (utf16 "You can upload a maximum of 10 PDF files."))
  else mkState (files s ++ validFiles) None.

Definition handleFileChange (s : State) (selectedFiles : list Upload.t)
    : State :=
  match selectedFiles with
  | [] => s
  | _ => addFiles s selectedFiles
  end.

Definition handleDrop (s : State) (droppedFiles : list Upload.t) : State :=
  addFiles s droppedFiles.

Definition handleReorder (s : State) (newFiles : list Upload.t) : State :=
  mkState newFiles (error s).

(** [files.filter((_, i) => i !== index)] *)
Definition handleRemoveFile (s : State) (index : nat) : State :=
  mkState (map snd (filter (fun item => negb (fst item =? index)%nat)
                           (indexed (files s))))
          (error s).

Definition handleReset (s : State) : State := mkState [] None.

(** What the user does to the selection.  The items of the list are those
    of [files], so a drag starts and ends on indices of [files]; on other
    indices there is nothing to drag or to drop on. *)
Inductive Event :=
| FileChange (selectedFiles : list Upload.t)
| Drop (droppedFiles : list Upload.t)
| Reorder (draggedIndex dropIndex : nat)
| Remove (index : nat)
| Reset.

Definition handle (s : State) (e : Event) : State :=
  match e with
  | FileChange selectedFiles => handleFileChange s selectedFiles
  | Drop droppedFiles => handleDrop s droppedFiles
  | Reorder draggedIndex dropIndex =>
    if (draggedIndex <? List.length (files s))%nat
       && (dropIndex <? List.length (files s))%nat then
      match FileList.handleDrop (Upload.mk [] [] 0) (files s)
                                (Some draggedIndex) dropIndex with
      | Some newFiles => handleReorder s newFiles
      | None => s
      end
    else s
  | Remove index => handleRemoveFile s index
  | Reset => handleReset s
  end.

Definition run (events : list Event) : State := fold_left handle events initial.
End Home.

(** Three uploads of the page. *)
Definition pdfA : Upload.t := Upload.mk (utf16 "a.pdf") (utf16 "application/pdf") 1.
Definition pdfB : Upload.t := Upload.mk (utf16 "b.pdf") (utf16 "application/pdf") 2.
Definition pdfC : Upload.t := Upload.mk (utf16 "c.pdf") (utf16 "application/pdf") 3.

(* ================================================================== *)
(** ** The log transport: [sendLog] *)

Module HTTPLogTransport.

Section SendLog.
(** Whether the request of the attempt with the given number is
    rejected. *)
Variable rejected : Z -> bool.

End SendLog.
End HTTPLogTransport.

(* ================================================================== *)
(** * Properties *)

Example utf16_sharp_s : utf16 "ß" = [223%N].
Proof. reflexivity. Qed.

(** ** Strings and arrays *)

Lemma streq_eq (a b : jsstring) : streq a b = true <-> a = b.
Proof.
  revert b; induction a as [|x a IH]; intros [|y b]; simpl; split;
    try congruence; try reflexivity.
  - intros H. apply andb_true_iff in H as [Hx Ha].
    apply N.eqb_eq in Hx. apply IH in Ha. congruence.
  - intros H. injection H as -> ->. rewrite N.eqb_refl. now apply IH.
Qed.

Lemma streq_refl (a : jsstring) : streq a a = true.
Proof. now apply streq_eq. Qed.

(** ** The tests of regular expressions decide their language *)

Lemma Matches_Never_inv (s : jsstring) : ~ Matches Never s.
Proof. intros H. inversion H. Qed.

Lemma Matches_Eps_inv (s : jsstring) : Matches Eps s -> s = [].
Proof. intros H. now inversion H. Qed.

Lemma Matches_Chr_inv (cls : N -> bool) (s : jsstring) :
  Matches (Chr cls) s -> exists c, s = [c] /\ cls c = true.
Proof. intros H. inversion H; subst. eauto. Qed.

Lemma Matches_Seq_inv (r1 r2 : regex) (s : jsstring) :
  Matches (Seq r1 r2) s ->
  exists s1 s2, s = s1 ++ s2 /\ Matches r1 s1 /\ Matches r2 s2.
Proof. intros H. inversion H; subst. eauto. Qed.

Lemma Matches_Alt_inv (r1 r2 : regex) (s : jsstring) :
  Matches (Alt r1 r2) s -> Matches r1 s \/ Matches r2 s.
Proof. intros H. inversion H; subst; auto. Qed.

Lemma nullable_spec (r : regex) : nullable r = true <-> Matches r [].
Proof.
  induction r as [| |cls|r1 IH1 r2 IH2|r1 IH1 r2 IH2|r IH]; simpl.
  - split; [discriminate | intros H; now apply Matches_Never_inv in H].
  - split; [constructor | reflexivity].
  - split; [discriminate|]. intros H.
    apply Matches_Chr_inv in H as (c & E & _). discriminate E.
  - rewrite andb_true_iff, IH1, IH2. split.
    + intros [H1 H2]. exact (MatchesSeq r1 r2 [] [] H1 H2).
    + intros H. apply Matches_Seq_inv in H as (s1 & s2 & E & H1 & H2).
      symmetry in E. apply app_eq_nil in E as [-> ->]. auto.
  - rewrite orb_true_iff, IH1, IH2. split.
    + intros [H|H]; [now apply MatchesAltL | now apply MatchesAltR].
    + apply Matches_Alt_inv.
  - split; [constructor | reflexivity].
Qed.

(** A non-empty match of a repetition starts with a non-empty match of
    its body. *)
Lemma Matches_Star_cons (r : regex) (c : N) (s : jsstring) :
  Matches (Star r) (c :: s) ->
  exists s1 s2, s = s1 ++ s2 /\ Matches r (c :: s1) /\ Matches (Star r) s2.
Proof.
  intros H. remember (Star r) as r' eqn:Er. remember (c :: s) as t eqn:Et.
  revert s Et.
  induction H as [| | | | | |r0 s1 s2 H1 _ H2 IH2]; intros t Et;
    try discriminate.
  injection Er as ->. destruct s1 as [|c1 s1].
  - apply IH2; auto.
  - simpl in Et. injection Et as -> <-. eauto.
Qed.

Lemma deriv_spec (r : regex) :
  forall c s, Matches (deriv c r) s <-> Matches r (c :: s).
Proof.
  induction r as [| |cls|r1 IH1 r2 IH2|r1 IH1 r2 IH2|r IH]; intros c s; simpl.
  - split; intros H; now apply Matches_Never_inv in H.
  - split; intros H; [now apply Matches_Never_inv in H|].
    apply Matches_Eps_inv in H. discriminate H.
  - destruct (cls c) eqn:Hc; split; intros H.
    + apply Matches_Eps_inv in H as ->. now constructor.
    + apply Matches_Chr_inv in H as (c' & E & _). injection E as -> ->.
      constructor.
    + now apply Matches_Never_inv in H.
    + apply Matches_Chr_inv in H as (c' & E & H). injection E as -> ->.
      congruence.
  - assert (Hseq : Matches (Seq (deriv c r1) r2) s
                   -> Matches (Seq r1 r2) (c :: s)).
    { intros H. apply Matches_Seq_inv in H as (s1 & s2 & -> & H1 & H2).
      apply IH1 in H1. exact (MatchesSeq r1 r2 (c :: s1) s2 H1 H2). }
    assert (Hcons : Matches (Seq r1 r2) (c :: s) ->
                    (Matches r1 [] /\ Matches (deriv c r2) s)
                    \/ Matches (Seq (deriv c r1) r2) s).
    { intros H. apply Matches_Seq_inv in H as (s1 & s2 & E & H1 & H2).
      destruct s1 as [|c1 s1]; simpl in E.
      - subst s2. left. split; [exact H1 | now apply IH2].
      - injection E as <- ->. right. constructor; [now apply IH1 | exact H2]. }
    destruct (nullable r1) eqn:Hn; split.
    + intros H. apply Matches_Alt_inv in H as [H|H]; [auto|].
      apply IH2 in H. apply nullable_spec in Hn.
      exact (MatchesSeq r1 r2 [] (c :: s) Hn H).
    + intros H. destruct (Hcons H) as [[_ H2]|H1];
        [now apply MatchesAltR | now apply MatchesAltL].
    + exact Hseq.
    + intros H. destruct (Hcons H) as [[H1 _]|H1]; [|exact H1].
      apply nullable_spec in H1. congruence.
  - split; intros H; apply Matches_Alt_inv in H as [H|H];
      solve [ apply MatchesAltL; now apply IH1
            | apply MatchesAltR; now apply IH2 ].
  - split.
    + intros H. apply Matches_Seq_inv in H as (s1 & s2 & -> & H1 & H2).
      apply IH in H1. exact (MatchesStarApp r (c :: s1) s2 H1 H2).
    + intros H. apply Matches_Star_cons in H as (s1 & s2 & -> & H1 & H2).
      constructor; [now apply IH | exact H2].
Qed.

(** [/^r$/.test(s)] holds exactly for the strings of the language. *)
Lemma matches_spec (s : jsstring) : forall r, matches r s = true <-> Matches r s.
Proof.
  induction s as [|c s IH]; intros r; simpl.
  - apply nullable_spec.
  - rewrite IH. apply deriv_spec.
Qed.

(** [/^r/.test(s)] holds exactly when a prefix of [s] is in the language. *)
Lemma matchesPrefix_spec (s : jsstring) :
  forall r, matchesPrefix r s = true
            <-> exists s1 s2, s = s1 ++ s2 /\ Matches r s1.
Proof.
  induction s as [|c s IH]; intros r; simpl; rewrite orb_true_iff.
  - rewrite nullable_spec. split.
    + intros [H|H]; [|discriminate]. exists [], []. auto.
    + intros (s1 & s2 & E & H). symmetry in E.
      apply app_eq_nil in E as [-> _]. auto.
  - rewrite nullable_spec, IH. split.
    + intros [H|(s1 & s2 & -> & H)].
      * exists [], (c :: s). auto.
      * exists (c :: s1), s2. split; [reflexivity | now apply deriv_spec].
    + intros (s1 & s2 & E & H). destruct s1 as [|c1 s1]; [now left|].
      simpl in E. injection E as <- ->. right.
      exists s1, s2. split; [reflexivity | now apply deriv_spec].
Qed.

Lemma startsWith_spec (prefix s : jsstring) :
  startsWith prefix s = true <-> exists rest, s = prefix ++ rest.
Proof.
  revert s. induction prefix as [|p prefix IH]; intros s; simpl.
  - split; [eauto | reflexivity].
  - destruct s as [|c s].
    + split; [discriminate | intros (rest & E); discriminate E].
    + rewrite andb_true_iff, N.eqb_eq, IH. split.
      * intros (-> & rest & ->). eauto.
      * intros (rest & E). injection E as -> ->. eauto.
Qed.

(** [s.includes(needle)] holds exactly when [needle] occurs in [s]. *)
Lemma includes_spec (s needle : jsstring) :
  includes s needle = true <-> exists before after, s = before ++ needle ++ after.
Proof.
  induction s as [|c s IH]; simpl; rewrite orb_true_iff, startsWith_spec.
  - split.
    + intros [(rest & E)|H]; [|discriminate]. exists [], rest. exact E.
    + intros (before & after & E). left. symmetry in E.
      apply app_eq_nil in E as [-> E]. exists after. now rewrite E.
  - rewrite IH. split.
    + intros [(rest & E)|(before & after & ->)].
      * exists [], rest. exact E.
      * exists (c :: before), after. reflexivity.
    + intros (before & after & E). destruct before as [|b before].
      * left. exists after. exact E.
      * simpl in E. injection E as <- ->. right. eauto.
Qed.

Lemma removeFound_removeFirst (f : PIIEntity -> bool) (m : list PIIEntity) :
  removeFound f m = removeFirst f m.
Proof.
  unfold removeFound. induction m as [|x r IH]; simpl; [reflexivity|].
  destruct (f x); [reflexivity|].
  destruct (findIndex f r); simpl; now rewrite <- IH.
Qed.

Lemma removeFound_key (a : PIIEntity) (cat : jsstring) (m : list PIIEntity) :
  streq (category a) cat = true ->
  removeFound (sameSpanCategory a cat) m = removeKey m a.
Proof.
  intros H. apply streq_eq in H. subst cat.
  apply removeFound_removeFirst.
Qed.

(** ** What one [some] does *)

Lemma blocked_cons (c a : PIIEntity) (rest : list PIIEntity) :
  blocked c (a :: rest)
  = (hasOverlap c a && negb (priority c a)) || blocked c rest.
Proof. reflexivity. Qed.

Lemma someAzure_spec (c : PIIEntity) (ner : list PIIEntity) :
  forall m, someAzure c ner m = (blocked c ner, fold_left removeKey (requests c ner) m).
Proof.
  induction ner as [|a rest IH]; intros m; [reflexivity|].
  rewrite blocked_cons. cbn [someAzure requests]. rewrite !IH.
  generalize (blocked c rest) as b. intros b.
  unfold priority.
  destruct (hasOverlap c a); cbn [andb orb negb]; [|reflexivity].
  destruct (streq (category c) Occupation);
  destruct (streq (category a) Organization) eqn:E1;
  destruct (streq (category c) DEBankCode);
  destruct (streq (category a) PhoneNumber) eqn:E2;
  destruct (streq (category a) InternationalBankingAccountNumber) eqn:E3;
  cbn [andb orb negb fold_left];
  try reflexivity;
  rewrite removeFound_key by assumption; reflexivity.
Qed.

(** ** [merged] before the sort, in closed form *)

Lemma priority_categories (c a : PIIEntity) :
  priority c a = true ->
  (category c = Occupation \/ category c = DEBankCode)
  /\ (category a = Organization \/ category a = PhoneNumber
      \/ category a = InternationalBankingAccountNumber).
Proof.
  unfold priority. intros H.
  repeat (apply orb_true_iff in H as [H|H]);
    apply andb_true_iff in H as [Hc Ha];
    apply streq_eq in Hc; apply streq_eq in Ha; rewrite Hc, Ha; tauto.
Qed.

Lemma priority_needs_pattern_category (q a c : PIIEntity) :
  priority c a = true -> category q = category a -> priority q a = false.
Proof.
  intros Hca Hq. apply priority_categories in Hca as [_ Ha].
  unfold priority. rewrite Hq.
  destruct Ha as [Ha|[Ha|Ha]]; rewrite Ha; reflexivity.
Qed.

Lemma blocked_false (q : PIIEntity) (ner : list PIIEntity) :
  blocked q ner = false ->
  forall a, In a ner -> hasOverlap q a = true -> priority q a = true.
Proof.
  unfold blocked. intros H a Ha Hov.
  destruct (priority q a) eqn:Hp; [reflexivity|].
  assert (existsb (fun a => hasOverlap q a && negb (priority q a)) ner = true).
  { apply existsb_exists. exists a. rewrite Hov, Hp. auto. }
  congruence.
Qed.

Lemma sameKey_spec (a e : PIIEntity) :
  sameKey a e = true <->
  offset e = offset a /\ length e = length a /\ category e = category a.
Proof.
  unfold sameKey, sameSpanCategory.
  rewrite !andb_true_iff, !Z.eqb_eq, streq_eq. tauto.
Qed.

Lemma sameKey_refl (a : PIIEntity) : sameKey a a = true.
Proof. apply sameKey_spec. auto. Qed.

Lemma sameKey_hasOverlap (c a e : PIIEntity) :
  sameKey a e = true -> hasOverlap c e = hasOverlap c a.
Proof.
  intros H. apply sameKey_spec in H as (Ho & Hl & _).
  unfold hasOverlap. now rewrite Ho, Hl.
Qed.

Lemma sameKey_priority (c a e : PIIEntity) :
  sameKey a e = true -> priority c e = priority c a.
Proof.
  intros H. apply sameKey_spec in H as (_ & _ & Hc).
  unfold priority. now rewrite Hc.
Qed.

(** An admitted pattern entity never has the span and category of a NER
    entity that a priority branch looks for. *)
Lemma admitted_not_sameKey (ner : list PIIEntity) (c a q : PIIEntity) :
  In a ner -> 0 < length a -> priority c a = true ->
  blocked q ner = false -> sameKey a q = false.
Proof.
  intros Ha Hlen Hp Hq.
  destruct (sameKey a q) eqn:Hk; [|reflexivity].
  apply sameKey_spec in Hk as (Ho & Hl & Hc).
  assert (Hov : hasOverlap q a = true).
  { unfold hasOverlap. rewrite Ho, Hl.
    apply andb_true_iff. split; [apply Z.ltb_lt | apply Z.gtb_lt]; lia. }
  pose proof (blocked_false q ner Hq a Ha Hov) as Hqa.
  rewrite (priority_needs_pattern_category q a c Hp Hc) in Hqa. discriminate.
Qed.

Lemma requests_spec (c : PIIEntity) (ner : list PIIEntity) (a : PIIEntity) :
  In a (requests c ner) ->
  In a ner /\ hasOverlap c a = true /\ priority c a = true.
Proof.
  induction ner as [|x rest IH]; simpl; [tauto|].
  destruct (hasOverlap c x) eqn:Hov; simpl.
  - destruct (priority c x) eqn:Hp; simpl; [|tauto].
    intros [<-|H]; [auto|]. destruct (IH H) as (? & ? & ?); auto.
  - intros H. destruct (IH H) as (? & ? & ?); auto.
Qed.

Lemma removeFirst_app_nomatch {A} (f : A -> bool) (N P : list A) :
  Forall (fun x => f x = false) P ->
  removeFirst f (N ++ P) = removeFirst f N ++ P.
Proof.
  intros HP. induction N as [|x N IH]; simpl.
  - induction HP as [|y P Hy _ IHP]; simpl; [reflexivity|].
    rewrite Hy. now rewrite IHP.
  - destruct (f x); [reflexivity|]. now rewrite IH.
Qed.

Lemma fold_removeKey_app (R N P : list PIIEntity) :
  (forall a q, In a R -> In q P -> sameKey a q = false) ->
  fold_left removeKey R (N ++ P) = fold_left removeKey R N ++ P.
Proof.
  revert N. induction R as [|a R IH]; intros N H; simpl; [reflexivity|].
  unfold removeKey at 2. rewrite removeFirst_app_nomatch.
  - apply IH. intros; apply H; simpl; auto.
  - apply Forall_forall. intros q Hq. apply H; simpl; auto.
Qed.

Lemma mergeLoop_from (ner : list PIIEntity) :
  positiveLengths ner ->
  forall pats N P,
    Forall (fun q => blocked q ner = false) P ->
    fold_left (mergeStep ner) pats (N ++ P)
    = fold_left removeKey (flat_map (fun c => requests c ner) pats) N
      ++ (P ++ admitted ner pats).
Proof.
  intros Hpos. induction pats as [|c pats IH]; intros N P HP.
  - simpl. now rewrite app_nil_r.
  - cbn [fold_left flat_map]. rewrite fold_left_app.
    unfold mergeStep at 2. rewrite someAzure_spec.
    rewrite fold_removeKey_app.
    + unfold admitted in *. cbn [filter].
      destruct (blocked c ner) eqn:Hb; cbn [negb].
      * apply IH, HP.
      * rewrite <- app_assoc. rewrite IH.
        -- now rewrite <- app_assoc.
        -- apply Forall_app. split; [exact HP|]. constructor; auto.
    + intros a q Ha Hq. apply requests_spec in Ha as (Ha & _ & Hp).
      eapply admitted_not_sameKey; eauto.
      * unfold positiveLengths in Hpos. rewrite Forall_forall in Hpos. auto.
      * rewrite Forall_forall in HP. auto.
Qed.

Lemma mergeLoop_closed_form (ner pats : list PIIEntity) :
  positiveLengths ner ->
  mergeLoop ner pats = survivors ner pats ++ admitted ner pats.
Proof.
  intros Hpos. unfold mergeLoop, survivors.
  rewrite <- (app_nil_r ner) at 2.
  rewrite (mergeLoop_from ner Hpos pats ner []); [|constructor].
  reflexivity.
Qed.

(** ** The stable sort *)

Section SortFacts.
Context {A : Type} (key : A -> Z).

Let le_key (a b : A) : Prop := key a <= key b.

Lemma insertByKey_perm (x : A) (l : list A) :
  Permutation (insertByKey key x l) (x :: l).
Proof.
  induction l as [|y l IH]; simpl; [reflexivity|].
  destruct (key x <=? key y); [reflexivity|].
  rewrite IH. apply perm_swap.
Qed.

Lemma sortByKey_perm (l : list A) : Permutation (sortByKey key l) l.
Proof.
  induction l as [|x l IH]; simpl; [reflexivity|].
  rewrite insertByKey_perm. now constructor.
Qed.

Lemma insertByKey_sorted (x : A) (l : list A) :
  StronglySorted le_key l -> StronglySorted le_key (insertByKey key x l).
Proof.
  induction 1 as [|y l Hs IH Hy]; simpl.
  - constructor; constructor.
  - destruct (key x <=? key y) eqn:E.
    + apply Z.leb_le in E. constructor; [now constructor|].
      constructor; [exact E|].
      eapply Forall_impl; [|exact Hy]. unfold le_key. intros; lia.
    + apply Z.leb_gt in E. constructor; [exact IH|].
      rewrite Forall_forall in *. intros z Hz.
      apply (Permutation_in _ (insertByKey_perm x l)) in Hz.
      destruct Hz as [<-|Hz]; [unfold le_key; lia | auto].
Qed.

Lemma sortByKey_sorted (l : list A) : StronglySorted le_key (sortByKey key l).
Proof.
  induction l as [|x l IH]; simpl; [constructor|].
  now apply insertByKey_sorted.
Qed.

(** The sort leaves a sorted array as it is: elements with equal keys
    are not reordered. *)
Lemma sortByKey_sorted_id (l : list A) :
  StronglySorted le_key l -> sortByKey key l = l.
Proof.
  induction 1 as [|x l Hs IH Hx]; simpl; [reflexivity|].
  rewrite IH. destruct l as [|y l]; [reflexivity|]. simpl.
  inversion Hx as [|? ? Hxy _]; subst.
  apply Z.leb_le in Hxy. now rewrite Hxy.
Qed.

(** Two sorted arrangements of the same elements coincide when no two
    elements share a key. *)
Lemma sorted_perm_unique (l1 l2 : list A) :
  StronglySorted le_key l1 -> StronglySorted le_key l2 ->
  Permutation l1 l2 -> NoDup (map key l1) -> l1 = l2.
Proof.
  revert l2. induction l1 as [|x l1 IH]; intros l2 H1 H2 HP HN.
  - apply Permutation_nil in HP. now subst.
  - destruct l2 as [|y l2].
    { apply Permutation_sym, Permutation_nil in HP. discriminate. }
    inversion H1 as [|? ? H1' Hx]; subst.
    inversion H2 as [|? ? H2' Hy]; subst.
    inversion HN as [|? ? Hnx HN']; subst.
    assert (Hxy : x = y).
    { assert (Hin1 : In x (y :: l2))
        by (eapply Permutation_in; [exact HP | now left]).
      assert (Hin2 : In y (x :: l1))
        by (eapply Permutation_in; [symmetry; exact HP | now left]).
      destruct Hin1 as [->|Hin1]; [reflexivity|].
      destruct Hin2 as [->|Hin2]; [reflexivity|].
      rewrite Forall_forall in Hx, Hy.
      pose proof (Hx _ Hin2) as Ha. pose proof (Hy _ Hin1) as Hb.
      unfold le_key in Ha, Hb.
      exfalso. apply Hnx. replace (key x) with (key y) by lia.
      now apply in_map. }
    subst y. f_equal. apply IH; auto.
    eapply Permutation_cons_inv; exact HP.
Qed.
End SortFacts.

(** ** Removal requests commute *)

Lemma sameKey_trans (a b x : PIIEntity) :
  sameKey a x = true -> sameKey b x = true -> forall e, sameKey a e = sameKey b e.
Proof.
  intros Ha Hb e. apply sameKey_spec in Ha as (Ho & Hl & Hc).
  apply sameKey_spec in Hb as (Ho' & Hl' & Hc').
  unfold sameKey, sameSpanCategory.
  now rewrite <- Ho, <- Hl, <- Hc, Ho', Hl', Hc'.
Qed.

Lemma removeFirst_ext {A} (f g : A -> bool) (l : list A) :
  (forall x, f x = g x) -> removeFirst f l = removeFirst g l.
Proof.
  intros H. induction l as [|x l IH]; simpl; [reflexivity|].
  rewrite H, IH. reflexivity.
Qed.

Lemma removeKey_comm (m : list PIIEntity) (a b : PIIEntity) :
  removeKey (removeKey m a) b = removeKey (removeKey m b) a.
Proof.
  unfold removeKey. induction m as [|x m IH]; simpl; [reflexivity|].
  destruct (sameKey a x) eqn:Ea; destruct (sameKey b x) eqn:Eb; simpl;
    rewrite ?Ea, ?Eb; try reflexivity.
  - apply removeFirst_ext. intros e. symmetry. eapply sameKey_trans; eauto.
  - now rewrite IH.
Qed.

Lemma fold_removeKey_perm (R R' : list PIIEntity) :
  Permutation R R' ->
  forall m, fold_left removeKey R m = fold_left removeKey R' m.
Proof.
  induction 1 as [|a R R' _ IH|a b R|R R' R'' _ IH1 _ IH2]; intros m; simpl.
  - reflexivity.
  - apply IH.
  - now rewrite removeKey_comm.
  - now rewrite IH1, IH2.
Qed.

Lemma filter_perm {A} (f : A -> bool) (l l' : list A) :
  Permutation l l' -> Permutation (filter f l) (filter f l').
Proof.
  induction 1 as [|x l l' _ IH|x y l|l l' l'' _ IH1 _ IH2]; simpl.
  - reflexivity.
  - destruct (f x); [now constructor | exact IH].
  - destruct (f x), (f y); try reflexivity. apply perm_swap.
  - now rewrite IH1.
Qed.

Lemma survivors_perm (ner pats pats' : list PIIEntity) :
  Permutation pats pats' -> survivors ner pats = survivors ner pats'.
Proof.
  intros H. unfold survivors. apply fold_removeKey_perm.
  now apply Permutation_flat_map.
Qed.

(** ** Counting the entities of one span and category *)

Lemma sameKey_sym_fun (a b : PIIEntity) :
  sameKey a b = true -> forall e, sameKey a e = sameKey b e.
Proof. intros H e. eapply sameKey_trans; eauto using sameKey_refl. Qed.

Lemma countKey_cons (a b : PIIEntity) (l : list PIIEntity) :
  countKey a (b :: l)
  = if sameKey a b then S (countKey a l) else countKey a l.
Proof. unfold countKey. simpl. now destruct (sameKey a b). Qed.

Lemma countKey_removeKey (a b : PIIEntity) (l : list PIIEntity) :
  countKey a (removeKey l b)
  = if sameKey a b then pred (countKey a l) else countKey a l.
Proof.
  unfold countKey, removeKey. induction l as [|x l IH]; simpl.
  - now destruct (sameKey a b).
  - destruct (sameKey b x) eqn:Eb.
    + destruct (sameKey a b) eqn:Eab.
      * rewrite (sameKey_sym_fun a b Eab x), Eb. reflexivity.
      * destruct (sameKey a x) eqn:Eax; [|reflexivity].
        rewrite (sameKey_trans a b x Eax Eb b), sameKey_refl in Eab.
        discriminate.
    + simpl. destruct (sameKey a x) eqn:Eax; simpl; rewrite IH.
      * destruct (sameKey a b) eqn:Eab; [|reflexivity].
        rewrite (sameKey_sym_fun a b Eab x), Eb in Eax. discriminate.
      * reflexivity.
Qed.

Lemma countKey_fold (a : PIIEntity) (R : list PIIEntity) :
  forall N, countKey a (fold_left removeKey R N)
            = (countKey a N - countKey a R)%nat.
Proof.
  induction R as [|b R IH]; intros N; simpl.
  - change (countKey a []) with O. lia.
  - rewrite IH, countKey_removeKey, countKey_cons.
    destruct (sameKey a b); lia.
Qed.

Lemma countKey_app (a : PIIEntity) (l l' : list PIIEntity) :
  countKey a (l ++ l') = (countKey a l + countKey a l')%nat.
Proof. unfold countKey. now rewrite filter_app, length_app. Qed.

Lemma countKey_flat_map (a p : PIIEntity) (f : PIIEntity -> list PIIEntity)
    (pats : list PIIEntity) :
  In p pats -> (countKey a (f p) <= countKey a (flat_map f pats))%nat.
Proof.
  induction pats as [|c pats IH]; simpl; [tauto|].
  rewrite countKey_app. intros [->|H]; [lia|]. specialize (IH H). lia.
Qed.

Lemma countKey_zero (a : PIIEntity) (l : list PIIEntity) :
  countKey a l = O -> forall e, In e l -> sameKey a e = false.
Proof.
  unfold countKey. intros H e He.
  destruct (sameKey a e) eqn:E; [|reflexivity].
  assert (Hin : In e (filter (sameKey a) l)) by (apply filter_In; auto).
  destruct (filter (sameKey a) l); [contradiction | discriminate].
Qed.

(** An admitted pattern entity asks for the removal of every NER entity
    with the span and category of a NER entity it overlaps. *)
Lemma countKey_requests (c a : PIIEntity) (ner : list PIIEntity) :
  blocked c ner = false -> hasOverlap c a = true -> priority c a = true ->
  countKey a (requests c ner) = countKey a ner.
Proof.
  intros Hb Hov Hp. induction ner as [|x rest IH]; [reflexivity|].
  rewrite blocked_cons in Hb. apply orb_false_iff in Hb as [Hx Hb].
  specialize (IH Hb). cbn [requests].
  destruct (hasOverlap c x) eqn:Ex; cbn [andb] in *.
  - destruct (priority c x); [|discriminate]. unfold countKey in *. simpl.
    destruct (sameKey a x); simpl; now rewrite IH.
  - rewrite IH. unfold countKey. simpl.
    destruct (sameKey a x) eqn:Eax; [|reflexivity].
    rewrite (sameKey_hasOverlap c a x Eax), Hov in Ex. discriminate.
Qed.

Lemma removeFirst_incl {A} (f : A -> bool) (l : list A) :
  incl (removeFirst f l) l.
Proof.
  induction l as [|x l IH]; simpl; [easy|].
  destruct (f x).
  - now apply incl_tl.
  - intros y [<-|Hy]; [now left | right; now apply IH].
Qed.

Lemma fold_removeKey_incl (R : list PIIEntity) :
  forall N, incl (fold_left removeKey R N) N.
Proof.
  induction R as [|a R IH]; intros N; simpl.
  - apply incl_refl.
  - eapply incl_tran; [apply IH|]. apply removeFirst_incl.
Qed.

Lemma survivors_incl (ner pats : list PIIEntity) : incl (survivors ner pats) ner.
Proof. apply fold_removeKey_incl. Qed.

Lemma admitted_spec (ner pats : list PIIEntity) (p : PIIEntity) :
  In p (admitted ner pats) <-> In p pats /\ blocked p ner = false.
Proof.
  unfold admitted. rewrite filter_In, negb_true_iff. tauto.
Qed.

(** No NER entity that an admitted pattern entity overlaps survives. *)
Lemma survivors_no_overlap (ner pats : list PIIEntity) (p a : PIIEntity) :
  In p (admitted ner pats) -> In a (survivors ner pats) ->
  hasOverlap p a = false.
Proof.
  intros Hp Ha. apply admitted_spec in Hp as [Hp Hb].
  destruct (hasOverlap p a) eqn:Hov; [exfalso|reflexivity].
  pose proof (blocked_false p ner Hb a (survivors_incl _ _ _ Ha) Hov) as Hpr.
  assert (Hz : countKey a (survivors ner pats) = O).
  { unfold survivors. rewrite countKey_fold.
    pose proof (countKey_flat_map a p (fun c => requests c ner) pats Hp) as H.
    simpl in H. rewrite (countKey_requests p a ner Hb Hov Hpr) in H. lia. }
  pose proof (countKey_zero a _ Hz a Ha) as H.
  rewrite sameKey_refl in H. discriminate.
Qed.

(** ** EntityMerger: priority, overlaps and order *)

Lemma mergeEntities_perm_loop (ner pats : list PIIEntity) :
  Permutation (mergeEntities ner pats) (mergeLoop ner pats).
Proof. apply sortByKey_perm. Qed.

Lemma mergeEntities_In (ner pats : list PIIEntity) (e : PIIEntity) :
  positiveLengths ner ->
  In e (mergeEntities ner pats)
  <-> In e (survivors ner pats) \/ In e (admitted ner pats).
Proof.
  intros Hpos. rewrite <- in_app_iff, <- mergeLoop_closed_form by assumption.
  split; apply Permutation_in;
    [|symmetry]; apply mergeEntities_perm_loop.
Qed.


(** With the Person first, [some] stops before the Organization is seen:
    nothing is removed and nothing is admitted. *)
Example mergeEntities_person_first :
  mergeEntities [personMeier; orgPraxis] [occArzt] = [orgPraxis; personMeier].
Proof. reflexivity. Qed.



(** C2, as stated, fails: entities of one source that overlap are all
    kept.  The three date-of-birth patterns emit the same span; the three
    entities are in the merged list. *)
Lemma C2_counterexample :
  In dobLabelled [dobLabelled; dobFallback; dobTable]
  /\ In dobFallback [dobLabelled; dobFallback; dobTable]
  /\ dobLabelled <> dobFallback
  /\ hasOverlap dobLabelled dobFallback = true
  /\ mergeEntities [] [dobLabelled; dobFallback; dobTable]
     = [dobLabelled; dobFallback; dobTable].
Proof.
  split; [simpl; now auto|]. split; [simpl; now auto|].
  split; [intros H; discriminate H|]. split; reflexivity.
Qed.

Lemma removeFirst_keeps {A} (f : A -> bool) (l : list A) (x : A) :
  In x l -> f x = false -> In x (removeFirst f l).
Proof.
  intros Hin Hx. induction l as [|y l IH]; simpl; [contradiction|].
  destruct Hin as [->|Hin].
  - rewrite Hx. now left.
  - destruct (f y); [exact Hin | right; auto].
Qed.

Lemma mergeStep_spec (ner m : list PIIEntity) (c : PIIEntity) :
  mergeStep ner m c
  = fold_left removeKey (requests c ner) m
    ++ (if blocked c ner then [] else [c]).
Proof.
  unfold mergeStep. rewrite someAzure_spec.
  destruct (blocked c ner); simpl; [now rewrite app_nil_r | reflexivity].
Qed.

(** A removal asked for on behalf of [c] cannot hit an entity that [c]
    does not overlap in a priority pair. *)
Lemma requests_miss (ner : list PIIEntity) (c n a : PIIEntity) :
  (hasOverlap c n = true -> priority c n = false) ->
  In a (requests c ner) -> sameKey a n = false.
Proof.
  intros Hn Ha. apply requests_spec in Ha as (_ & Hov & Hp).
  destruct (sameKey a n) eqn:Hk; [|reflexivity].
  rewrite <- (sameKey_hasOverlap c a n Hk) in Hov.
  rewrite <- (sameKey_priority c a n Hk) in Hp.
  rewrite (Hn Hov) in Hp. discriminate.
Qed.

Lemma fold_removeKey_keeps (n : PIIEntity) (R : list PIIEntity) :
  (forall a, In a R -> sameKey a n = false) ->
  forall m, In n m -> In n (fold_left removeKey R m).
Proof.
  induction R as [|a R IH]; intros HR m Hn; simpl; [exact Hn|].
  apply IH; [intros; apply HR; now right|].
  apply removeFirst_keeps; [exact Hn | apply HR; now left].
Qed.

(** Where a pattern entity overlaps no NER entity, [some] removes nothing
    and answers [false]. *)
Lemma requests_no_overlap (c : PIIEntity) (ner : list PIIEntity) :
  (forall a, In a ner -> hasOverlap c a = false) ->
  requests c ner = [] /\ blocked c ner = false.
Proof.
  unfold blocked. induction ner as [|a ner IH]; intros H; [split; reflexivity|].
  cbn [requests existsb]. rewrite (H a (or_introl eq_refl)). cbn [andb orb].
  apply IH. intros b Hb. apply H. now right.
Qed.

Lemma mergeLoop_no_overlap (ner pats : list PIIEntity) :
  (forall p a, In p pats -> In a ner -> hasOverlap p a = false) ->
  mergeLoop ner pats = ner ++ pats.
Proof.
  unfold mergeLoop. intros H.
  assert (G : forall m, fold_left (mergeStep ner) pats m = m ++ pats).
  { induction pats as [|c pats IH]; intros m; cbn [fold_left];
      [now rewrite app_nil_r|].
    rewrite mergeStep_spec.
    destruct (requests_no_overlap c ner
                (fun a Ha => H c a (or_introl eq_refl) Ha)) as [-> ->].
    cbn [fold_left]. rewrite IH by (intros p a Hp; apply H; now right).
    now rewrite <- app_assoc. }
  apply G.
Qed.

(** C2 (amended): the merged list is sorted ascending by offset, and the
    overlaps inside a source are not resolved.  Where no pattern entity
    overlaps a NER entity, the merged list is all the entities of the two
    lists, sorted, whatever overlaps each list has in itself.  In
    general, for NER entities of positive length, a pattern entity that
    overlaps no NER entity is in the merged list, and so is a NER entity
    that no pattern entity overlaps in a priority pair. *)
Theorem C2_sorted_same_source_kept (ner pats : list PIIEntity) :
  StronglySorted byOffset (mergeEntities ner pats)
  /\ ((forall p a, In p pats -> In a ner -> hasOverlap p a = false) ->
      mergeEntities ner pats = sortByKey offset (ner ++ pats))
  /\ (positiveLengths ner ->
      forall p, In p pats ->
                (forall a, In a ner -> hasOverlap p a = false) ->
                In p (mergeEntities ner pats))
  /\ (forall a, In a ner ->
                (forall p, In p pats -> hasOverlap p a = true ->
                           priority p a = false) ->
                In a (mergeEntities ner pats)).
Proof.
  split; [apply (sortByKey_sorted offset)|]. split; [|split].
  - intros H. unfold mergeEntities. now rewrite mergeLoop_no_overlap.
  - intros Hpos p Hp Hfree. apply mergeEntities_In; [exact Hpos|]. right.
    apply admitted_spec. split; [exact Hp|].
    now destruct (requests_no_overlap p ner Hfree).
  - intros a Ha Hp.
    apply (Permutation_in _ (Permutation_sym (mergeEntities_perm_loop ner pats))).
    unfold mergeLoop.
    assert (G : forall m, In a m -> In a (fold_left (mergeStep ner) pats m)).
    { revert Hp. induction pats as [|c pats IH]; intros Hp m Hm; simpl;
        [exact Hm|].
      apply IH; [intros p Hin; apply Hp; now right|].
      rewrite mergeStep_spec. apply in_or_app. left.
      apply fold_removeKey_keeps; [|exact Hm].
      intros b Hb. eapply requests_miss; eauto. apply Hp. now left. }
    exact (G ner Ha).
Qed.

Lemma C2_witness :
  StronglySorted byOffset
    (mergeEntities [orgPraxis] [dobLabelled; dobFallback; dobTable])
  /\ mergeEntities [orgPraxis] [dobLabelled; dobFallback; dobTable]
     = sortByKey offset ([orgPraxis] ++ [dobLabelled; dobFallback; dobTable])
  /\ In dobFallback
        (mergeEntities [orgPraxis] [dobLabelled; dobFallback; dobTable])
  /\ In orgPraxis
        (mergeEntities [orgPraxis] [dobLabelled; dobFallback; dobTable]).
Proof.
  destruct (C2_sorted_same_source_kept
              [orgPraxis] [dobLabelled; dobFallback; dobTable])
    as (Hsorted & Hall & Hpattern & Hner).
  split; [exact Hsorted|]. split; [|split].
  - apply Hall. intros p a [<-|[<-|[<-|[]]]] [<-|[]]; reflexivity.
  - apply Hpattern.
    + repeat constructor.
    + right. now left.
    + intros a [<-|[]]. reflexivity.
  - apply Hner; [now left|].
    intros p [<-|[<-|[<-|[]]]] Hov; discriminate Hov.
Defined.

(** What the merge does resolve is the overlap across the two sources: the
    merged list consists of NER entities and of pattern entities no one of
    which overlaps one of these NER entities. *)
Lemma mergeEntities_cross_source (ner pats : list PIIEntity) :
  positiveLengths ner ->
  exists N P,
    Permutation (mergeEntities ner pats) (N ++ P)
    /\ incl N ner /\ incl P pats
    /\ forall a p, In a N -> In p P -> hasOverlap p a = false.
Proof.
  intros Hpos. exists (survivors ner pats), (admitted ner pats).
  repeat split.
  - rewrite <- mergeLoop_closed_form by assumption.
    apply mergeEntities_perm_loop.
  - apply survivors_incl.
  - intros p Hp. now apply admitted_spec in Hp.
  - intros a p Ha Hp. eapply survivors_no_overlap; eauto.
Qed.

(** [merge(ner, [])] is [ner] sorted by offset. *)
Lemma mergeEntities_no_patterns (ner : list PIIEntity) :
  mergeEntities ner [] = sortByKey offset ner.
Proof. reflexivity. Qed.

(** C3, as stated, fails: two pattern entities with one offset come out in
    the order in which they went in. *)
Lemma C3_counterexample :
  Permutation [dobLabelled; dobFallback] [dobFallback; dobLabelled]
  /\ mergeEntities [] [dobLabelled; dobFallback]
     <> mergeEntities [] [dobFallback; dobLabelled].
Proof.
  split; [apply perm_swap|]. intros H. discriminate H.
Qed.

(** C3 (amended): for NER entities of positive length, permuting the
    pattern list permutes the merged list (same entities, same
    multiplicities); the two merged lists are identical when no two merged
    entities share an offset. *)
Theorem C3_mergeEntities_permutation (ner pats pats' : list PIIEntity) :
  positiveLengths ner ->
  Permutation pats pats' ->
  Permutation (mergeEntities ner pats) (mergeEntities ner pats')
  /\ (NoDup (map offset (mergeEntities ner pats)) ->
      mergeEntities ner pats = mergeEntities ner pats').
Proof.
  intros Hpos HP.
  assert (H : Permutation (mergeEntities ner pats) (mergeEntities ner pats')).
  { rewrite !mergeEntities_perm_loop, !mergeLoop_closed_form by assumption.
    rewrite (survivors_perm ner pats pats' HP).
    apply Permutation_app_head. now apply filter_perm. }
  split; [exact H|].
  intros Hnd. eapply (sorted_perm_unique offset); eauto;
    apply (sortByKey_sorted offset).
Qed.

Lemma C3_witness :
  Permutation (mergeEntities [orgPraxis] [occArzt; dobLabelled])
              (mergeEntities [orgPraxis] [dobLabelled; occArzt])
  /\ (NoDup (map offset (mergeEntities [orgPraxis] [occArzt; dobLabelled])) ->
      mergeEntities [orgPraxis] [occArzt; dobLabelled]
      = mergeEntities [orgPraxis] [dobLabelled; occArzt]).
Proof.
  apply (C3_mergeEntities_permutation [orgPraxis]
           [occArzt; dobLabelled] [dobLabelled; occArzt]).
  - repeat constructor.
  - apply perm_swap.
Defined.

(** Why the lengths of the NER entities are taken positive: a pattern
    entity with the span and category of a NER entity of length 0 does
    not overlap it and is pushed; the index search of a later priority
    branch then finds the pattern entity in place of the NER entity
    already removed.  The merged entities then depend on the order of
    the patterns. *)
Example mergeEntities_zero_length_order :
  mergeEntities [emptyOrg] [emptyOrgPattern; occArztFirst; occArztAgain]
  = [occArztFirst; occArztAgain]
  /\ mergeEntities [emptyOrg] [occArztFirst; occArztAgain; emptyOrgPattern]
     = [occArztFirst; occArztAgain; emptyOrgPattern].
Proof. split; reflexivity. Qed.

(** ** NER collaborator: chunk failures *)

Section DetectPIIFacts.
Variable post : AnalysisInput -> Settled.

Lemma chunkTurn_app (lang text : jsstring) (o : Z) (acc : list PIIEntity) :
  chunkTurn post lang text o acc = acc ++ chunkContribution post lang text o.
Proof.
  unfold chunkContribution, chunkTurn.
  destruct (post _) as [data|msg]; [|now rewrite app_nil_r].
  destruct (firstDocumentEntities data); [reflexivity | now rewrite app_nil_r].
Qed.

Lemma chunkOffsetsFrom_S (start : Z) (count : nat) :
  chunkOffsetsFrom start (S count)
  = start :: chunkOffsetsFrom (start + CHUNK_SIZE) count.
Proof.
  unfold chunkOffsetsFrom. simpl. f_equal; [lia|].
  rewrite <- seq_shift, map_map. apply map_ext. intros i. lia.
Qed.

(** The loop ends by its guard: any fuel not below the number of chunks
    left gives the same array. *)
Lemma chunkLoop_closed_form (lang text : jsstring) (count : nat) :
  forall (fuel : nat) (o : Z) (acc : list PIIEntity),
    (count <= fuel)%nat ->
    count = chunkCount (strlen text - o) ->
    chunkLoop post lang text fuel o acc
    = acc ++ flat_map (chunkContribution post lang text)
                      (chunkOffsetsFrom o count).
Proof.
  unfold chunkCount, CHUNK_SIZE.
  induction count as [|count IH]; intros fuel o acc Hfuel Hcount.
  - assert (strlen text <= o).
    { destruct (Z_le_gt_dec (strlen text) o) as [H|H]; [exact H|].
      assert (1 <= (strlen text - o + 5000 - 1) / 5000)
        by (apply Z.div_le_lower_bound; lia).
      lia. }
    simpl. rewrite app_nil_r. destruct fuel; simpl; [reflexivity|].
    destruct (o <? strlen text) eqn:E; [apply Z.ltb_lt in E; lia | reflexivity].
  - destruct fuel as [|fuel]; [lia|].
    assert (Hlt : o < strlen text).
    { destruct (Z_lt_ge_dec o (strlen text)) as [H|H]; [exact H|].
      assert ((strlen text - o + 5000 - 1) / 5000 <= 0).
      { apply Z.lt_succ_r, Z.div_lt_upper_bound; lia. }
      lia. }
    cbn [chunkLoop]. apply Z.ltb_lt in Hlt. rewrite Hlt.
    rewrite chunkOffsetsFrom_S. cbn [flat_map].
    rewrite (IH fuel (o + CHUNK_SIZE)); unfold CHUNK_SIZE.
    + rewrite chunkTurn_app, <- app_assoc. reflexivity.
    + lia.
    + replace (strlen text - (o + 5000) + 5000 - 1)
        with ((strlen text - o + 5000 - 1) + (-1) * 5000) by lia.
      rewrite Z.div_add by lia. lia.
Qed.

Lemma chunkCount_le_length (text : jsstring) :
  (chunkCount (strlen text) <= List.length text)%nat.
Proof.
  unfold chunkCount, strlen, CHUNK_SIZE.
  assert ((Z.of_nat (List.length text) + 5000 - 1) / 5000
          <= Z.of_nat (List.length text)).
  { destruct text as [|c text]; [reflexivity|].
    apply Z.lt_succ_r, Z.div_lt_upper_bound; simpl List.length; lia. }
  lia.
Qed.

(** C4 (amended): for a text longer than [CHUNK_SIZE], [detectPII]
    returns (it does not throw), and what it returns is, chunk after
    chunk, the offset-adjusted entities of the chunks whose request
    succeeded; a chunk whose request failed contributes nothing. *)
Theorem C4_chunk_failure_is_skipped (text lang : jsstring) :
  CHUNK_SIZE < strlen text ->
  detectPII post text lang
  = Returns (flat_map (chunkContribution post lang text)
                      (chunkOffsetsFrom 0 (chunkCount (strlen text)))).
Proof.
  intros Hlong. unfold detectPII.
  destruct (strlen text <=? CHUNK_SIZE) eqn:E; [apply Z.leb_le in E; lia|].
  f_equal.
  rewrite (chunkLoop_closed_form lang text (chunkCount (strlen text))).
  - reflexivity.
  - apply chunkCount_le_length.
  - f_equal. lia.
Qed.

(** The contribution of a chunk whose request is rejected is empty, and
    that of a chunk whose request succeeds is its entities, shifted. *)
Lemma chunkContribution_rejected (text lang : jsstring) (o : Z) (message : jsstring) :
  post (chunkInput lang text o) = Rejected message ->
  chunkContribution post lang text o = [].
Proof. unfold chunkContribution. now intros ->. Qed.

Lemma chunkContribution_resolved (text lang : jsstring) (o : Z)
    (found : list PIIEntity) :
  post (chunkInput lang text o)
  = Resolved (mkResponse (Some [mkDocument (Some found)])) ->
  chunkContribution post lang text o = map (adjustOffset o) found.
Proof. unfold chunkContribution. now intros ->. Qed.

(** A text sent as a single request: a rejected request is rethrown. *)
Lemma detectPII_single_request_throws (text lang message : jsstring) :
  strlen text <= CHUNK_SIZE ->
  post (mkInput (utf16 "1") lang text) = Rejected message ->
  detectPII post text lang
  = Throws (utf16 "Azure PII Detection failed: " ++ message).
Proof.
  intros Hshort Hpost. unfold detectPII.
  apply Z.leb_le in Hshort. now rewrite Hshort, Hpost.
Qed.
End DetectPIIFacts.

(** C4, as stated, fails for a text that fits one request: the failure of
    that request makes [detectPII] throw. *)
Lemma C4_counterexample :
  strlen (utf16 "Max Mustermann, Arzt") <= CHUNK_SIZE
  /\ detectPII (failingOn (utf16 "1")) (utf16 "Max Mustermann, Arzt") (utf16 "de")
     = Throws (utf16 "Azure PII Detection failed: Request failed with status code 429").
Proof. split; [vm_compute; discriminate | vm_compute; reflexivity]. Qed.

Lemma C4_witness :
  detectPII (failingOn (utf16 "chunk-2")) longText (utf16 "de")
  = Returns (flat_map (chunkContribution (failingOn (utf16 "chunk-2")) (utf16 "de") longText)
                      (chunkOffsetsFrom 0 (chunkCount (strlen longText)))).
Proof.
  apply (C4_chunk_failure_is_skipped (failingOn (utf16 "chunk-2")) longText (utf16 "de")).
  vm_compute. reflexivity.
Defined.

(** On [longText] (three chunks) with the second request failing, the
    entities of the first and third chunk are returned. *)
Example detectPII_second_chunk_fails :
  detectPII (failingOn (utf16 "chunk-2")) longText (utf16 "de")
  = Returns [mkEntity (utf16 "Max") (utf16 "Person") 3 3 0.9;
             mkEntity (utf16 "Max") (utf16 "Person") 10003 3 0.9].
Proof. vm_compute. reflexivity. Qed.

(** ** Geometry *)

Lemma Qltb_lt (a b : Q) : Qltb a b = true <-> (a < b)%Q.
Proof.
  unfold Qltb. rewrite negb_true_iff, <- not_true_iff_false, Qle_bool_iff.
  split; [apply Qnot_le_lt | apply Qlt_not_le].
Qed.

Lemma toPoints_scale (u : PageUnit) (v : Q) :
  (toPoints u v == pointsPerUnit u * v)%Q.
Proof. destruct u; simpl; ring. Qed.

Lemma pointsPerUnit_pos (u : PageUnit) : (0 < pointsPerUnit u)%Q.
Proof. destruct u; reflexivity. Qed.

Lemma toPoints_nonneg (u : PageUnit) (v : Q) : (0 <= v -> 0 <= toPoints u v)%Q.
Proof. destruct u; simpl; intros; lra. Qed.

Lemma toPoints_pos (u : PageUnit) (v : Q) : (0 < v -> 0 < toPoints u v)%Q.
Proof. destruct u; simpl; intros; lra. Qed.

Lemma toPoints_lt (u : PageUnit) (a b : Q) :
  (a < b -> 0 < toPoints u b - toPoints u a)%Q.
Proof. destruct u; simpl; intros; lra. Qed.

Lemma min4_le (a b c d : Q) :
  (min4 a b c d <= a /\ min4 a b c d <= b
   /\ min4 a b c d <= c /\ min4 a b c d <= d)%Q.
Proof.
  unfold min4.
  pose proof (Q.le_min_l a b). pose proof (Q.le_min_r a b).
  pose proof (Q.le_min_l (Qmin a b) c). pose proof (Q.le_min_r (Qmin a b) c).
  pose proof (Q.le_min_l (Qmin (Qmin a b) c) d).
  pose proof (Q.le_min_r (Qmin (Qmin a b) c) d).
  repeat split; lra.
Qed.

Lemma max4_ge (a b c d : Q) :
  (a <= max4 a b c d /\ b <= max4 a b c d
   /\ c <= max4 a b c d /\ d <= max4 a b c d)%Q.
Proof.
  unfold max4.
  pose proof (Q.le_max_l a b). pose proof (Q.le_max_r a b).
  pose proof (Q.le_max_l (Qmax a b) c). pose proof (Q.le_max_r (Qmax a b) c).
  pose proof (Q.le_max_l (Qmax (Qmax a b) c) d).
  pose proof (Q.le_max_r (Qmax (Qmax a b) c) d).
  repeat split; lra.
Qed.

(** The extent left after the clamped padding is positive as soon as the
    larger bound is not negative. *)
Lemma clamped_extent_pos (lo hi pad : Q) :
  (lo <= hi -> 0 <= hi -> 0 < pad -> Qmax 0 (lo - pad) < hi + pad)%Q.
Proof.
  intros H1 H2 H3.
  destruct (Q.max_spec 0 (lo - pad)) as [[_ E]|[_ E]]; rewrite E; lra.
Qed.

Lemma fold_min_le (l : list Q) : forall init, (fold_left Qmin l init <= init)%Q.
Proof.
  induction l as [|a l IH]; intros init; simpl; [lra|].
  pose proof (IH (Qmin init a)). pose proof (Q.le_min_l init a). lra.
Qed.

Lemma fold_max_ge (l : list Q) : forall init, (init <= fold_left Qmax l init)%Q.
Proof.
  induction l as [|a l IH]; intros init; simpl; [lra|].
  pose proof (IH (Qmax init a)). pose proof (Q.le_max_l init a). lra.
Qed.

(** ** Where the words of a region come from *)

Lemma combine_seq_In {A} (arr : list A) (i : nat) (v : A) :
  forall start,
    In (i, v) (combine (seq start (List.length arr)) arr)
    <-> (start <= i)%nat /\ nth_error arr (i - start) = Some v.
Proof.
  induction arr as [|a arr IH]; intros start; simpl.
  - split; [tauto|]. intros [_ H]. destruct (i - start)%nat; discriminate.
  - rewrite IH. split.
    + intros [H|[H1 H2]].
      * injection H as <- <-. rewrite Nat.sub_diag. auto.
      * split; [lia|]. replace (i - start)%nat with (S (i - S start)) by lia.
        exact H2.
    + intros [H1 H2]. destruct (Nat.eq_dec start i) as [->|Hne].
      * rewrite Nat.sub_diag in H2. left. simpl in H2. congruence.
      * right. split; [lia|].
        replace (i - start)%nat with (S (i - S start)) in H2 by lia.
        exact H2.
Qed.

Lemma indexed_In {A} (arr : list A) (i : nat) (v : A) :
  In (i, v) (indexed arr) <-> nth_error arr i = Some v.
Proof.
  unfold indexed. rewrite combine_seq_In, Nat.sub_0_r.
  split; [tauto | split; [lia | assumption]].
Qed.

Lemma collectWords_In (pages : list DocIntelPage) (w : DocIntelWord) (i : nat) :
  In (w, i) (collectWords pages)
  <-> exists page, nth_error pages i = Some page /\ In w (Page.words page).
Proof.
  unfold collectWords. rewrite in_flat_map. split.
  - intros ([j page] & Hin & Hw). apply indexed_In in Hin.
    apply in_map_iff in Hw as (w' & E & Hw'). injection E as -> ->.
    eauto.
  - intros (page & Hn & Hw). exists (i, page). split; [now apply indexed_In|].
    apply in_map_iff. eauto.
Qed.

(** The regions of [convertEntitiesToRedactionCoordinates] are the regions
    of the words of the pages that overlap an entity. *)
Lemma convert_In (entities : list PIIEntity) (doc : Doc.t) (r : RedactionCoordinate) :
  In r (convertEntitiesToRedactionCoordinates entities doc)
  <-> exists entity w i page,
        In entity entities
        /\ nth_error (Doc.pages doc) i = Some page
        /\ In w (Page.words page)
        /\ wordOverlaps w (offset entity) (offset entity + length entity) = true
        /\ r = wordRedaction page entity (w, i).
Proof.
  unfold convertEntitiesToRedactionCoordinates, relevantWords.
  rewrite in_flat_map. split.
  - intros (entity & He & H). apply in_flat_map in H as ([w i] & Hi & H).
    apply filter_In in Hi as [Hi Hov].
    apply (Permutation_in _ (sortByKey_perm _ _)) in Hi.
    apply collectWords_In in Hi as (page & Hn & Hw).
    simpl in H. rewrite Hn in H. destruct H as [<-|[]].
    exists entity, w, i, page. auto.
  - intros (entity & w & i & page & He & Hn & Hw & Hov & ->).
    exists entity. split; [exact He|]. apply in_flat_map.
    exists (w, i). split.
    + apply filter_In. split; [|exact Hov].
      apply (Permutation_in _ (Permutation_sym (sortByKey_perm _ _))).
      apply collectWords_In. eauto.
    + simpl. rewrite Hn. now left.
Qed.

(** C6, as stated, fails for a word whose box starts less than the padding
    away from the page origin: the region of the word with corners
    (0,0), (1,0), (1,1), (0,1) begins at 0, not at -0.02 * 72, and is
    72 + 0.02 * 72 wide, not 72 + 2 * 0.02 * 72. *)
Lemma C6_counterexample :
  exists r, convertEntitiesToRedactionCoordinates [personMax] cornerDoc = [r]
    /\ (Region.x r == 0 /\ Region.y r == 0
        /\ Region.width r == 72 + 0.02 * 72
        /\ Region.height r == 72 + 0.02 * 72)%Q
    /\ ~ (Region.x r == (0 - 0.02) * 72)%Q
    /\ ~ (Region.width r == (1 - 0 + 2 * 0.02) * 72)%Q.
Proof.
  eexists. split; [vm_compute; reflexivity|].
  repeat split; try reflexivity; intros H; discriminate H.
Qed.

(** C6 (amended): every word selected for an entity gives one region: the
    bounding box of the four corners, padded by 0.02 to the right and to
    the bottom and by 0.02 to the left and to the top but not past
    coordinate 0, in points when the page unit is inch (times 72) and as
    it is when the unit is pixel.  When the box starts at least 0.02 from
    both page edges, that is the box expanded by 0.02 on all four sides. *)
Theorem C6_word_region (entities : list PIIEntity) (doc : Doc.t)
    (entity : PIIEntity) (i : nat) (page : DocIntelPage) (w : DocIntelWord) :
  In entity entities ->
  nth_error (Doc.pages doc) i = Some page ->
  In w (Page.words page) ->
  wordOverlaps w (offset entity) (offset entity + length entity) = true ->
  let p := Word.polygon w in
  let minX := min4 (x1 p) (x2 p) (x3 p) (x4 p) in
  let maxX := max4 (x1 p) (x2 p) (x3 p) (x4 p) in
  let minY := min4 (y1 p) (y2 p) (y3 p) (y4 p) in
  let maxY := max4 (y1 p) (y2 p) (y3 p) (y4 p) in
  let k := pointsPerUnit (Page.unit page) in
  exists r,
    In r (convertEntitiesToRedactionCoordinates entities doc)
    /\ Region.pageIndex r = i
    /\ Region.text r = Some (text entity)
    /\ Region.category r = Some (category entity)
    /\ (Region.x r == k * Qmax 0 (minX - 0.02)
        /\ Region.y r == k * Qmax 0 (minY - 0.02)
        /\ Region.x r + Region.width r == k * (maxX + 0.02)
        /\ Region.y r + Region.height r == k * (maxY + 0.02))%Q
    /\ ((0.02 <= minX)%Q ->
        (Region.x r == k * (minX - 0.02)
         /\ Region.width r == k * (maxX - minX + 2 * 0.02))%Q)
    /\ ((0.02 <= minY)%Q ->
        (Region.y r == k * (minY - 0.02)
         /\ Region.height r == k * (maxY - minY + 2 * 0.02))%Q).
Proof.
  intros He Hn Hw Hov p minX maxX minY maxY k.
  exists (wordRedaction page entity (w, i)).
  split; [apply convert_In; exists entity, w, i, page; auto|].
  unfold wordRedaction, PADDING_INCH. cbn [Region.pageIndex Region.x Region.y
    Region.width Region.height Region.text Region.category fst snd].
  fold p. fold minX maxX minY maxY.
  rewrite !toPoints_scale. fold k.
  repeat split; try ring; intros;
    first [ rewrite (Q.max_r 0 (minX - 0.02)) by lra
          | rewrite (Q.max_r 0 (minY - 0.02)) by lra ];
    ring.
Qed.

(** The conversion example of the specification: corners (1,1), (2,1),
    (2,2), (1,2) on an inch page. *)
Lemma C6_witness :
  let p := Word.polygon wordMax in
  let minX := min4 (x1 p) (x2 p) (x3 p) (x4 p) in
  let maxX := max4 (x1 p) (x2 p) (x3 p) (x4 p) in
  let minY := min4 (y1 p) (y2 p) (y3 p) (y4 p) in
  let maxY := max4 (y1 p) (y2 p) (y3 p) (y4 p) in
  let k := pointsPerUnit (Page.unit inchPage) in
  exists r,
    In r (convertEntitiesToRedactionCoordinates [personMax] inchDoc)
    /\ Region.pageIndex r = 0%nat
    /\ Region.text r = Some (text personMax)
    /\ Region.category r = Some (category personMax)
    /\ (Region.x r == k * Qmax 0 (minX - 0.02)
        /\ Region.y r == k * Qmax 0 (minY - 0.02)
        /\ Region.x r + Region.width r == k * (maxX + 0.02)
        /\ Region.y r + Region.height r == k * (maxY + 0.02))%Q
    /\ ((0.02 <= minX)%Q ->
        (Region.x r == k * (minX - 0.02)
         /\ Region.width r == k * (maxX - minX + 2 * 0.02))%Q)
    /\ ((0.02 <= minY)%Q ->
        (Region.y r == k * (minY - 0.02)
         /\ Region.height r == k * (maxY - minY + 2 * 0.02))%Q).
Proof.
  apply (C6_word_region [personMax] inchDoc personMax 0%nat inchPage wordMax).
  - now left.
  - reflexivity.
  - now left.
  - reflexivity.
Defined.

Example unit_square_inch_region :
  exists r, convertEntitiesToRedactionCoordinates [personMax] inchDoc = [r]
    /\ (Region.x r == 72 - 0.02 * 72 /\ Region.y r == 72 - 0.02 * 72
        /\ Region.width r == 72 + 2 * 0.02 * 72
        /\ Region.height r == 72 + 2 * 0.02 * 72)%Q.
Proof.
  eexists. split; [vm_compute; reflexivity|]. repeat split; reflexivity.
Qed.

(** ** Regions of the primary signature pass *)

Lemma primary_In (doc : Doc.t) (r : RedactionCoordinate) :
  In r (primarySignaturePass doc) ->
  exists span, processSpan (Doc.content doc) (Doc.pages doc) span = Some r.
Proof.
  unfold primarySignaturePass. intros H.
  apply in_flat_map in H as (style & _ & H).
  apply in_flat_map in H as (span & _ & H).
  exists span. destruct (processSpan _ _ span) as [s|]; [|contradiction].
  destruct H as [->|[]]. reflexivity.
Qed.

Lemma processSpan_Some (content : jsstring) (pages : list DocIntelPage)
    (span : Span.t) (r : RedactionCoordinate) :
  processSpan content pages span = Some r ->
  exists first rest,
    matchingWords pages span = first :: rest
    /\ r = signatureRegion content span first (first :: rest).
Proof.
  unfold processSpan.
  destruct (strlen _ <? _); [discriminate|].
  destruct (isFormField content span); [discriminate|].
  destruct (matchingWords pages span) as [|first rest]; [discriminate|].
  destruct (negb _); [discriminate|].
  destruct (_ || _); [|discriminate].
  intros H. injection H as <-. eauto.
Qed.

(** A span without a word under it gives no region. *)
Lemma processSpan_no_words (content : jsstring) (pages : list DocIntelPage)
    (span : Span.t) :
  matchingWords pages span = [] -> processSpan content pages span = None.
Proof.
  intros H. unfold processSpan. rewrite H.
  destruct (strlen _ <? _); [reflexivity|].
  destruct (isFormField content span); reflexivity.
Qed.

Lemma matchingWords_In (pages : list DocIntelPage) (span : Span.t)
    (mw : MatchingWord) :
  In mw (matchingWords pages span) ->
  exists page, In page pages /\ In (word mw) (Page.words page).
Proof.
  unfold matchingWords. intros H.
  apply in_flat_map in H as ([i page] & Hp & H).
  apply in_flat_map in H as (w & Hw & H).
  destruct (wordOverlaps w _ _); [|contradiction].
  destruct H as [<-|[]]. exists page. split; [|exact Hw].
  apply indexed_In in Hp. eapply nth_error_In; eauto.
Qed.

(** C10: every region of the entity conversion and of the primary
    signature pass starts at non-negative coordinates (the clamp of the
    padded minimum at zero); when the polygons of the page words have
    non-negative coordinates, its width and height are positive. *)
Theorem C10_regions_start_in_page (entities : list PIIEntity) (doc : Doc.t)
    (r : RedactionCoordinate) :
  In r (convertEntitiesToRedactionCoordinates entities doc)
  \/ In r (primarySignaturePass doc) ->
  (0 <= Region.x r /\ 0 <= Region.y r)%Q
  /\ (nonNegativeCoordinates (Doc.pages doc) ->
      (0 < Region.width r /\ 0 < Region.height r)%Q).
Proof.
  intros [H|H].
  - apply convert_In in H as (entity & w & i & page & _ & Hn & Hw & _ & ->).
    unfold wordRedaction, PADDING_INCH. cbn [Region.x Region.y Region.width
      Region.height fst snd].
    set (p := Word.polygon w).
    split.
    + split; apply toPoints_nonneg, Q.le_max_l.
    + intros Hwf.
      destruct (Hwf page w (nth_error_In _ _ Hn) Hw)
        as (Hx1 & Hy1 & _). fold p in Hx1, Hy1.
      pose proof (min4_le (x1 p) (x2 p) (x3 p) (x4 p)) as (Hmx & _).
      pose proof (max4_ge (x1 p) (x2 p) (x3 p) (x4 p)) as (HMx & _).
      pose proof (min4_le (y1 p) (y2 p) (y3 p) (y4 p)) as (Hmy & _).
      pose proof (max4_ge (y1 p) (y2 p) (y3 p) (y4 p)) as (HMy & _).
      split; apply toPoints_pos.
      * pose proof (clamped_extent_pos
          (min4 (x1 p) (x2 p) (x3 p) (x4 p))
          (max4 (x1 p) (x2 p) (x3 p) (x4 p)) 0.02). lra.
      * pose proof (clamped_extent_pos
          (min4 (y1 p) (y2 p) (y3 p) (y4 p))
          (max4 (y1 p) (y2 p) (y3 p) (y4 p)) 0.02). lra.
  - apply primary_In in H as (span & H).
    apply processSpan_Some in H as (first & rest & Hm & ->).
    unfold signatureRegion. cbn [Region.x Region.y Region.width Region.height].
    set (p := Word.polygon (word first)).
    set (xs := flat_map _ _). set (ys := flat_map _ _).
    split.
    + split; apply toPoints_nonneg, Q.le_max_l.
    + intros Hwf.
      assert (Hin : In first (matchingWords (Doc.pages doc) span))
        by (rewrite Hm; now left).
      apply matchingWords_In in Hin as (page & Hp & Hw).
      destruct (Hwf page (word first) Hp Hw) as (Hx1 & Hy1 & _).
      fold p in Hx1, Hy1.
      pose proof (fold_min_le xs (x1 p)). pose proof (fold_max_ge xs (x1 p)).
      pose proof (fold_min_le ys (y1 p)). pose proof (fold_max_ge ys (y1 p)).
      split; apply toPoints_lt.
      * pose proof (clamped_extent_pos (fold_left Qmin xs (x1 p))
                      (fold_left Qmax xs (x1 p)) 0.05). lra.
      * pose proof (clamped_extent_pos (fold_left Qmin ys (y1 p))
                      (fold_left Qmax ys (y1 p)) 0.05). lra.
Qed.

Lemma C10_witness :
  (0 <= Region.x (wordRedaction cornerPage personMax (wordCorner, 0%nat))
   /\ 0 <= Region.y (wordRedaction cornerPage personMax (wordCorner, 0%nat)))%Q
  /\ (nonNegativeCoordinates (Doc.pages cornerDoc) ->
      (0 < Region.width (wordRedaction cornerPage personMax (wordCorner, 0%nat))
       /\ 0 < Region.height
               (wordRedaction cornerPage personMax (wordCorner, 0%nat)))%Q).
Proof.
  apply (C10_regions_start_in_page [personMax] cornerDoc).
  left. vm_compute. left. reflexivity.
Defined.

(** The padding that the clamp cuts off: the region of a word in the page
    corner starts at the corner, so there is no padding to its left and
    above it, while the padding to the right and below is there. *)
Example padding_truncated_at_origin :
  let r := wordRedaction cornerPage personMax (wordCorner, 0%nat) in
  (Region.x r == 0 /\ Region.y r == 0
   /\ Region.width r == (1 + 0.02) * 72 /\ Region.height r == (1 + 0.02) * 72)%Q.
Proof. repeat split; reflexivity. Qed.

Example nonNegativeCoordinates_cornerDoc :
  nonNegativeCoordinates (Doc.pages cornerDoc).
Proof.
  intros page w [<-|[]] [<-|[]]. unfold nonNegativePolygon. simpl.
  repeat split; discriminate.
Qed.

(** ** The acceptance rule of the primary pass *)




(** The text signal alone admits a short text: ["Max M."] with a label in
    the context window and a word under the span is accepted. *)
Lemma signature_near_label_accepted (content : jsstring)
    (pages : list DocIntelPage) (span : Span.t) :
  handwrittenText content span = utf16 "Max M." ->
  isNearSignatureLabel content span = true ->
  matchingWords pages span <> [] ->
  exists r, processSpan content pages span = Some r.
Proof.
  intros Htext Hnear Hwords. unfold processSpan, isFormField.
  rewrite Htext, Hnear.
  destruct (matchingWords pages span) as [|first rest]; [congruence|].
  vm_compute existsb. cbn. eauto.
Qed.

Example signature_Max_M_by_Unterschrift :
  exists r, primarySignaturePass signedDoc = [r]
    /\ (Region.x r == (2.5 - 0.05) * 72 /\ Region.y r == (9 - 0.05) * 72
        /\ Region.width r == (3.4 - 2.5 + 2 * 0.05) * 72
        /\ Region.height r == (9.2 - 9 + 2 * 0.05) * 72)%Q.
Proof.
  eexists. split; [vm_compute; reflexivity|]. repeat split; reflexivity.
Qed.

(** ["123"] is a form field whatever surrounds it. *)
Lemma digits_123_rejected (content : jsstring) (pages : list DocIntelPage)
    (span : Span.t) :
  handwrittenText content span = utf16 "123" ->
  processSpan content pages span = None.
Proof.
  intros Htext. unfold processSpan, isFormField. rewrite Htext.
  destruct (strlen _ <? _); [reflexivity|].
  vm_compute existsb. reflexivity.
Qed.

(** The spatial signal does not lower the length bound in the code: the
    first length filter, which knows the text signal only, has already
    dropped a two-character text when the spatial signal is computed. *)
Example two_characters_spatial_label_rejected :
  handwrittenText farLabelContent (Span.mk 0 2) = utf16 "Mk"
  /\ isNearSignatureLabel farLabelContent (Span.mk 0 2) = false
  /\ nearLabelSpatially [farLabelPage] (Span.mk 0 2) = true
  /\ acceptedAsSpecified farLabelContent [farLabelPage] (Span.mk 0 2) = true
  /\ processSpan farLabelContent [farLabelPage] (Span.mk 0 2) = None.
Proof. repeat split; vm_compute; reflexivity. Qed.

(** ** WhitelistFilter: normalisation *)

(** C5, as stated, fails: ["Muster Str."] keeps its space and normalises
    to two words. *)
Lemma C5_counterexample :
  normalizeText (utf16 "Muster Str.") = utf16 "muster strasse"
  /\ normalizeText (utf16 "Musterstraße") = utf16 "musterstrasse"
  /\ normalizeText (utf16 "Muster Str.") <> normalizeText (utf16 "Musterstraße").
Proof.
  split; [vm_compute; reflexivity|]. split; [vm_compute; reflexivity|].
  vm_compute. intros H. discriminate H.
Qed.

(** C5 (amended): ["Musterstraße"], ["Musterstrasse"] and the abbreviation
    written in one word, ["Musterstr."], normalise to the same string,
    ["musterstrasse"]; ["Muster Str."] normalises to ["muster strasse"]. *)
Theorem C5_normalizeText_street :
  normalizeText (utf16 "Musterstraße") = utf16 "musterstrasse"
  /\ normalizeText (utf16 "Musterstrasse") = utf16 "musterstrasse"
  /\ normalizeText (utf16 "Musterstr.") = utf16 "musterstrasse"
  /\ normalizeText (utf16 "Muster Str.") = utf16 "muster strasse".
Proof. repeat split; vm_compute; reflexivity. Qed.

(** The steps of the normalisation, each on an input that needs it. *)
Example normalizeText_steps :
  normalizeText (utf16 "  Hohe  STRASSE
12,  01069 Dresden ") = utf16 "hohe strasse 12 01069 dresden"
  /\ normalizeText (utf16 "Köln-Süd, Äußere Str 5") = utf16 "koeln sued aeussere strasse 5"
  /\ normalizeText (utf16 "Ernst-Barlach-Str. 4") = utf16 "ernst barlach strasse 4"
  /\ normalizeText (utf16 "Abstr 7") = utf16 "abstr 7".
Proof. repeat split; vm_compute; reflexivity. Qed.

(** ** WhitelistFilter: the energy-scale rule *)

Lemma splitOn_nonempty (sep : N -> bool) (s : jsstring) : splitOn sep s <> [].
Proof.
  destruct s as [|c s]; simpl; [discriminate|].
  destruct (sep c); [discriminate|]. destruct (splitOn sep s); discriminate.
Qed.

(** Cutting at runs and cutting at every separator differ in empty pieces
    only. *)
Lemma splitRuns_splitOn (sep : N -> bool) (s : jsstring) :
  filter nonEmpty (splitRuns sep true s) = filter nonEmpty (splitOn sep s)
  /\ exists p ps qs,
       splitRuns sep false s = p :: ps /\ splitOn sep s = p :: qs
       /\ filter nonEmpty ps = filter nonEmpty qs.
Proof.
  induction s as [|c s [IHt (p & ps & qs & E1 & E2 & E3)]]; simpl.
  - split; [reflexivity|]. exists [], [], []. auto.
  - destruct (sep c).
    + split; [exact IHt|]. exists [], (splitRuns sep true s), (splitOn sep s).
      auto.
    + rewrite E1, E2. split.
      * simpl. now rewrite E3.
      * exists (c :: p), ps, qs. auto.
Qed.

Lemma splitWhiteSpace_tokens (s : jsstring) :
  filter nonEmpty (splitWhiteSpace s) = tokens s.
Proof.
  unfold splitWhiteSpace, tokens.
  destruct (splitRuns_splitOn isWhiteSpace s) as (_ & p & ps & qs & E1 & E2 & E3).
  rewrite E1, E2. simpl. now rewrite E3.
Qed.

Lemma splitOn_app_separators (sep : N -> bool) (w : jsstring) :
  Forall (fun c => sep c = true) w ->
  forall a, splitOn sep (a ++ w) = splitOn sep a ++ repeat [] (List.length w).
Proof.
  intros Hw. induction a as [|x a IH]; simpl.
  - induction Hw as [|c w Hc _ IHw]; simpl; [reflexivity|].
    rewrite Hc, IHw. reflexivity.
  - rewrite IH. destruct (sep x); [reflexivity|].
    pose proof (splitOn_nonempty sep a) as Hne.
    destruct (splitOn sep a); [congruence | reflexivity].
Qed.

Lemma filter_nonEmpty_repeat (l : list jsstring) (n : nat) :
  filter nonEmpty (l ++ repeat [] n) = filter nonEmpty l.
Proof.
  rewrite filter_app.
  replace (filter nonEmpty (repeat [] n)) with (@nil jsstring);
    [apply app_nil_r|].
  induction n; simpl; auto.
Qed.

Lemma dropWhile_split {A} (f : A -> bool) (l : list A) :
  exists w, Forall (fun x => f x = true) w /\ l = w ++ dropWhile f l.
Proof.
  induction l as [|x l (w & Hw & E)]; simpl.
  - exists []. auto.
  - destruct (f x) eqn:Hx.
    + exists (x :: w). split; [now constructor | simpl; congruence].
    + exists []. auto.
Qed.

Lemma tokens_dropWhile (s : jsstring) :
  tokens (dropWhile isWhiteSpace s) = tokens s.
Proof.
  unfold tokens. induction s as [|c s IH]; simpl; [reflexivity|].
  destruct (isWhiteSpace c) eqn:Hc; simpl; [exact IH|].
  rewrite Hc. reflexivity.
Qed.

Lemma tokens_trim (s : jsstring) : tokens (trim s) = tokens s.
Proof.
  unfold trim. rewrite <- (tokens_dropWhile s).
  generalize (dropWhile isWhiteSpace s) as t. intros t.
  destruct (dropWhile_split isWhiteSpace (rev t)) as (w & Hw & E).
  assert (Et : t = rev (dropWhile isWhiteSpace (rev t)) ++ rev w).
  { rewrite <- rev_app_distr, <- E. symmetry. apply rev_involutive. }
  rewrite Et at 2. unfold tokens.
  rewrite splitOn_app_separators.
  - now rewrite filter_nonEmpty_repeat.
  - apply Forall_rev. exact Hw.
Qed.

Lemma isLineBreak_isWhiteSpace (c : N) :
  isLineBreak c = true -> isWhiteSpace c = true.
Proof.
  unfold isLineBreak. intros H. apply orb_true_iff in H as [H|H];
    apply N.eqb_eq in H; subst; reflexivity.
Qed.

Lemma splitOn_lineBreaks (s : jsstring) :
  splitOn isWhiteSpace (replaceClass isLineBreak space s)
  = splitOn isWhiteSpace s.
Proof.
  unfold replaceClass. induction s as [|c s IH]; simpl; [reflexivity|].
  destruct (isLineBreak c) eqn:Hc; simpl; rewrite IH.
  - now rewrite (isLineBreak_isWhiteSpace c Hc).
  - reflexivity.
Qed.

(** The tokens the filter looks at are the tokens of the entity text. *)
Lemma numberParts_tokens (entity : PIIEntity) :
  numberParts entity = tokens (text entity).
Proof.
  unfold numberParts, entityTextClean.
  rewrite splitWhiteSpace_tokens, tokens_trim.
  unfold tokens. now rewrite splitOn_lineBreaks.
Qed.

Lemma isDigit_cases (c : N) :
  isDigit c = true ->
  In c [48; 49; 50; 51; 52; 53; 54; 55; 56; 57]%N.
Proof.
  unfold isDigit, inRange. intros H. apply andb_true_iff in H as [H1 H2].
  apply N.leb_le in H1, H2. simpl.
  assert (c = 48 \/ c = 49 \/ c = 50 \/ c = 51 \/ c = 52 \/ c = 53
          \/ c = 54 \/ c = 55 \/ c = 56 \/ c = 57)%N by lia.
  intuition auto.
Qed.

Lemma parseInt_decimal (tok : jsstring) :
  isDecimal tok = true -> parseInt tok = Some (decimalValue tok).
Proof.
  unfold isDecimal, decimalValue. destruct tok as [|c r]; [discriminate|].
  intros H. cbn [nonEmpty andb forallb] in H.
  apply andb_true_iff in H as [Hc _].
  pose proof (isDigit_cases c Hc) as Hin. simpl in Hin.
  assert (E : parseInt (c :: r) = Some (1 * digitsValue 0 (c :: r))).
  { decompose [or] Hin; try contradiction; subst c; reflexivity. }
  rewrite E. now rewrite Z.mul_1_l.
Qed.

Lemma digitsValue_ge (s : jsstring) : forall acc, 0 <= acc -> acc <= digitsValue acc s.
Proof.
  induction s as [|c s IH]; intros acc H; simpl; [lia|].
  destruct (isDigit c); [|lia].
  specialize (IH (acc * 10 + Z.of_N (c - 48))). lia.
Qed.

Lemma everyWithPrevious_increasing (nums : list Z) :
  everyWithPrevious (fun prev n => n >? prev) nums = strictlyIncreasing nums.
Proof.
  induction nums as [|a nums IH]; [reflexivity|].
  destruct nums as [|b rest]; [reflexivity|].
  change ((b >? a) && everyWithPrevious (fun prev n => n >? prev) (b :: rest)
          = (a <? b) && strictlyIncreasing (b :: rest)).
  now rewrite IH, Z.gtb_ltb.
Qed.

Lemma everyWithPrevious_spaced (d : Z) (nums : list Z) :
  everyWithPrevious (fun prev n => n - prev =? d) nums = spacedBy d nums.
Proof.
  induction nums as [|a nums IH]; [reflexivity|].
  destruct nums as [|b rest]; [reflexivity|].
  change ((b - a =? d)
          && everyWithPrevious (fun prev n => n - prev =? d) (b :: rest)
          = (b - a =? d) && spacedBy d (b :: rest)).
  now rewrite IH.
Qed.

Lemma spacedBy_firstDiff (d a b : Z) (rest : list Z) :
  spacedBy d (a :: b :: rest) = true -> b - a = d.
Proof.
  change (spacedBy d (a :: b :: rest))
    with ((b - a =? d) && spacedBy d (b :: rest)).
  intros H. apply andb_true_iff in H as [H _].
  now apply Z.eqb_eq.
Qed.

Lemma spacedBy_increasing (d : Z) (nums : list Z) :
  0 < d -> spacedBy d nums = true -> strictlyIncreasing nums = true.
Proof.
  intros Hd. induction nums as [|a nums IH]; [reflexivity|].
  destruct nums as [|b rest]; [reflexivity|].
  change (spacedBy d (a :: b :: rest))
    with ((b - a =? d) && spacedBy d (b :: rest)).
  change (strictlyIncreasing (a :: b :: rest))
    with ((a <? b) && strictlyIncreasing (b :: rest)).
  intros H. apply andb_true_iff in H as [Hstep Hrest].
  apply Z.eqb_eq in Hstep. rewrite (IH Hrest), andb_true_r.
  apply Z.ltb_lt. lia.
Qed.

(** The test of the filter on the tokens is the rule: its second
    disjunct, the even spacing by 25 or by 50, adds nothing to the
    first. *)
Lemma looksLikeEnergyScale_rule (s : jsstring) :
  looksLikeEnergyScale (tokens s) = energyScaleRule s.
Proof.
  unfold looksLikeEnergyScale, energyScaleRule.
  generalize (tokens s) as toks. intros toks.
  destruct (3 <=? List.length toks)%nat; [|reflexivity]. cbn [andb].
  assert (Hall : forallb (fun part => match parseInt part with
                                      | Some num => (num >=? 0) && (num <=? 300)
                                      | None => false
                                      end) toks
                 = forallb (fun tok => match parseInt tok with
                                       | Some num => (0 <=? num) && (num <=? 300)
                                       | None => false
                                       end) toks).
  { clear. induction toks as [|tok toks IH]; [reflexivity|].
    cbn [forallb]. rewrite IH. f_equal.
    destruct (parseInt tok) as [num|]; [now rewrite Z.geb_leb | reflexivity]. }
  rewrite Hall. clear Hall.
  destruct (forallb _ toks); [|reflexivity]. cbn [andb].
  set (nums := map _ toks). rewrite everyWithPrevious_increasing.
  destruct (strictlyIncreasing nums) eqn:Hinc; [reflexivity|].
  cbn [orb]. apply not_true_iff_false. intros H.
  apply andb_true_iff in H as [Hd H].
  rewrite everyWithPrevious_spaced in H.
  assert (Hpos : 0 < match nums with
                     | a :: b :: _ => b - a
                     | _ => 0
                     end)
    by (apply orb_true_iff in Hd as [Hd|Hd]; apply Z.eqb_eq in Hd; lia).
  rewrite (spacedBy_increasing _ nums Hpos H) in Hinc. discriminate.
Qed.

(** Every path of the filter callback through the energy-scale test ends
    in [false]. *)
Lemma energy_scale_not_kept (excludeAddress : option jsstring)
    (entity : PIIEntity) :
  looksLikeEnergyScale (numberParts entity) = true ->
  keepEntity excludeAddress entity = false.
Proof.
  intros H. unfold keepEntity. rewrite H.
  destruct (isWhitelisted _); [reflexivity|].
  destruct (_ && _); reflexivity.
Qed.

(** The callback of the filter, rule by rule. *)
Lemma keepEntity_rules (excludeAddress : option jsstring)
    (entity : PIIEntity) :
  keepEntity excludeAddress entity
  = otherRulesKeep excludeAddress entity
    && negb (energyScaleRule (text entity)).
Proof.
  unfold keepEntity, otherRulesKeep.
  rewrite numberParts_tokens, looksLikeEnergyScale_rule.
  destruct (isWhitelisted _); [reflexivity|].
  destruct (_ && organizationNoise _); [reflexivity|].
  destruct (energyScaleRule _); cbn [negb andb];
    [now rewrite andb_false_r|].
  rewrite andb_true_r. destruct excludeAddress as [[|c address]|]; reflexivity.
Qed.

(** The text ["17 203 4"] is kept, whatever the category, when there is
    no address to exclude. *)
Lemma seventeen_kept (cat : jsstring) (o l : Z) (score : Q) :
  keepEntity None (mkEntity (utf16 "17 203 4") cat o l score) = true.
Proof.
  unfold keepEntity. cbn [text category].
  replace (isWhitelisted (utf16 "17 203 4")) with false
    by (vm_compute; reflexivity).
  replace (organizationNoise _) with false by (vm_compute; reflexivity).
  rewrite andb_false_r.
  replace (looksLikeEnergyScale _) with false by (vm_compute; reflexivity).
  reflexivity.
Qed.

(** C9, as stated, fails: the tokens of ["100 75 50"] are integers from 0
    to 300, evenly spaced at an interval of 25, and the filter keeps the
    entity: it tests the spacing as a step of +25 or +50 from each number
    to the next. *)
Lemma C9_counterexample :
  energyScaleText (text scaleDescending) = true
  /\ filteredEntities None [scaleDescending] = [scaleDescending].
Proof. split; vm_compute; reflexivity. Qed.

(** C9 (amended): the filter keeps an entity of the list exactly when its
    text is not an energy scale and no other rule matches it, where an
    energy scale is a text of at least three tokens that [parseInt] reads
    as numbers from 0 to 300, strictly increasing; the category plays no
    part and neither does the address to exclude.  So ["25 50 75 100"] is
    dropped and ["17 203 4"] is kept. *)
Theorem C9_energy_scale_rule (excludeAddress : option jsstring)
    (entities : list PIIEntity) (entity : PIIEntity)
    (cat : jsstring) (o l : Z) (score : Q) :
  (In entity (filteredEntities excludeAddress entities)
   <-> In entity entities
       /\ otherRulesKeep excludeAddress entity = true
       /\ energyScaleRule (text entity) = false)
  /\ ~ In (mkEntity (utf16 "25 50 75 100") cat o l score)
          (filteredEntities excludeAddress entities)
  /\ (In (mkEntity (utf16 "17 203 4") cat o l score) entities ->
      In (mkEntity (utf16 "17 203 4") cat o l score)
         (filteredEntities None entities)).
Proof.
  split; [|split].
  - unfold filteredEntities. rewrite filter_In, keepEntity_rules.
    rewrite andb_true_iff, negb_true_iff. tauto.
  - intros Hin. apply filter_In in Hin as [_ Hkeep].
    rewrite energy_scale_not_kept in Hkeep; [discriminate|].
    vm_compute. reflexivity.
  - intros Hin. apply filter_In. split; [exact Hin | apply seventeen_kept].
Qed.

Lemma C9_witness :
  ~ In (mkEntity (utf16 "25 50 75 100") Organization 40 12 0.6)
       (filteredEntities None
          [personMax; mkEntity (utf16 "17 203 4") (utf16 "Person") 60 8 0.6])
  /\ In (mkEntity (utf16 "17 203 4") (utf16 "Person") 60 8 0.6)
        (filteredEntities None
           [personMax; mkEntity (utf16 "17 203 4") (utf16 "Person") 60 8 0.6])
  /\ In (mkEntity (utf16 "17 203 4") Organization 40 12 0.6)
        (filteredEntities None
           [mkEntity (utf16 "17 203 4") Organization 40 12 0.6]).
Proof.
  destruct (C9_energy_scale_rule None
              [personMax; mkEntity (utf16 "17 203 4") (utf16 "Person") 60 8 0.6]
              (mkEntity (utf16 "17 203 4") (utf16 "Person") 60 8 0.6)
              Organization 40 12 0.6) as (Hrule & Hscale & _).
  destruct (C9_energy_scale_rule None
              [mkEntity (utf16 "17 203 4") Organization 40 12 0.6]
              personMax Organization 40 12 0.6) as (_ & _ & Hkept).
  split; [exact Hscale|]. split.
  - apply Hrule. split; [right; now left|]. split; vm_compute; reflexivity.
  - apply Hkept. now left.
Defined.

(** The two texts of the specification: ["25 50 75 100"] is an energy
    scale, ["17 203 4"] is not, and no other rule of the filter drops it
    (for every category, with no address to exclude). *)
Lemma energy_scale_examples (cat : jsstring) (o l : Z) (score : Q)
    (entities : list PIIEntity) :
  energyScaleText (utf16 "25 50 75 100") = true
  /\ energyScaleText (utf16 "17 203 4") = false
  /\ keepEntity None (mkEntity (utf16 "25 50 75 100") cat o l score) = false
  /\ (In (mkEntity (utf16 "17 203 4") cat o l score) entities ->
      In (mkEntity (utf16 "17 203 4") cat o l score)
         (filteredEntities None entities)).
Proof.
  split; [vm_compute; reflexivity|]. split; [vm_compute; reflexivity|].
  split.
  - apply energy_scale_not_kept. vm_compute. reflexivity.
  - intros Hin. apply filter_In. split; [exact Hin | apply seventeen_kept].
Qed.

(** The whitelist and the dynamic exclusion on examples of the
    specification. *)
Example whitelist_examples :
  isWhitelisted (utf16 "Verwalter") = true
  /\ isWhitelisted (utf16 "Verwalterin Schmidt") = true
  /\ isWhitelisted (utf16 "Max Mustermann") = false
  /\ dynamicallyExcluded (utf16 "Musterstr. 5 12345 Musterstadt")
                         (utf16 "Musterstraße 5, 12345 Musterstadt") = true.
Proof. repeat split; vm_compute; reflexivity. Qed.

(** ** PatternDetectorBank: phone candidates *)

(** C8 on the code: the candidate ["250\n1234 567 890"] is matched by the
    pattern, has a group of four digits and thirteen digits in all, so
    the rule as worded emits it; the code skips it as an energy scale,
    because its test for groups of at most three digits runs on the
    digits with the separators already removed and accepts any run of
    digits. *)
Theorem C8_phone_digit_groups_not_checked :
  matches phonePattern phoneOverTwoLines = true
  /\ digitGroups phoneOverTwoLines
     = map utf16 ["250"; "1234"; "567"; "890"]%string
  /\ phoneEmittedAsSpecified phoneOverTwoLines = true
  /\ phoneCandidateEmitted phoneOverTwoLines = false.
Proof. repeat split; vm_compute; reflexivity. Qed.

(** The count of at least ten digits includes a leading [+]: nine digits
    after a [+] pass.  The candidate has its [+] only after a word
    character, as in ["Tel+1 23 456 789"]: at the start of a text or
    after a space there is no word boundary before the [+], the
    candidate begins at the digit and is skipped for its nine digits. *)
Example phone_plus_counts_as_digit :
  matches phonePattern phoneNineDigits = true
  /\ strlen (filter isDigit phoneNineDigits) = 9
  /\ phoneEmittedAsSpecified phoneNineDigits = false
  /\ phoneCandidateEmitted phoneNineDigits = true
  (* after the l of Tel, at the start of the text, after a space *)
  /\ boundaryBetween (Some 108%N) (hd_error phoneNineDigits) = true
  /\ boundaryBetween None (hd_error phoneNineDigits) = false
  /\ boundaryBetween (Some 32%N) (hd_error phoneNineDigits) = false
  /\ phoneCandidateEmitted (utf16 "1 23 456 789") = false.
Proof. repeat split; vm_compute; reflexivity. Qed.

(** Where the code and the rule as worded agree. *)
Example phone_candidates_agreeing :
  (* an ordinary number *)
  phoneCandidateEmitted (utf16 "030 1234 5678") = true
  /\ phoneEmittedAsSpecified (utf16 "030 1234 5678") = true
  (* an energy scale on one line *)
  /\ phoneCandidateEmitted (utf16 "150 175 200 225") = false
  /\ phoneEmittedAsSpecified (utf16 "150 175 200 225") = false
  (* an energy scale over two lines, written with dashes *)
  /\ phoneCandidateEmitted (utf16 "100-125" ++ [10%N] ++ utf16 "150-175") = false
  /\ phoneEmittedAsSpecified (utf16 "100-125" ++ [10%N] ++ utf16 "150-175") = false
  (* too few digits *)
  /\ phoneCandidateEmitted (utf16 "12 345 678") = false
  /\ phoneEmittedAsSpecified (utf16 "12 345 678") = false.
Proof. repeat split; vm_compute; reflexivity. Qed.

(* ================================================================== *)
(** * Further properties of the code *)

(** ** EntityMerger *)

Lemma removeFirst_length {A} (f : A -> bool) (l : list A) :
  (List.length (removeFirst f l) <= List.length l)%nat.
Proof.
  induction l as [|x l IH]; simpl; [lia|]. destruct (f x); simpl; lia.
Qed.

Lemma fold_removeKey_length (R : list PIIEntity) :
  forall m, (List.length (fold_left removeKey R m) <= List.length m)%nat.
Proof.
  induction R as [|a R IH]; intros m; simpl; [lia|].
  specialize (IH (removeKey m a)).
  pose proof (removeFirst_length (sameKey a) m). unfold removeKey in *. lia.
Qed.

(** What is in [merged] at any time: NER entities, and pattern entities
    that no overlap blocks. *)
Lemma mergeLoop_members (ner allPats : list PIIEntity) :
  forall pats m,
    incl pats allPats ->
    (forall e, In e m ->
               In e ner \/ (In e allPats /\ blocked e ner = false)) ->
    forall e, In e (fold_left (mergeStep ner) pats m) ->
              In e ner \/ (In e allPats /\ blocked e ner = false).
Proof.
  induction pats as [|c pats IH]; intros m Hincl Hm e He; simpl in He; [auto|].
  apply IH in He; [exact He | intros x Hx; apply Hincl; now right |].
  intros x Hx. rewrite mergeStep_spec in Hx.
  apply in_app_or in Hx as [Hx|Hx].
  - apply fold_removeKey_incl in Hx. auto.
  - destruct (blocked c ner) eqn:Hb; [contradiction|].
    destruct Hx as [<-|[]]. right. split; [apply Hincl; now left | exact Hb].
Qed.

Lemma mergeLoop_length (ner : list PIIEntity) :
  forall pats m,
    (List.length (fold_left (mergeStep ner) pats m)
     <= List.length m + List.length pats)%nat.
Proof.
  induction pats as [|c pats IH]; intros m; simpl; [lia|].
  specialize (IH (mergeStep ner m c)).
  assert (Hstep : (List.length (mergeStep ner m c) <= S (List.length m))%nat).
  { rewrite mergeStep_spec, length_app.
    pose proof (fold_removeKey_length (requests c ner) m).
    destruct (blocked c ner); simpl; lia. }
  lia.
Qed.

(** X1: the merge invents nothing: every merged entity is one of the NER
    entities or one of the pattern entities, and the merged list is not
    longer than the two inputs together. *)
Theorem mergeEntities_from_inputs (ner pats : list PIIEntity) :
  incl (mergeEntities ner pats) (ner ++ pats)
  /\ (List.length (mergeEntities ner pats)
      <= List.length ner + List.length pats)%nat.
Proof.
  split.
  - intros e He. apply (Permutation_in _ (mergeEntities_perm_loop ner pats)) in He.
    apply in_or_app.
    destruct (mergeLoop_members ner pats pats ner (incl_refl _)
                (fun x Hx => or_introl Hx) e He) as [H|[H _]]; auto.
  - rewrite (Permutation_length (mergeEntities_perm_loop ner pats)).
    apply mergeLoop_length.
Qed.

(** X2: a NER entity is kept unless a pattern entity overlaps it in one
    of the three priority pairs: no other pattern entity, whatever it
    overlaps, takes a NER entity out of the merged list. *)
Theorem ner_entity_survives (ner pats : list PIIEntity) (n : PIIEntity) :
  In n ner ->
  (forall p, In p pats -> hasOverlap p n = true -> priority p n = false) ->
  In n (mergeEntities ner pats).
Proof.
  intros Hn Hp.
  apply (Permutation_in _ (Permutation_sym (mergeEntities_perm_loop ner pats))).
  unfold mergeLoop.
  assert (G : forall m, In n m -> In n (fold_left (mergeStep ner) pats m)).
  { revert Hp. induction pats as [|c pats IH]; intros Hp m Hm; simpl;
      [exact Hm|].
    apply IH; [intros p Hin; apply Hp; now right|].
    rewrite mergeStep_spec. apply in_or_app. left.
    apply fold_removeKey_keeps; [|exact Hm].
    intros a Ha. eapply requests_miss; eauto. apply Hp. now left. }
  exact (G ner Hn).
Qed.

Lemma ner_entity_survives_witness :
  In personMeier (mergeEntities [orgPraxis; personMeier] [occArzt]).
Proof.
  apply (ner_entity_survives [orgPraxis; personMeier] [occArzt] personMeier).
  - right. now left.
  - intros p [<-|[]] _. reflexivity.
Defined.

(** X3: the three priority pairs alike (Occupation over Organization,
    DEBankCode over PhoneNumber, DEBankCode over
    InternationalBankingAccountNumber): a pattern entity all of whose
    overlaps with NER entities (of positive length) are priority pairs is
    in the merged list, and none of the NER entities it overlaps is. *)
Theorem priority_pattern_replaces_ner (ner pats : list PIIEntity) (p : PIIEntity) :
  positiveLengths ner ->
  In p pats ->
  (forall a, In a ner -> hasOverlap p a = true -> priority p a = true) ->
  In p (mergeEntities ner pats)
  /\ forall a, In a ner -> hasOverlap p a = true ->
               ~ In a (mergeEntities ner pats).
Proof.
  intros Hpos Hp Hall.
  assert (Hb : blocked p ner = false).
  { unfold blocked. apply not_true_iff_false. intros H.
    apply existsb_exists in H as (a & Ha & H).
    apply andb_true_iff in H as [Hov H].
    rewrite (Hall a Ha Hov) in H. discriminate. }
  assert (Hadm : In p (admitted ner pats)) by (apply admitted_spec; auto).
  split; [apply mergeEntities_In; auto|].
  intros a Ha Hov H. apply mergeEntities_In in H; [|assumption].
  destruct H as [H|H].
  - rewrite (survivors_no_overlap ner pats p a Hadm H) in Hov. discriminate.
  - apply admitted_spec in H as [_ H].
    assert (Hlen : 0 < length a).
    { unfold positiveLengths in Hpos. rewrite Forall_forall in Hpos. auto. }
    pose proof (admitted_not_sameKey ner p a a Ha Hlen (Hall a Ha Hov) H) as Hk.
    rewrite sameKey_refl in Hk. discriminate.
Qed.

Lemma priority_pattern_replaces_ner_witness :
  In bankCode (mergeEntities [phoneNer] [bankCode])
  /\ forall a, In a [phoneNer] -> hasOverlap bankCode a = true ->
               ~ In a (mergeEntities [phoneNer] [bankCode]).
Proof.
  apply (priority_pattern_replaces_ner [phoneNer] [bankCode] bankCode).
  - repeat constructor.
  - now left.
  - intros a [<-|[]] _. reflexivity.
Defined.

(** X4: the NER entity wins by default: a pattern entity that overlaps a
    NER entity outside the three priority pairs is not in the merged list
    (unless the same entity is also among the NER entities). *)
Theorem blocked_pattern_dropped (ner pats : list PIIEntity) (p a : PIIEntity) :
  In a ner -> hasOverlap p a = true -> priority p a = false ->
  ~ In p ner ->
  ~ In p (mergeEntities ner pats).
Proof.
  intros Ha Hov Hp Hnot H.
  apply (Permutation_in _ (mergeEntities_perm_loop ner pats)) in H.
  destruct (mergeLoop_members ner pats pats ner (incl_refl _)
              (fun x Hx => or_introl Hx) p H) as [H1|[_ Hb]]; [auto|].
  rewrite (blocked_false p ner Hb a Ha Hov) in Hp. discriminate.
Qed.

Lemma blocked_pattern_dropped_witness :
  ~ In occArzt (mergeEntities [personMeier] [occArzt]).
Proof.
  apply (blocked_pattern_dropped [personMeier] [occArzt] occArzt personMeier).
  - now left.
  - reflexivity.
  - reflexivity.
  - intros [H|[]]. discriminate H.
Defined.

(** ** CoordinateMapper *)

Lemma filter_flat_map {A B} (g : B -> bool) (f : A -> list B) (l : list A) :
  filter g (flat_map f l) = flat_map (fun x => filter g (f x)) l.
Proof.
  induction l as [|x l IH]; simpl; [reflexivity|].
  now rewrite filter_app, IH.
Qed.

Lemma indexed_values {A} (arr : list A) : map snd (indexed arr) = arr.
Proof.
  unfold indexed. generalize 0%nat.
  induction arr as [|a arr IH]; intros start; simpl; [reflexivity|].
  now rewrite IH.
Qed.

Lemma collectWords_overlapCount (pages : list DocIntelPage) (entity : PIIEntity) :
  List.length
    (filter (fun item => wordOverlaps (fst item) (offset entity)
                                      (offset entity + length entity))
            (collectWords pages))
  = overlapCount pages entity.
Proof.
  unfold collectWords, overlapCount.
  rewrite filter_flat_map, length_flat_map.
  rewrite <- (indexed_values pages) at 2. rewrite !map_map. f_equal.
  apply map_ext. intros [i page]. simpl.
  now rewrite filter_map_swap, length_map.
Qed.

(** X5: one region per matched word, not one per entity: the number of
    regions is the sum, over the entities, of the number of words of the
    document that overlap the entity.  An entity that no word overlaps
    gives no region. *)
Theorem convert_region_count (entities : list PIIEntity) (doc : Doc.t) :
  List.length (convertEntitiesToRedactionCoordinates entities doc)
  = list_sum (map (overlapCount (Doc.pages doc)) entities).
Proof.
  unfold convertEntitiesToRedactionCoordinates.
  rewrite length_flat_map. f_equal. apply map_ext. intros entity.
  rewrite <- collectWords_overlapCount.
  set (sorted := sortByKey _ _).
  rewrite flat_map_constant_length with (c := 1%nat).
  - rewrite Nat.mul_1_r. unfold relevantWords.
    apply Permutation_length, filter_perm, sortByKey_perm.
  - intros [w i] Hin. unfold relevantWords in Hin.
    apply filter_In in Hin as [Hin _].
    apply (Permutation_in _ (sortByKey_perm _ _)) in Hin.
    apply collectWords_In in Hin as (page & Hn & _).
    simpl. now rewrite Hn.
Qed.

Example convert_scenario_two_regions :
  overlapCount (Doc.pages scenarioDoc) personMustermann = 2%nat
  /\ map Region.pageIndex
         (convertEntitiesToRedactionCoordinates [personMustermann] scenarioDoc)
     = [0%nat; 0%nat].
Proof. split; reflexivity. Qed.

(** X6: every region can be traced: its page index is the index of a
    page of the document, and its text and category are those of one of
    the entities given. *)
Theorem convert_region_traceable (entities : list PIIEntity) (doc : Doc.t)
    (r : RedactionCoordinate) :
  In r (convertEntitiesToRedactionCoordinates entities doc) ->
  (Region.pageIndex r < List.length (Doc.pages doc))%nat
  /\ exists entity, In entity entities
       /\ Region.text r = Some (text entity)
       /\ Region.category r = Some (category entity).
Proof.
  intros H. apply convert_In in H as (entity & w & i & page & He & Hn & _ & _ & ->).
  split.
  - simpl. apply nth_error_Some. congruence.
  - exists entity. auto.
Qed.

Lemma convert_region_traceable_witness :
  (Region.pageIndex (wordRedaction inchPage personMax (wordMax, 0%nat))
   < List.length (Doc.pages inchDoc))%nat
  /\ exists entity, In entity [personMax]
       /\ Region.text (wordRedaction inchPage personMax (wordMax, 0%nat))
          = Some (text entity)
       /\ Region.category (wordRedaction inchPage personMax (wordMax, 0%nat))
          = Some (category entity).
Proof.
  apply (convert_region_traceable [personMax] inchDoc).
  vm_compute. left. reflexivity.
Defined.

(** ** SignatureDetector: both passes *)

Lemma fold_left_Forall {A B} (P : B -> Prop) (f : list B -> A -> list B)
    (l : list A) :
  (forall acc x, In x l -> Forall P acc -> Forall P (f acc x)) ->
  forall init, Forall P init -> Forall P (fold_left f l init).
Proof.
  induction l as [|x l IH]; intros Hf init Hinit; simpl; [exact Hinit|].
  apply IH.
  - intros acc y Hy. apply Hf. now right.
  - apply Hf; [now left | exact Hinit].
Qed.

(** Every region of the fallback pass is the box of a word that lies
    under a label word of its page. *)
Lemma fallbackPass_sound (doc : Doc.t) :
  Forall (fun r =>
    exists pageIdx page labelWord nearbyWord,
      nth_error (Doc.pages doc) pageIdx = Some page
      /\ In labelWord (Page.words page)
      /\ In nearbyWord (Page.words page)
      /\ isSignatureLabel (toLowerCase (Word.content labelWord)) = true
      /\ Qltb (centreY labelWord) (Page.height page * 0.5) = false
      /\ belowAndBeside labelWord nearbyWord = true
      /\ looksLikeSignatureText (Word.content nearbyWord) = true
      /\ fallbackRegion pageIdx page nearbyWord = Some r)
    (fallbackPass doc).
Proof.
  unfold fallbackPass. apply fold_left_Forall; [|constructor].
  intros acc [pageIdx page] Hpage Hacc. apply indexed_In in Hpage.
  apply fold_left_Forall; [|exact Hacc].
  clear acc Hacc. intros acc [labelIdx labelWord] Hlabel Hacc.
  apply indexed_In, nth_error_In in Hlabel.
  unfold fallbackLabelTurn.
  destruct (isSignatureLabel _) eqn:Hkey; [|exact Hacc].
  destruct (strlen _ >? 3); cbn [andb]; [|exact Hacc].
  destruct (Qltb (centreY labelWord) _) eqn:Hlow; [exact Hacc|].
  apply fold_left_Forall; [|exact Hacc].
  clear acc Hacc. intros acc [nearbyIdx nearbyWord] Hnear Hacc.
  apply indexed_In, nth_error_In in Hnear.
  unfold fallbackNearbyTurn.
  destruct (nearbyIdx =? labelIdx)%nat; [exact Hacc|].
  destruct (belowAndBeside labelWord nearbyWord) eqn:Hpos; [|exact Hacc].
  destruct (looksLikeSignatureText _) eqn:Htext; cbn [andb]; [|exact Hacc].
  destruct (negb _); [|exact Hacc].
  destruct (fallbackRegion pageIdx page nearbyWord) as [r|] eqn:Hr;
    [|exact Hacc].
  apply Forall_app. split; [exact Hacc|]. constructor; [|constructor].
  exists pageIdx, page, labelWord, nearbyWord. auto 10.
Qed.

Lemma fallbackRegion_Some (pageIdx : nat) (page : DocIntelPage)
    (w : DocIntelWord) (r : RedactionCoordinate) :
  fallbackRegion pageIdx page w = Some r ->
  Region.pageIndex r = pageIdx
  /\ Region.category r = Some (utf16 "Signature")
  /\ Region.text r = Some (utf16 "[Signature (fallback): " ++ Word.content w
                           ++ utf16 "]")
  /\ (20 < Region.width r /\ 10 < Region.height r)%Q.
Proof.
  unfold fallbackRegion.
  destruct (Qltb 20 _ && Qltb 10 _) eqn:Hsize; [|discriminate].
  intros H. injection H as <-. simpl.
  apply andb_true_iff in Hsize as [Hw Hh].
  apply Qltb_lt in Hw, Hh. auto.
Qed.

Lemma matchingWords_pageIndex (pages : list DocIntelPage) (span : Span.t)
    (mw : MatchingWord) :
  In mw (matchingWords pages span) ->
  (pageIndex mw < List.length pages)%nat.
Proof.
  unfold matchingWords. intros H.
  apply in_flat_map in H as ([i page] & Hp & H).
  apply in_flat_map in H as (w & _ & H).
  destruct (wordOverlaps w _ _); [|contradiction].
  destruct H as [<-|[]]. simpl.
  apply indexed_In in Hp. apply nth_error_Some.
  intros E. pose proof (eq_trans (eq_sym E) Hp) as C. discriminate C.
Qed.

(** X7: whatever pass produced it, a signature region has the category
    ['Signature'] and the index of a page of the document. *)
Theorem signature_regions_well_formed (doc : Doc.t) (r : RedactionCoordinate) :
  In r (detectSignaturesFromStyles doc) ->
  Region.category r = Some (utf16 "Signature")
  /\ (Region.pageIndex r < List.length (Doc.pages doc))%nat.
Proof.
  unfold detectSignaturesFromStyles.
  destruct (primarySignaturePass doc) as [|s rest] eqn:Hprim; intros H.
  - pose proof (fallbackPass_sound doc) as Hs. rewrite Forall_forall in Hs.
    destruct (Hs r H) as (i & page & _ & w & Hn & _ & _ & _ & _ & _ & _ & Hr).
    apply fallbackRegion_Some in Hr as (-> & -> & _). split; [reflexivity|].
    apply nth_error_Some. congruence.
  - rewrite <- Hprim in H. apply primary_In in H as (span & H).
    apply processSpan_Some in H as (first & others & Hm & ->).
    split; [reflexivity|]. simpl.
    apply (matchingWords_pageIndex (Doc.pages doc) span).
    rewrite Hm. now left.
Qed.

Lemma signature_regions_well_formed_witness :
  let r := hd (Region.mk 0 0 0 0 0 None None)
              (detectSignaturesFromStyles signedDoc) in
  Region.category r = Some (utf16 "Signature")
  /\ (Region.pageIndex r < List.length (Doc.pages signedDoc))%nat.
Proof.
  cbv zeta. apply (signature_regions_well_formed signedDoc).
  vm_compute. left. reflexivity.
Defined.

(** X8: the fallback pass runs only when the primary pass found nothing,
    and what it adds is never small: a region of the result is a region
    of the primary pass, or the primary pass is empty and the region is
    more than 20 wide and more than 10 high. *)
Theorem signature_fallback_only_when_empty (doc : Doc.t)
    (r : RedactionCoordinate) :
  In r (detectSignaturesFromStyles doc) ->
  In r (primarySignaturePass doc)
  \/ (primarySignaturePass doc = []
      /\ (20 < Region.width r /\ 10 < Region.height r)%Q).
Proof.
  unfold detectSignaturesFromStyles.
  destruct (primarySignaturePass doc) as [|s rest] eqn:Hprim; intros H.
  - right. split; [reflexivity|].
    pose proof (fallbackPass_sound doc) as Hs. rewrite Forall_forall in Hs.
    destruct (Hs r H) as (i & page & _ & w & _ & _ & _ & _ & _ & _ & _ & Hr).
    now apply fallbackRegion_Some in Hr.
  - now left.
Qed.

Lemma signature_fallback_only_when_empty_witness :
  let r := hd (Region.mk 0 0 0 0 0 None None)
              (detectSignaturesFromStyles fallbackDoc) in
  In r (primarySignaturePass fallbackDoc)
  \/ (primarySignaturePass fallbackDoc = []
      /\ (20 < Region.width r /\ 10 < Region.height r)%Q).
Proof.
  cbv zeta. apply (signature_fallback_only_when_empty fallbackDoc).
  vm_compute. left. reflexivity.
Defined.

Lemma Qltb_ge (a b : Q) : Qltb a b = false <-> (b <= a)%Q.
Proof.
  unfold Qltb. rewrite negb_false_iff. apply Qle_bool_iff.
Qed.

Lemma substring_inside (s : jsstring) (a b : Z) :
  0 <= a <= b ->
  substring s a b = firstn (Z.to_nat (b - a)) (skipn (Z.to_nat a) s).
Proof.
  intros H. unfold substring, strlen.
  set (len := Z.of_nat (List.length s)).
  assert (Hlen : 0 <= len) by (unfold len; lia).
  destruct (Z_le_gt_dec a len) as [Ha|Ha].
  - replace (Z.min (Z.min (Z.max a 0) len) (Z.min (Z.max b 0) len)) with a by lia.
    destruct (Z_le_gt_dec b len) as [Hb|Hb].
    + f_equal. lia.
    + replace (Z.max (Z.min (Z.max a 0) len) (Z.min (Z.max b 0) len)) with len by lia.
      rewrite !firstn_all2; try reflexivity; rewrite length_skipn; unfold len; lia.
  - replace (Z.max (Z.min (Z.max a 0) len) (Z.min (Z.max b 0) len)
             - Z.min (Z.min (Z.max a 0) len) (Z.min (Z.max b 0) len)) with 0 by lia.
    rewrite (skipn_all2 (n := Z.to_nat a)) by (unfold len in *; lia).
    now rewrite firstn_nil.
Qed.

(** Where a region of the fallback pass comes from: the turn of the
    inner loop that pushed it. *)
Lemma fallbackPass_candidates (doc : Doc.t) :
  Forall (fun r =>
    exists pageIdx page labelIdx labelWord nearbyIdx nearbyWord,
      nth_error (Doc.pages doc) pageIdx = Some page
      /\ nth_error (Page.words page) labelIdx = Some labelWord
      /\ nth_error (Page.words page) nearbyIdx = Some nearbyWord
      /\ nearbyIdx <> labelIdx
      /\ isSignatureLabel (toLowerCase (Word.content labelWord)) = true
      /\ 3 < strlen (toLowerCase (Word.content labelWord))
      /\ Qltb (centreY labelWord) (Page.height page * 0.5) = false
      /\ belowAndBeside labelWord nearbyWord = true
      /\ looksLikeSignatureText (Word.content nearbyWord) = true
      /\ fallbackRegion pageIdx page nearbyWord = Some r)
    (fallbackPass doc).
Proof.
  unfold fallbackPass. apply fold_left_Forall; [|constructor].
  intros acc [pageIdx page] Hpage Hacc. apply indexed_In in Hpage.
  apply fold_left_Forall; [|exact Hacc].
  clear acc Hacc. intros acc [labelIdx labelWord] Hlabel Hacc.
  apply indexed_In in Hlabel.
  unfold fallbackLabelTurn.
  destruct (isSignatureLabel _) eqn:Hkey; [|exact Hacc].
  destruct (strlen _ >? 3) eqn:Hlong; cbn [andb]; [|exact Hacc].
  apply Z.gtb_lt in Hlong.
  destruct (Qltb (centreY labelWord) _) eqn:Hlow; [exact Hacc|].
  apply fold_left_Forall; [|exact Hacc].
  clear acc Hacc. intros acc [nearbyIdx nearbyWord] Hnear Hacc.
  apply indexed_In in Hnear.
  unfold fallbackNearbyTurn.
  destruct (nearbyIdx =? labelIdx)%nat eqn:Hsame; [exact Hacc|].
  apply Nat.eqb_neq in Hsame.
  destruct (belowAndBeside labelWord nearbyWord) eqn:Hpos; [|exact Hacc].
  destruct (looksLikeSignatureText _) eqn:Htext; cbn [andb]; [|exact Hacc].
  destruct (negb _); [|exact Hacc].
  destruct (fallbackRegion pageIdx page nearbyWord) as [r|] eqn:Hr;
    [|exact Hacc].
  apply Forall_app. split; [exact Hacc|]. constructor; [|constructor].
  exists pageIdx, page, labelIdx, labelWord, nearbyIdx, nearbyWord. auto 12.
Qed.

(** The keyword test, word by word: a label of the list, or the first
    five code units of a label of more than four. *)
Lemma isSignatureLabel_spec (wordText : jsstring) :
  isSignatureLabel wordText = true ->
  exists label,
    In label signatureLabels
    /\ (includes wordText label = true
        \/ (4 < strlen label /\ includes wordText (firstn 5 label) = true)).
Proof.
  unfold isSignatureLabel. intros H.
  apply existsb_exists in H as (label & Hin & H).
  exists label. split; [exact Hin|].
  apply orb_true_iff in H as [H|H]; [now left|]. right.
  apply andb_true_iff in H as [Hlen H]. apply Z.gtb_lt in Hlen.
  rewrite substring_inside in H by lia. split; [exact Hlen | exact H].
Qed.

(** X9: a fallback region is the box of a word under a label word of the
    same page.  The label word, in lower case, has more than three code
    units and contains a signature label, or the first five code units
    of a label of more than four (so a word with ["datum"] is a label);
    its centre is in the lower half of the page.  The word is another
    word of the page, its centre below the centre of the label by less
    than 1.0 and beside it by less than 3.0; it has three letters in a
    row and is not one of the common words.  The region is the box of
    the word from 0.1 before its first corner to 0.1 after its third, in
    points, not clamped, more than 20 wide and more than 10 high. *)
Theorem fallback_region_below_label (doc : Doc.t) (r : RedactionCoordinate) :
  In r (fallbackPass doc) ->
  exists page labelIdx labelWord nearbyIdx nearbyWord label,
    nth_error (Doc.pages doc) (Region.pageIndex r) = Some page
    /\ nth_error (Page.words page) labelIdx = Some labelWord
    /\ nth_error (Page.words page) nearbyIdx = Some nearbyWord
    /\ nearbyIdx <> labelIdx
    (* the label *)
    /\ In label signatureLabels
    /\ (includes (toLowerCase (Word.content labelWord)) label = true
        \/ (4 < strlen label
            /\ includes (toLowerCase (Word.content labelWord))
                        (firstn 5 label) = true))
    /\ 3 < strlen (toLowerCase (Word.content labelWord))
    /\ (Page.height page * 0.5 <= centreY labelWord)%Q
    (* the word under it *)
    /\ (centreY labelWord < centreY nearbyWord
        /\ centreY nearbyWord - centreY labelWord < 1
        /\ Qabs (centreX nearbyWord - centreX labelWord) < 3)%Q
    /\ matches commonWord (Word.content nearbyWord) = false
    /\ matchesSomewhere threeLetters (Word.content nearbyWord) = true
    /\ 3 <= strlen (Word.content nearbyWord)
    (* the region *)
    /\ (let polygon := Word.polygon nearbyWord in
        let left := Qmin (x1 polygon) (x4 polygon) - 0.1 in
        let top := Qmin (y1 polygon) (y2 polygon) - 0.1 in
        Region.x r = toPoints (Page.unit page) left
        /\ Region.y r = toPoints (Page.unit page) top
        /\ Region.width r
           = toPoints (Page.unit page)
                      (Qmax (x2 polygon) (x3 polygon) - left + 0.2)
        /\ Region.height r
           = toPoints (Page.unit page)
                      (Qmax (y3 polygon) (y4 polygon) - top + 0.2))%Q
    /\ (20 < Region.width r /\ 10 < Region.height r)%Q
    /\ Region.category r = Some (utf16 "Signature")
    /\ Region.text r
       = Some (utf16 "[Signature (fallback): " ++ Word.content nearbyWord
               ++ utf16 "]").
Proof.
  intros H. pose proof (fallbackPass_candidates doc) as Hs.
  rewrite Forall_forall in Hs.
  destruct (Hs r H)
    as (i & page & labelIdx & labelWord & nearbyIdx & w & Hn & Hl & Hw
        & Hdiff & Hkey & Hlong & Hlow & Hpos & Htext & Hr).
  apply isSignatureLabel_spec in Hkey as (label & Hlabel & Hkey).
  unfold belowAndBeside in Hpos.
  apply andb_true_iff in Hpos as [Hbelow Hbeside].
  apply andb_true_iff in Hbelow as [Hb1 Hb2].
  apply Qltb_lt in Hb1, Hb2, Hbeside. apply Qltb_ge in Hlow.
  unfold looksLikeSignatureText in Htext.
  apply andb_true_iff in Htext as [Htext Hthree].
  apply andb_true_iff in Htext as [Hcommon Hletters].
  apply negb_true_iff in Hcommon. apply Z.geb_le in Hthree.
  unfold fallbackRegion in Hr.
  destruct (Qltb 20 _ && Qltb 10 _) eqn:Hsize; [|discriminate Hr].
  apply andb_true_iff in Hsize as [Hwide Hhigh].
  apply Qltb_lt in Hwide, Hhigh.
  injection Hr as <-. cbn [Region.pageIndex Region.x Region.y Region.width
                           Region.height Region.category Region.text].
  exists page, labelIdx, labelWord, nearbyIdx, w, label.
  split; [exact Hn|]. split; [exact Hl|]. split; [exact Hw|].
  split; [exact Hdiff|]. split; [exact Hlabel|]. split; [exact Hkey|].
  split; [exact Hlong|]. split; [exact Hlow|].
  split; [split; [exact Hb1 | split;
    [ apply (Qlt_le_trans _ _ _ Hb2); discriminate
    | apply (Qlt_le_trans _ _ _ Hbeside); discriminate ]]|].
  split; [exact Hcommon|]. split; [exact Hletters|]. split; [exact Hthree|].
  split; [repeat split|]. split; [split; [exact Hwide | exact Hhigh]|].
  split; reflexivity.
Qed.

Lemma fallback_region_below_label_witness :
  let r := hd (Region.mk 0 0 0 0 0 None None) (fallbackPass fallbackDoc) in
  exists page labelIdx labelWord nearbyIdx nearbyWord label,
    nth_error (Doc.pages fallbackDoc) (Region.pageIndex r) = Some page
    /\ nth_error (Page.words page) labelIdx = Some labelWord
    /\ nth_error (Page.words page) nearbyIdx = Some nearbyWord
    /\ nearbyIdx <> labelIdx
    (* the label *)
    /\ In label signatureLabels
    /\ (includes (toLowerCase (Word.content labelWord)) label = true
        \/ (4 < strlen label
            /\ includes (toLowerCase (Word.content labelWord))
                        (firstn 5 label) = true))
    /\ 3 < strlen (toLowerCase (Word.content labelWord))
    /\ (Page.height page * 0.5 <= centreY labelWord)%Q
    (* the word under it *)
    /\ (centreY labelWord < centreY nearbyWord
        /\ centreY nearbyWord - centreY labelWord < 1
        /\ Qabs (centreX nearbyWord - centreX labelWord) < 3)%Q
    /\ matches commonWord (Word.content nearbyWord) = false
    /\ matchesSomewhere threeLetters (Word.content nearbyWord) = true
    /\ 3 <= strlen (Word.content nearbyWord)
    (* the region *)
    /\ (let polygon := Word.polygon nearbyWord in
        let left := Qmin (x1 polygon) (x4 polygon) - 0.1 in
        let top := Qmin (y1 polygon) (y2 polygon) - 0.1 in
        Region.x r = toPoints (Page.unit page) left
        /\ Region.y r = toPoints (Page.unit page) top
        /\ Region.width r
           = toPoints (Page.unit page)
                      (Qmax (x2 polygon) (x3 polygon) - left + 0.2)
        /\ Region.height r
           = toPoints (Page.unit page)
                      (Qmax (y3 polygon) (y4 polygon) - top + 0.2))%Q
    /\ (20 < Region.width r /\ 10 < Region.height r)%Q
    /\ Region.category r = Some (utf16 "Signature")
    /\ Region.text r
       = Some (utf16 "[Signature (fallback): " ++ Word.content nearbyWord
               ++ utf16 "]").
Proof.
  cbv zeta. apply (fallback_region_below_label fallbackDoc).
  vm_compute. left. reflexivity.
Defined.

(** A word with the first five letters of the label
    ["datum/unterschrift"] is taken for a label: the place under the date
    becomes a signature region. *)
Example fallback_label_by_prefix :
  isSignatureLabel (toLowerCase (utf16 "Datum")) = true
  /\ existsb (includes (toLowerCase (utf16 "Datum"))) signatureLabels = false
  /\ map Region.text (detectSignaturesFromStyles dateDoc)
     = [Some (utf16 "[Signature (fallback): Berlin]")].
Proof. repeat split; vm_compute; reflexivity. Qed.

(** The box of the fallback pass is not clamped: at the left edge of the
    page it starts left of the page. *)
Example fallback_region_left_of_page :
  map Region.x (detectSignaturesFromStyles fallbackDoc) = [(-0.1 * 72)%Q].
Proof. vm_compute. reflexivity. Qed.
(** ** NER collaborator: the chunks *)

Lemma chunks_concat (lang text : jsstring) (count : nat) :
  forall o : Z,
    0 <= o ->
    count = chunkCount (strlen text - o) ->
    List.concat (map (fun o => inputText (chunkInput lang text o))
                (chunkOffsetsFrom o count))
    = skipn (Z.to_nat o) text.
Proof.
  unfold chunkCount, CHUNK_SIZE.
  induction count as [|count IH]; intros o Ho Hcount.
  - assert (strlen text <= o).
    { destruct (Z_le_gt_dec (strlen text) o) as [H|H]; [exact H|].
      assert (1 <= (strlen text - o + 5000 - 1) / 5000)
        by (apply Z.div_le_lower_bound; lia).
      lia. }
    simpl. symmetry. apply skipn_all2. unfold strlen in *. lia.
  - rewrite chunkOffsetsFrom_S. cbn [map List.concat].
    rewrite (IH (o + CHUNK_SIZE)); unfold CHUNK_SIZE.
    + cbn [chunkInput inputText]. unfold CHUNK_SIZE.
      rewrite substring_inside by lia.
      replace (o + 5000 - o) with 5000 by lia.
      replace (Z.to_nat (o + 5000)) with (Z.to_nat 5000 + Z.to_nat o)%nat by lia.
      rewrite <- skipn_skipn. apply firstn_skipn.
    + lia.
    + replace (strlen text - (o + 5000) + 5000 - 1)
        with ((strlen text - o + 5000 - 1) + (-1) * 5000) by lia.
      rewrite Z.div_add by lia. lia.
Qed.

Lemma chunkOffsetsFrom_In (start : Z) (count : nat) (o : Z) :
  In o (chunkOffsetsFrom start count) ->
  exists i, (i < count)%nat /\ o = start + Z.of_nat i * CHUNK_SIZE.
Proof.
  unfold chunkOffsetsFrom. intros H. apply in_map_iff in H as (i & <- & H).
  apply in_seq in H. exists i. split; [lia | reflexivity].
Qed.

(** X10: the chunks sent to the service cut the text without gap or
    overlap: joined in the order of the requests they give the text
    back, and each one has between 1 and 5000 code units. *)
Theorem chunks_partition_text (lang text : jsstring) :
  let offsets := chunkOffsetsFrom 0 (chunkCount (strlen text)) in
  List.concat (map (fun o => inputText (chunkInput lang text o)) offsets) = text
  /\ Forall (fun o => 0 < strlen (inputText (chunkInput lang text o))
                      <= CHUNK_SIZE) offsets.
Proof.
  cbv zeta. split.
  - rewrite (chunks_concat lang text (chunkCount (strlen text)) 0);
      [reflexivity | lia | f_equal; lia].
  - apply Forall_forall. intros o Ho.
    apply chunkOffsetsFrom_In in Ho as (i & Hi & ->).
    assert (Hlt : Z.of_nat i * 5000 < strlen text).
    { unfold chunkCount, CHUNK_SIZE in Hi.
      assert (Z.of_nat i < (strlen text + 5000 - 1) / 5000) by lia.
      assert (Z.of_nat i + 1 <= (strlen text + 5000 - 1) / 5000) by lia.
      pose proof (Z.mul_div_le (strlen text + 5000 - 1) 5000 ltac:(lia)).
      nia. }
    cbn [chunkInput inputText]. unfold CHUNK_SIZE in *.
    rewrite substring_inside by lia.
    unfold strlen in *. rewrite length_firstn, length_skipn. lia.
Qed.

(** X11: shifting the offset by the offset of the chunk makes the entity
    name the same code units of the full text as it named in its chunk. *)
Theorem adjustOffset_same_text (lang text : jsstring) (chunkOffset : Z)
    (entity : PIIEntity) :
  0 <= chunkOffset -> 0 <= offset entity -> 0 <= length entity ->
  offset entity + length entity
    <= strlen (inputText (chunkInput lang text chunkOffset)) ->
  let adjusted := adjustOffset chunkOffset entity in
  substring text (offset adjusted) (offset adjusted + length adjusted)
  = substring (inputText (chunkInput lang text chunkOffset))
              (offset entity) (offset entity + length entity).
Proof.
  intros Ho Hoff Hlen Hin. cbv zeta. cbn [adjustOffset offset length].
  cbn [chunkInput inputText] in *. unfold CHUNK_SIZE in *.
  rewrite !substring_inside by lia. rewrite substring_inside in Hin by lia.
  unfold strlen in Hin. rewrite length_firstn, length_skipn in Hin.
  replace (offset entity + chunkOffset + length entity
           - (offset entity + chunkOffset)) with (length entity) by lia.
  replace (offset entity + length entity - offset entity)
    with (length entity) by lia.
  replace (chunkOffset + 5000 - chunkOffset) with 5000 by lia.
  rewrite skipn_firstn_comm, firstn_firstn, skipn_skipn.
  f_equal; [lia | f_equal; lia].
Qed.

Lemma adjustOffset_same_text_witness :
  let entity := mkEntity (utf16 "aaa") (utf16 "Person") 3 3 0.9 in
  let adjusted := adjustOffset 5000 entity in
  substring longText (offset adjusted) (offset adjusted + length adjusted)
  = substring (inputText (chunkInput (utf16 "de") longText 5000))
              (offset entity) (offset entity + length entity).
Proof.
  cbv zeta.
  apply (adjustOffset_same_text (utf16 "de") longText 5000
           (mkEntity (utf16 "aaa") (utf16 "Person") 3 3 0.9));
    vm_compute; congruence.
Defined.

(** ** WhitelistFilter: the static whitelist *)

(** X12: a role word whitelists the whole entity: a text one of whose
    words (between single spaces, after normalisation) is a whitelisted
    role word is whitelisted, and the filter never keeps an entity with
    that text, whatever its category and whatever else the text holds. *)
Theorem role_word_whitelists_entity (excludeAddress : option jsstring)
    (entities : list PIIEntity) (entity : PIIEntity) (roleWord : jsstring) :
  In roleWord WHITELISTED_ROLE_WORDS ->
  In (normalizeText roleWord) (splitSpaces (normalizeText (text entity))) ->
  isWhitelisted (text entity) = true
  /\ ~ In entity (filteredEntities excludeAddress entities).
Proof.
  intros Hrole Hword.
  assert (Hw : isWhitelisted (text entity) = true).
  { unfold isWhitelisted. apply orb_true_iff. left. apply orb_true_iff. left.
    apply existsb_exists. exists roleWord. split; [exact Hrole|].
    apply orb_true_iff. left. apply orb_true_iff. right.
    unfold arrayIncludes. apply existsb_exists.
    exists (normalizeText roleWord). split; [exact Hword|].
    now apply streq_eq. }
  split; [exact Hw|].
  unfold filteredEntities. intros H. apply filter_In in H as [_ H].
  unfold keepEntity in H. rewrite Hw in H. discriminate.
Qed.

Lemma role_word_whitelists_entity_witness :
  let entity := mkEntity (utf16 "Notar Dr. Max Mustermann") (utf16 "Person")
                         0 24 0.9 in
  isWhitelisted (text entity) = true
  /\ ~ In entity (filteredEntities None [entity]).
Proof.
  cbv zeta.
  apply (role_word_whitelists_entity None
           [mkEntity (utf16 "Notar Dr. Max Mustermann") (utf16 "Person") 0 24 0.9]
           (mkEntity (utf16 "Notar Dr. Max Mustermann") (utf16 "Person") 0 24 0.9)
           (utf16 "Notar")).
  - vm_compute. tauto.
  - vm_compute. left. reflexivity.
Defined.

(** X13: the organisation and address whitelists match by containment in
    both directions: a text whose normal form is part of the normal form
    of a whitelisted organisation or address is whitelisted, and the
    filter never keeps an entity with that text.  This holds for every
    category, and for the text whose normal form is empty. *)
Theorem part_of_whitelisted_name_is_whitelisted
    (excludeAddress : option jsstring) (entities : list PIIEntity)
    (entity : PIIEntity) (listed : jsstring) :
  In listed (WHITELISTED_ORGANIZATIONS ++ WHITELISTED_ADDRESSES) ->
  includes (normalizeText listed) (normalizeText (text entity)) = true ->
  isWhitelisted (text entity) = true
  /\ ~ In entity (filteredEntities excludeAddress entities).
Proof.
  intros Hlisted Hpart.
  assert (Hw : isWhitelisted (text entity) = true).
  { unfold isWhitelisted. apply in_app_or in Hlisted as [Horg|Haddr].
    - apply orb_true_iff. left. apply orb_true_iff. right.
      apply existsb_exists. exists listed. split; [exact Horg|].
      rewrite Hpart. apply orb_true_r.
    - apply orb_true_iff. right.
      apply existsb_exists. exists listed. split; [exact Haddr|].
      rewrite Hpart. rewrite orb_true_r. reflexivity. }
  split; [exact Hw|].
  unfold filteredEntities. intros H. apply filter_In in H as [_ H].
  unfold keepEntity in H. rewrite Hw in H. discriminate.
Qed.

Lemma part_of_whitelisted_name_is_whitelisted_witness :
  let entity := mkEntity (utf16 "Brecht") (utf16 "Person") 0 6 0.9 in
  isWhitelisted (text entity) = true
  /\ ~ In entity (filteredEntities None [entity]).
Proof.
  cbv zeta.
  apply (part_of_whitelisted_name_is_whitelisted None
           [mkEntity (utf16 "Brecht") (utf16 "Person") 0 6 0.9]
           (mkEntity (utf16 "Brecht") (utf16 "Person") 0 6 0.9)
           (utf16 "PLETTNER & BRECHT IMMOBILIEN GMBH")).
  - vm_compute. tauto.
  - vm_compute. reflexivity.
Defined.

(** Texts of punctuation only have the empty normal form and are
    whitelisted. *)
Example punctuation_is_whitelisted :
  normalizeText (utf16 " -.- ") = [] /\ isWhitelisted (utf16 " -.- ") = true.
Proof. split; vm_compute; reflexivity. Qed.

(** ** WhitelistFilter: the similarity of two strings *)

Lemma firstRow_bounded (count : nat) (start : nat) :
  rowBounded 0 (Z.of_nat start) (map Z.of_nat (seq start count)).
Proof.
  revert start. induction count as [|count IH]; intros start; simpl; [exact I|].
  split; [lia|]. replace (Z.of_nat start + 1) with (Z.of_nat (S start)) by lia.
  apply IH.
Qed.

Lemma nextRow_length (c : N) (s2 : jsstring) :
  forall old lastValue,
    List.length old = S (List.length s2) ->
    List.length (nextRow c s2 old lastValue) = List.length s2.
Proof.
  induction s2 as [|d s2 IH]; intros old lastValue Hlen; [reflexivity|].
  destruct old as [|diagonal [|above old]]; try discriminate Hlen.
  cbn [nextRow List.length]. f_equal. apply IH. simpl in *. lia.
Qed.

Lemma nextRow_bounded (c : N) (i : Z) (s2 : jsstring) :
  forall old lastValue j,
    1 <= i -> 0 <= j ->
    rowBounded (i - 1) j old ->
    0 <= lastValue <= Z.max i j ->
    rowBounded i (j + 1) (nextRow c s2 old lastValue).
Proof.
  induction s2 as [|d s2 IH]; intros old lastValue j Hi Hj Hold Hlast;
    [exact I|].
  destruct old as [|diagonal [|above old]]; try exact I.
  cbn [nextRow]. cbn [rowBounded] in Hold.
  destruct Hold as (Hd & Ha & Hrest).
  set (newValue := if (c =? d)%N then diagonal
                   else Z.min (Z.min diagonal lastValue) above + 1).
  assert (Hnew : 0 <= newValue <= Z.max i (j + 1)).
  { unfold newValue. destruct (c =? d)%N; lia. }
  cbn [rowBounded]. split; [exact Hnew|].
  apply IH; [lia | lia | | exact Hnew].
  cbn [rowBounded]. split; [lia | exact Hrest].
Qed.

Lemma rowBounded_last (i : Z) (row : list Z) :
  forall j, 0 <= i -> 0 <= j -> rowBounded i j row ->
    0 <= last row 0 <= Z.max i (j + Z.of_nat (List.length row) - 1).
Proof.
  induction row as [|v row IH]; intros j Hi Hj H; [simpl; lia|].
  destruct H as [Hv Hrest]. destruct row as [|w row].
  - simpl. lia.
  - change (last (v :: w :: row) 0) with (last (w :: row) 0).
    specialize (IH (j + 1) Hi ltac:(lia) Hrest).
    cbn [List.length] in *. lia.
Qed.

Lemma editDistance_rows (s2 : jsstring) (s1 : jsstring) :
  forall i costs,
    1 <= i ->
    List.length costs = S (List.length s2) ->
    rowBounded (i - 1) 0 costs ->
    let '(i', costs') :=
      fold_left (fun '(i, costs) c => (i + 1, i :: nextRow c s2 costs i))
                s1 (i, costs) in
    i' = i + strlen s1
    /\ List.length costs' = S (List.length s2)
    /\ rowBounded (i' - 1) 0 costs'.
Proof.
  induction s1 as [|c s1 IH]; intros i costs Hi Hlen Hrow.
  - simpl. unfold strlen. simpl. repeat split; [lia | exact Hlen | ].
    now replace (i + 0 - 1) with (i - 1) by lia.
  - cbn [fold_left].
    specialize (IH (i + 1) (i :: nextRow c s2 costs i)).
    destruct (fold_left _ s1 (i + 1, i :: nextRow c s2 costs i)) as [i' costs'].
    destruct IH as (Hi' & Hlen' & Hrow').
    + lia.
    + cbn [List.length]. now rewrite nextRow_length.
    + replace (i + 1 - 1) with i by lia. cbn [rowBounded]. split; [lia|].
      apply (nextRow_bounded c i s2 costs i 0); [lia | lia | exact Hrow | lia].
    + repeat split; [| exact Hlen' | exact Hrow'].
      unfold strlen in *. cbn [List.length]. lia.
Qed.

Lemma editDistance_bounds (s1 s2 : jsstring) :
  0 <= editDistance s1 s2 <= Z.max (strlen s1) (strlen s2).
Proof.
  unfold editDistance.
  pose proof (editDistance_rows s2 s1 1
                (map Z.of_nat (seq 0 (S (List.length s2))))) as H.
  destruct (fold_left _ s1 _) as [i' costs'].
  destruct H as (Hi' & Hlen' & Hrow').
  - lia.
  - now rewrite length_map, length_seq.
  - apply (firstRow_bounded (S (List.length s2)) 0).
  - pose proof (rowBounded_last (i' - 1) costs' 0) as Hl.
    unfold strlen in *. rewrite Hlen' in Hl.
    specialize (Hl ltac:(lia) ltac:(lia) Hrow'). lia.
Qed.

(** X14: the similarity is a number between 0 and 1, for any two
    strings: the distance computed row by row is never negative and
    never more than the length of the longer string. *)
Theorem calculateSimilarity_in_unit_interval (str1 str2 : jsstring) :
  (0 <= calculateSimilarity str1 str2 <= 1)%Q.
Proof.
  unfold calculateSimilarity.
  set (longer := if strlen str1 >? strlen str2 then str1 else str2).
  set (shorter := if strlen str1 >? strlen str2 then str2 else str1).
  assert (Hls : strlen shorter <= strlen longer).
  { unfold longer, shorter.
    destruct (strlen str1 >? strlen str2) eqn:E; lia. }
  destruct (strlen longer =? 0) eqn:E0; [split; discriminate|].
  apply Z.eqb_neq in E0.
  assert (Hpos : 0 < strlen longer) by (unfold strlen in *; lia).
  pose proof (editDistance_bounds longer shorter) as Hd.
  assert (HposQ : (0 < inject_Z (strlen longer))%Q).
  { rewrite <- (Zlt_Qlt 0). exact Hpos. }
  split.
  - apply Qle_shift_div_l; [exact HposQ|].
    rewrite Qmult_0_l. rewrite <- (Zle_Qle 0). lia.
  - apply Qle_shift_div_r; [exact HposQ|].
    rewrite Qmult_1_l. rewrite <- Zle_Qle. lia.
Qed.

Lemma diagRow_S (i j : Z) (len : nat) :
  diagRow i j (S len) = Z.abs (i - j) :: diagRow i (j + 1) len.
Proof.
  unfold diagRow. cbn [seq map]. f_equal; [f_equal; lia|].
  rewrite <- seq_shift, map_map. apply map_ext. intros k. f_equal. lia.
Qed.

Lemma nextRow_diag (c : N) (i : Z) (s2 : jsstring) :
  forall j,
    (forall k d, nth_error s2 k = Some d -> j + Z.of_nat k = i - 1 -> d = c) ->
    nextRow c s2 (diagRow (i - 1) j (S (List.length s2))) (Z.abs (i - j))
    = diagRow i (j + 1) (List.length s2).
Proof.
  induction s2 as [|d s2 IH]; intros j Hc; [reflexivity|].
  cbn [List.length]. rewrite (diagRow_S (i - 1) j), (diagRow_S (i - 1) (j + 1)).
  cbn [nextRow]. rewrite (diagRow_S i (j + 1)).
  assert (Hnew : (if (c =? d)%N then Z.abs (i - 1 - j)
                  else Z.min (Z.min (Z.abs (i - 1 - j)) (Z.abs (i - j)))
                             (Z.abs (i - 1 - (j + 1))) + 1)
                 = Z.abs (i - (j + 1))).
  { destruct (c =? d)%N eqn:E; [f_equal; lia|].
    apply N.eqb_neq in E.
    assert (j <> i - 1).
    { intros Hj. apply E. symmetry. apply (Hc 0%nat d); [reflexivity | lia]. }
    lia. }
  rewrite Hnew. f_equal.
  rewrite <- (diagRow_S (i - 1) (j + 1)). apply IH.
  intros k e Hk Hj. apply (Hc (S k) e); [exact Hk | lia].
Qed.

Lemma editDistance_same_rows (s : jsstring) (rest : jsstring) :
  forall i : nat,
    (i <= List.length s)%nat ->
    skipn i s = rest ->
    snd (fold_left (fun '(i, costs) c => (i + 1, i :: nextRow c s costs i))
                   rest
                   (Z.of_nat i + 1, diagRow (Z.of_nat i) 0 (S (List.length s))))
    = diagRow (strlen s) 0 (S (List.length s)).
Proof.
  induction rest as [|c rest IH]; intros i Hi Hskip.
  - simpl. unfold strlen.
    assert (H : List.length (skipn i s) = 0%nat) by now rewrite Hskip.
    rewrite length_skipn in H. do 2 f_equal. lia.
  - cbn [fold_left].
    assert (Hlen : List.length (skipn i s) = S (List.length rest))
      by now rewrite Hskip.
    rewrite length_skipn in Hlen.
    assert (Hnth : nth_error s i = Some c).
    { rewrite <- (firstn_skipn i s) at 1.
      rewrite nth_error_app2 by (rewrite length_firstn; lia).
      rewrite length_firstn, Hskip.
      replace (i - Nat.min i (List.length s))%nat with 0%nat by lia.
      reflexivity. }
    pose proof (nextRow_diag c (Z.of_nat i + 1) s 0) as Hrow.
    replace (Z.of_nat i + 1 - 1) with (Z.of_nat i) in Hrow by lia.
    replace (Z.abs (Z.of_nat i + 1 - 0)) with (Z.of_nat i + 1) in Hrow by lia.
    rewrite Hrow.
    + specialize (IH (S i) ltac:(lia)).
      replace (Z.of_nat (S i)) with (Z.of_nat i + 1) in IH by lia.
      rewrite (diagRow_S (Z.of_nat i + 1) 0) in IH.
      replace (Z.abs (Z.of_nat i + 1 - 0)) with (Z.of_nat i + 1) in IH by lia.
      apply IH.
      rewrite <- (Nat.add_1_l i), <- skipn_skipn, Hskip. reflexivity.
    + intros k d Hk Hj. assert (k = i) by lia. subst k. congruence.
Qed.

Lemma editDistance_same (s : jsstring) : editDistance s s = 0.
Proof.
  unfold editDistance.
  pose proof (editDistance_same_rows s s 0 ltac:(lia) eq_refl) as H.
  assert (Hfirst : map Z.of_nat (seq 0 (S (List.length s)))
                   = diagRow 0 0 (S (List.length s))).
  { unfold diagRow. apply map_ext. intros k. lia. }
  rewrite Hfirst. change (Z.of_nat 0 + 1) with 1 in H.
  change (Z.of_nat 0) with 0 in H.
  destruct (fold_left _ s _) as [i' costs']. simpl in H. subst costs'.
  unfold diagRow. rewrite seq_S, map_app. cbn [map]. rewrite last_last.
  unfold strlen. lia.
Qed.

(** X15: two equal strings have similarity 1. *)
Theorem calculateSimilarity_same (s : jsstring) :
  (calculateSimilarity s s == 1)%Q.
Proof.
  unfold calculateSimilarity.
  rewrite Z.gtb_ltb, Z.ltb_irrefl.
  destruct (strlen s =? 0) eqn:E0; [reflexivity|].
  apply Z.eqb_neq in E0. rewrite editDistance_same, Z.sub_0_r.
  apply Qmult_inv_r. intros H.
  apply E0. now apply (inject_Z_injective (strlen s) 0).
Qed.

(** ** WhitelistFilter: what a normalised text looks like *)

Lemma lowerUnits_no_upper (c : N) :
  Forall (fun d => inRange 65 90 d = false) (lowerUnits c).
Proof.
  unfold lowerUnits.
  destruct (inRange 65 90 c) eqn:E1.
  { constructor; [|constructor]. unfold inRange in *.
    apply andb_true_iff in E1 as [H1 H2].
    apply N.leb_le in H1, H2. apply andb_false_iff. right.
    apply N.leb_gt. lia. }
  destruct (inRange 192 222 c && negb (c =? 215)%N) eqn:E2.
  { constructor; [|constructor]. unfold inRange in *.
    apply andb_true_iff in E2 as [E2 _].
    apply andb_true_iff in E2 as [H1 H2].
    apply N.leb_le in H1, H2. apply andb_false_iff. right.
    apply N.leb_gt. lia. }
  destruct (c =? 304)%N; [repeat constructor|].
  destruct (c =? 376)%N; [repeat constructor|].
  destruct (c =? 7838)%N; [repeat constructor|].
  destruct (c =? 8490)%N; [repeat constructor|].
  destruct (c =? 8491)%N; [repeat constructor|].
  constructor; [exact E1 | constructor].
Qed.

Lemma toLowerCase_no_upper (s : jsstring) :
  Forall (fun d => inRange 65 90 d = false) (toLowerCase s).
Proof.
  unfold toLowerCase. induction s as [|c s IH]; simpl; [constructor|].
  apply Forall_app. split; [apply lowerUnits_no_upper | exact IH].
Qed.

Lemma replaceClass_Forall (P Q : N -> Prop) (cls : N -> bool)
    (by_ s : jsstring) :
  (forall c, P c -> cls c = false -> Q c) ->
  Forall Q by_ -> Forall P s -> Forall Q (replaceClass cls by_ s).
Proof.
  intros HPQ Hby Hs. unfold replaceClass.
  induction Hs as [|c s Hc Hs IH]; simpl; [constructor|].
  apply Forall_app. split; [|exact IH].
  destruct (cls c) eqn:E; [exact Hby | constructor; [auto | constructor]].
Qed.

Lemma replaceRuns_Forall (P Q : N -> Prop) (cls : N -> bool)
    (by_ s : jsstring) :
  (forall c, P c -> cls c = false -> Q c) ->
  Forall Q by_ -> Forall P s ->
  forall inRun, Forall Q (replaceRuns cls by_ inRun s).
Proof.
  intros HPQ Hby Hs.
  induction Hs as [|c s Hc Hs IH]; intros inRun; simpl; [constructor|].
  destruct (cls c) eqn:E.
  - destruct inRun; [apply IH | apply Forall_app; split; [exact Hby | apply IH]].
  - constructor; [auto | apply IH].
Qed.

Lemma replaceLiteralFrom_Forall (P : N -> Prop) (fold : N -> N)
    (lit by_ s : jsstring) :
  Forall P by_ -> Forall P s ->
  forall skip, Forall P (replaceLiteralFrom fold lit by_ skip s).
Proof.
  intros Hby Hs.
  induction Hs as [|c s Hc Hs IH]; intros skip; [constructor|].
  cbn [replaceLiteralFrom]. destruct skip as [|skip]; [|apply IH].
  destruct (startsWith _ _).
  - apply Forall_app. split; [exact Hby | apply IH].
  - constructor; [exact Hc | apply IH].
Qed.

Lemma replaceWordFrom_Forall (P : N -> Prop) (fold : N -> N)
    (lit by_ s : jsstring) :
  Forall P by_ -> Forall P s ->
  forall skip prev, Forall P (replaceWordFrom fold lit by_ skip prev s).
Proof.
  intros Hby Hs.
  induction Hs as [|c s Hc Hs IH]; intros skip prev; [constructor|].
  cbn [replaceWordFrom]. destruct skip as [|skip]; [|apply IH].
  destruct (_ && _).
  - apply Forall_app. split; [exact Hby | apply IH].
  - constructor; [exact Hc | apply IH].
Qed.

Lemma dropWhile_suffix {A} (f : A -> bool) (l : list A) :
  exists taken, l = taken ++ dropWhile f l /\ Forall (fun x => f x = true) taken.
Proof.
  induction l as [|x l (taken & IH & Ht)]; [exists []; split; [reflexivity | constructor]|].
  simpl. destruct (f x) eqn:E.
  - exists (x :: taken). split; [simpl; now f_equal | now constructor].
  - exists []. split; [reflexivity | constructor].
Qed.

Lemma dropWhile_Forall {A} (P : A -> Prop) (f : A -> bool) (l : list A) :
  Forall P l -> Forall P (dropWhile f l).
Proof.
  intros H. destruct (dropWhile_suffix f l) as (taken & E & _).
  rewrite E in H. now apply Forall_app in H.
Qed.

Lemma trim_Forall (P : N -> Prop) (s : jsstring) :
  Forall P s -> Forall P (trim s).
Proof.
  intros H. unfold trim.
  apply Forall_rev, dropWhile_Forall, Forall_rev, dropWhile_Forall, H.
Qed.

(** X16: the alphabet of a normalised text: whatever the text, its
    normal form has no upper-case ASCII letter, none of the letters
    U+00DF, U+00E4, U+00F6 and U+00FC, no comma, hyphen or full stop, and
    no white space other than the space. *)
Theorem normalizeText_alphabet (t : jsstring) :
  forallb normalChar (normalizeText t) = true.
Proof.
  apply forallb_forall, Forall_forall. unfold normalizeText.
  set (P4 := fun c : N => inRange 65 90 c = false
                          /\ oneOf [223; 228; 246; 252]%N c = false).
  assert (Hstrasse : Forall P4 (utf16 "strasse"))
    by (repeat constructor).
  apply trim_Forall.
  apply replaceRuns_Forall
    with (P := fun c => P4 c /\ oneOf (utf16 ",-.") c = false);
    [ | repeat constructor | ].
  { intros c [[H1 H2] H3] H4. unfold normalChar.
    rewrite H1, H2, H3, H4. reflexivity. }
  apply replaceClass_Forall with (P := P4); [ | repeat constructor | ].
  { intros c H1 H2. split; [exact H1|].
    apply orb_false_iff in H2. tauto. }
  apply replaceWordFrom_Forall; [exact Hstrasse|].
  apply replaceLiteralFrom_Forall; [exact Hstrasse|].
  assert (Hone : forall (others : jsstring) (k c : N),
             (inRange 65 90 c = false /\ oneOf others c = false) ->
             (k =? c)%N = false ->
             inRange 65 90 c = false /\ oneOf (others ++ [k]) c = false).
  { intros others k c [H1 H2] H3. split; [exact H1|].
    unfold oneOf in *. rewrite existsb_app, H2. simpl.
    rewrite N.eqb_sym, H3. reflexivity. }
  apply replaceClass_Forall
    with (P := fun c => inRange 65 90 c = false
                        /\ oneOf [223; 228; 246]%N c = false);
    [exact (Hone [223; 228; 246]%N 252%N) | repeat constructor | ].
  apply replaceClass_Forall
    with (P := fun c => inRange 65 90 c = false
                        /\ oneOf [223; 228]%N c = false);
    [exact (Hone [223; 228]%N 246%N) | repeat constructor | ].
  apply replaceClass_Forall
    with (P := fun c => inRange 65 90 c = false
                        /\ oneOf [223]%N c = false);
    [exact (Hone [223]%N 228%N) | repeat constructor | ].
  apply replaceClass_Forall
    with (P := fun c => inRange 65 90 c = false
                        /\ oneOf [] c = false);
    [exact (Hone [] 223%N) | repeat constructor | ].
  eapply Forall_impl; [|apply toLowerCase_no_upper].
  intros c H. split; [exact H | reflexivity].
Qed.

Lemma singleSpaced_tail (c : N) (s : jsstring) :
  singleSpaced (c :: s) = true -> singleSpaced s = true.
Proof.
  destruct s as [|d s]; [reflexivity|]. cbn [singleSpaced].
  intros H. now apply andb_true_iff in H.
Qed.

Lemma singleSpaced_suffix (p s : jsstring) :
  singleSpaced (p ++ s) = true -> singleSpaced s = true.
Proof.
  induction p as [|c p IH]; intros H; [exact H|].
  apply IH. exact (singleSpaced_tail c _ H).
Qed.

Lemma singleSpaced_prefix (s q : jsstring) :
  singleSpaced (s ++ q) = true -> singleSpaced s = true.
Proof.
  induction s as [|a s IH]; intros H; [reflexivity|].
  destruct s as [|b s]; [reflexivity|].
  change (singleSpaced (a :: b :: s ++ q) = true) in H.
  cbn [singleSpaced] in *.
  apply andb_true_iff in H as [H1 H2]. rewrite H1. apply IH, H2.
Qed.

Lemma replaceRuns_singleSpaced (s : jsstring) :
  forall inRun,
    singleSpaced (replaceRuns isWhiteSpace space inRun s) = true
    /\ (inRun = true ->
        forall c, hd_error (replaceRuns isWhiteSpace space inRun s) = Some c ->
                  isWhiteSpace c = false).
Proof.
  induction s as [|c s IH]; intros inRun; [split; [reflexivity | discriminate]|].
  cbn [replaceRuns].
  destruct (isWhiteSpace c) eqn:E.
  - destruct inRun; [apply IH|]. split; [|discriminate].
    destruct (IH true) as [H1 H2]. unfold space. cbn [app].
    destruct (replaceRuns isWhiteSpace [32%N] true s) as [|d u] eqn:Eu;
      [reflexivity|].
    unfold space in *. rewrite Eu in *.
    change (negb (isWhiteSpace 32 && isWhiteSpace d)
            && singleSpaced (d :: u) = true).
    apply andb_true_iff. split; [|exact H1].
    now rewrite (H2 eq_refl d eq_refl), andb_false_r.
  - destruct (IH false) as [H1 _]. split.
    + destruct (replaceRuns isWhiteSpace space false s) as [|d u] eqn:Eu;
        [reflexivity|].
      change (negb (isWhiteSpace c && isWhiteSpace d)
              && singleSpaced (d :: u) = true).
      apply andb_true_iff. split; [now rewrite E | exact H1].
    + intros _ d Hd. injection Hd as <-. exact E.
Qed.

Lemma dropWhile_hd {A} (f : A -> bool) (l : list A) (c : A) :
  hd_error (dropWhile f l) = Some c -> f c = false.
Proof.
  induction l as [|x l IH]; simpl; [discriminate|].
  destruct (f x) eqn:E; [exact IH|]. intros H. injection H as <-. exact E.
Qed.

Lemma dropWhile_app_stop {A} (f : A -> bool) (l : list A) (c : A) :
  f c = false -> dropWhile f (l ++ [c]) = dropWhile f l ++ [c].
Proof.
  intros Hc. induction l as [|x l IH]; simpl; [now rewrite Hc|].
  destruct (f x); [exact IH | reflexivity].
Qed.

(** [trim] cuts a piece out of the string; the piece neither begins nor
    ends with white space. *)
Lemma trim_infix (s : jsstring) :
  exists before after, s = before ++ trim s ++ after.
Proof.
  unfold trim.
  destruct (dropWhile_suffix isWhiteSpace s) as (t1 & E1 & _).
  destruct (dropWhile_suffix isWhiteSpace (rev (dropWhile isWhiteSpace s)))
    as (t2 & E2 & _).
  exists t1, (rev t2). rewrite <- rev_app_distr, <- E2, rev_involutive.
  exact E1.
Qed.

Lemma trim_ends (s : jsstring) (c : N) :
  hd_error (trim s) = Some c \/ hd_error (rev (trim s)) = Some c ->
  isWhiteSpace c = false.
Proof.
  unfold trim. rewrite rev_involutive.
  intros [H|H]; [|exact (dropWhile_hd _ _ _ H)].
  destruct (dropWhile isWhiteSpace s) as [|c0 y] eqn:Ey; [discriminate H|].
  assert (Hc0 : isWhiteSpace c0 = false).
  { apply (dropWhile_hd isWhiteSpace s). now rewrite Ey. }
  cbn [rev] in H. rewrite dropWhile_app_stop in H by exact Hc0.
  rewrite rev_app_distr in H. simpl in H. now injection H as <-.
Qed.

Lemma rev_hd_tail (a : N) (s : jsstring) (P : N -> Prop) :
  s <> [] ->
  (forall c, hd_error (rev (a :: s)) = Some c -> P c) ->
  forall c, hd_error (rev s) = Some c -> P c.
Proof.
  intros Hs H c Hc. apply H. cbn [rev].
  destruct (rev s) as [|x r] eqn:Er; [discriminate Hc | exact Hc].
Qed.

(** Cut at the spaces, a string that is single-spaced and does not end
    with white space has no empty piece after the first, and its first
    piece is empty only if it begins with a space. *)
Lemma splitOn_pieces (s : jsstring) :
  s <> [] ->
  singleSpaced s = true ->
  (forall c, hd_error (rev s) = Some c -> isWhiteSpace c = false) ->
  exists piece pieces,
    splitOn (N.eqb 32) s = piece :: pieces
    /\ Forall (fun w => w <> []) pieces
    /\ (piece = [] -> hd_error s = Some 32%N).
Proof.
  induction s as [|a s IH]; intros Hne Hs Hlast; [contradiction|].
  destruct s as [|b s].
  - cbn [splitOn]. destruct (32 =? a)%N eqn:Ea.
    + apply N.eqb_eq in Ea. subst a.
      specialize (Hlast 32%N eq_refl). discriminate.
    + exists [a], []. repeat split; [constructor | discriminate].
  - destruct IH as (piece & pieces & E & Hp & Hfirst);
      [discriminate | exact (singleSpaced_tail _ _ Hs)
       | apply (rev_hd_tail a); [discriminate | exact Hlast] |].
    change (splitOn (N.eqb 32) (a :: b :: s))
      with (if (32 =? a)%N then [] :: splitOn (N.eqb 32) (b :: s)
            else match splitOn (N.eqb 32) (b :: s) with
                 | piece :: pieces => (a :: piece) :: pieces
                 | [] => [[a]]
                 end).
    rewrite E. destruct (32 =? a)%N eqn:Ea.
    + apply N.eqb_eq in Ea. subst a.
      exists [], (piece :: pieces). repeat split.
      constructor; [|exact Hp].
      intros ->. specialize (Hfirst eq_refl). injection Hfirst as ->.
      discriminate Hs.
    + exists (a :: piece), pieces. repeat split; [exact Hp | discriminate].
Qed.

(** X17: the spacing of a normalised text: whatever the text, its normal
    form has no two white-space code units in a row and neither begins
    nor ends with one; cut at the spaces, a normal form that is not empty
    has no empty word. *)
Theorem normalizeText_spacing (t : jsstring) :
  singleSpaced (normalizeText t) = true
  /\ (forall c, hd_error (normalizeText t) = Some c -> isWhiteSpace c = false)
  /\ (forall c, hd_error (rev (normalizeText t)) = Some c ->
                isWhiteSpace c = false)
  /\ (normalizeText t <> [] ->
      Forall (fun w => w <> []) (splitSpaces (normalizeText t))).
Proof.
  assert (Hshape :
    singleSpaced (normalizeText t) = true
    /\ (forall c, hd_error (normalizeText t) = Some c -> isWhiteSpace c = false)
    /\ (forall c, hd_error (rev (normalizeText t)) = Some c ->
                  isWhiteSpace c = false)).
  { unfold normalizeText.
    set (u := replaceRuns isWhiteSpace space false _).
    split; [|split; intros c H; apply (trim_ends u); auto].
    destruct (trim_infix u) as (before & after & E).
    assert (H : singleSpaced u = true) by apply replaceRuns_singleSpaced.
    rewrite E in H.
    apply singleSpaced_suffix in H. now apply singleSpaced_prefix in H. }
  destruct Hshape as (Hs & Hfirst & Hlast).
  repeat split; try assumption.
  intros Hne. unfold splitSpaces.
  destruct (splitOn_pieces _ Hne Hs Hlast) as (piece & pieces & E & Hp & Hpiece).
  rewrite E. constructor; [|exact Hp].
  intros ->. specialize (Hfirst _ (Hpiece eq_refl)). discriminate.
Qed.

(** ** PatternDetectorBank: the checks after the card and code patterns *)

Lemma replaceClass_app (cls : N -> bool) (by_ a b : jsstring) :
  replaceClass cls by_ (a ++ b)
  = replaceClass cls by_ a ++ replaceClass cls by_ b.
Proof. unfold replaceClass. apply flat_map_app. Qed.

(** What is left of a piece when the code units of [sep] are taken out:
    all of a piece of [n] code units outside [sep], nothing of an
    optional code unit of [sep]. *)
Lemma cleaned_Times (sep cls : N -> bool) (n : nat) (s : jsstring) :
  (forall c, cls c = true -> sep c = false) ->
  Matches (Times n (Chr cls)) s ->
  List.length (replaceClass sep [] s) = n.
Proof.
  intros Hcls. revert s. induction n as [|n IH]; intros s H; cbn [Times] in H.
  - apply Matches_Eps_inv in H. now subst s.
  - apply Matches_Seq_inv in H as (s1 & s2 & -> & H1 & H2).
    apply Matches_Chr_inv in H1 as (c & -> & Hc).
    cbn [app]. unfold replaceClass in *. cbn [flat_map].
    rewrite (Hcls c Hc). cbn [app List.length]. f_equal. now apply IH.
Qed.

Lemma cleaned_Chr (sep cls : N -> bool) (s : jsstring) :
  (forall c, cls c = true -> sep c = false) ->
  Matches (Chr cls) s ->
  List.length (replaceClass sep [] s) = 1%nat.
Proof.
  intros Hcls H. apply (cleaned_Times sep cls 1 s Hcls).
  cbn [Times]. rewrite <- (app_nil_r s). constructor; [exact H | constructor].
Qed.

Lemma cleaned_separator (sep cls : N -> bool) (s : jsstring) :
  (forall c, cls c = true -> sep c = true) ->
  Matches (Opt (Chr cls)) s ->
  List.length (replaceClass sep [] s) = 0%nat.
Proof.
  intros Hcls H. apply Matches_Alt_inv in H as [H|H].
  - apply Matches_Chr_inv in H as (c & -> & Hc).
    unfold replaceClass. cbn [flat_map]. now rewrite (Hcls c Hc).
  - apply Matches_Eps_inv in H. now subst s.
Qed.

Lemma between_not_white (c : N) :
  (33 <= c <= 159)%N -> isWhiteSpace c = false.
Proof.
  intros H. unfold isWhiteSpace, inRange.
  repeat (apply orb_false_intro);
    first [ apply N.eqb_neq; lia
          | apply andb_false_iff; left; apply N.leb_gt; lia
          | apply andb_false_iff; right; apply N.leb_gt; lia ].
Qed.

Lemma inRange_spec (lo hi c : N) :
  inRange lo hi c = true <-> (lo <= c <= hi)%N.
Proof.
  unfold inRange. rewrite andb_true_iff, !N.leb_le. tauto.
Qed.

Lemma digit_not_separator (c : N) :
  isDigit c = true -> isWhiteSpace c || (c =? 45)%N = false.
Proof.
  intros H. apply inRange_spec in H. apply orb_false_intro.
  - apply between_not_white. lia.
  - apply N.eqb_neq. lia.
Qed.

(** X18: the check after the card pattern rejects nothing: whatever the
    pattern matches has sixteen digits once its separators are taken
    out, so every match is pushed as a [CreditCardNumber] entity. *)
Theorem credit_card_match_always_emitted (candidate : jsstring) :
  matches creditCardPattern candidate = true ->
  creditCardEmitted candidate = true.
Proof.
  intros H. apply matches_spec in H. unfold creditCardPattern in H.
  apply Matches_Seq_inv in H as (d1 & r & -> & Hd1 & H).
  apply Matches_Seq_inv in H as (p1 & r1 & -> & Hp1 & H).
  apply Matches_Seq_inv in H as (d2 & r2 & -> & Hd2 & H).
  apply Matches_Seq_inv in H as (p2 & r3 & -> & Hp2 & H).
  apply Matches_Seq_inv in H as (d3 & r4 & -> & Hd3 & H).
  apply Matches_Seq_inv in H as (p3 & d4 & -> & Hp3 & Hd4).
  unfold creditCardEmitted, strlen. rewrite !replaceClass_app, !length_app.
  rewrite (cleaned_Times _ _ 4 d1 digit_not_separator Hd1).
  rewrite (cleaned_Times _ _ 4 d2 digit_not_separator Hd2).
  rewrite (cleaned_Times _ _ 4 d3 digit_not_separator Hd3).
  rewrite (cleaned_Times _ _ 4 d4 digit_not_separator Hd4).
  rewrite (cleaned_separator _ _ p1 (fun c H => H) Hp1).
  rewrite (cleaned_separator _ _ p2 (fun c H => H) Hp2).
  rewrite (cleaned_separator _ _ p3 (fun c H => H) Hp3).
  reflexivity.
Qed.

Lemma credit_card_match_always_emitted_witness :
  creditCardEmitted (utf16 "0000 0000-00000000") = true.
Proof.
  apply (credit_card_match_always_emitted (utf16 "0000 0000-00000000")).
  vm_compute. reflexivity.
Defined.

Lemma bicCode_cleaned (letter : N -> bool) (s : jsstring) :
  (forall c, letter c = true -> isWhiteSpace c = false) ->
  Matches (bicCode letter) s ->
  List.length (replaceClass isWhiteSpace [] s) = 8%nat
  \/ List.length (replaceClass isWhiteSpace [] s) = 11%nat.
Proof.
  intros Hletter H. unfold bicCode in H.
  assert (Halnum : forall c, letter c || isDigit c = true ->
                             isWhiteSpace c = false).
  { intros c Hc. apply orb_true_iff in Hc as [Hc|Hc]; [auto|].
    apply inRange_spec in Hc. apply between_not_white. lia. }
  apply Matches_Seq_inv in H as (l4 & r & -> & Hl4 & H).
  apply Matches_Seq_inv in H as (b1 & r1 & -> & Hb1 & H).
  apply Matches_Seq_inv in H as (l2 & r2 & -> & Hl2 & H).
  apply Matches_Seq_inv in H as (b2 & r3 & -> & Hb2 & H).
  apply Matches_Seq_inv in H as (a1 & r4 & -> & Ha1 & H).
  apply Matches_Seq_inv in H as (b3 & r5 & -> & Hb3 & H).
  apply Matches_Seq_inv in H as (a2 & r6 & -> & Ha2 & H).
  apply Matches_Seq_inv in H as (b4 & branch & -> & Hb4 & Hbranch).
  rewrite !replaceClass_app, !length_app.
  rewrite (cleaned_Times _ _ 4 l4 Hletter Hl4).
  rewrite (cleaned_Times _ _ 2 l2 Hletter Hl2).
  rewrite (cleaned_Chr _ _ a1 Halnum Ha1).
  rewrite (cleaned_Chr _ _ a2 Halnum Ha2).
  rewrite (cleaned_separator _ _ b1 (fun c H => H) Hb1).
  rewrite (cleaned_separator _ _ b2 (fun c H => H) Hb2).
  rewrite (cleaned_separator _ _ b3 (fun c H => H) Hb3).
  rewrite (cleaned_separator _ _ b4 (fun c H => H) Hb4).
  apply Matches_Alt_inv in Hbranch as [H3|H0].
  - rewrite (cleaned_Times _ _ 3 branch Halnum H3). now right.
  - apply Matches_Eps_inv in H0. subst branch. now left.
Qed.

(** X19: the length check after the two code patterns rejects nothing:
    whatever their group matches has 8 or 11 code units once its white
    space is taken out, so every match is pushed as a [SWIFTCode]
    entity; without the keyword that is every run of eight capital
    letters between word boundaries. *)
Theorem bic_match_always_emitted (bicWithSpaces : jsstring) :
  matches bicPattern bicWithSpaces = true
  \/ matches bicWithKeywordCode bicWithSpaces = true ->
  bicEmitted bicWithSpaces = true.
Proof.
  intros H.
  assert (Hlen : List.length (replaceClass isWhiteSpace [] bicWithSpaces) = 8%nat
                 \/ List.length (replaceClass isWhiteSpace [] bicWithSpaces)
                    = 11%nat).
  { destruct H as [H|H]; apply matches_spec in H;
      apply (bicCode_cleaned _ _) in H; try exact H.
    - intros c Hc. apply inRange_spec in Hc. apply between_not_white. lia.
    - intros c Hc. apply inRange_spec in Hc. apply between_not_white.
      unfold foldAscii in Hc. destruct (inRange 65 90 c) eqn:E; [|lia].
      apply inRange_spec in E. lia. }
  unfold bicEmitted, strlen. destruct Hlen as [-> | ->]; reflexivity.
Qed.

Lemma bic_match_always_emitted_witness :
  bicEmitted (utf16 "FACHMANN") = true.
Proof.
  apply (bic_match_always_emitted (utf16 "FACHMANN")).
  left. vm_compute. reflexivity.
Defined.

(** ** OCR and language collaborators *)

(** X20: [detectLanguage] never fails and never returns the empty
    string, whatever the service answers, and its result depends on the
    first 1000 code units of the text only. *)
Theorem detectLanguage_total (postLanguage : jsstring -> LanguageSettled)
    (text other : jsstring) :
  detectLanguage postLanguage text <> []
  /\ (firstn 1000 text = firstn 1000 other ->
      detectLanguage postLanguage text = detectLanguage postLanguage other).
Proof.
  split.
  - unfold detectLanguage.
    destruct (postLanguage _) as [[[|c l]|]|]; simpl; discriminate.
  - intros H. unfold detectLanguage.
    rewrite !substring_inside by lia. simpl Z.to_nat. cbn [skipn].
    change (Pos.to_nat 1000) with 1000%nat. now rewrite H.
Qed.

Section PollFacts.
Variable poll : nat -> PollSettled.

Lemma pollLoop_skips (waiting : nat) :
  forall fuel made,
    (forall j, (made <= j < made + waiting)%nat ->
               exists result, poll j = PollResolved (utf16 "running") result
                              \/ poll j = PollResolved (utf16 "notStarted") result) ->
    pollLoop poll (waiting + fuel) made = pollLoop poll fuel (made + waiting).
Proof.
  induction waiting as [|waiting IH]; intros fuel made Hwait.
  - simpl. now rewrite Nat.add_0_r.
  - cbn [Nat.add pollLoop].
    destruct (Hwait made ltac:(lia)) as (result & [E|E]); rewrite E;
      cbn [streq stillRunning]; simpl;
      (rewrite IH; [f_equal; lia | intros j Hj; apply Hwait; lia]).
Qed.
End PollFacts.

(** X21: the wait for the OCR result is decided by the first poll whose
    status is neither ['running'] nor ['notStarted']: after [waiting]
    polls with one of these two, a poll with any status other than
    ['failed'] ends the wait with its [analyzeResult], present or not;
    the status is not compared with ['succeeded']. *)
Theorem ocr_wait_ends_on_first_other_status (poll : nat -> PollSettled)
    (location : jsstring) (upload : option Doc.t)
    (waiting fuel : nat) (status : jsstring) (result : option Doc.t) :
  location <> [] ->
  (forall j, (j < waiting)%nat ->
             exists r, poll j = PollResolved (utf16 "running") r
                       \/ poll j = PollResolved (utf16 "notStarted") r) ->
  poll waiting = PollResolved status result ->
  streq status (utf16 "failed") = false ->
  stillRunning status = false ->
  extractTextWithAzureDocIntel
    (AnalyzeResolved 202 (Some location) upload) poll (waiting + S fuel)
  = Some (Returns result).
Proof.
  intros Hloc Hwait Hpoll Hfailed Hrunning.
  unfold extractTextWithAzureDocIntel. simpl (202 =? 202).
  destruct location as [|c location]; [contradiction|]. cbv iota.
  rewrite (pollLoop_skips poll waiting (S fuel) 0)
    by (intros j Hj; apply Hwait; lia).
  cbn [Nat.add pollLoop]. now rewrite Hpoll, Hfailed, Hrunning.
Qed.

Lemma ocr_wait_ends_on_first_other_status_witness :
  extractTextWithAzureDocIntel
    (AnalyzeResolved 202 (Some (utf16 "https://ocr/operations/1")) None)
    (thirdPoll (utf16 "canceled")) (2 + 1)
  = Some (Returns None).
Proof.
  apply (ocr_wait_ends_on_first_other_status (thirdPoll (utf16 "canceled"))
           (utf16 "https://ocr/operations/1") None 2 0 (utf16 "canceled") None).
  - discriminate.
  - intros [|[|j]] Hj; [exists None; now right | exists None; now left | lia].
  - reflexivity.
  - reflexivity.
  - reflexivity.
Defined.

(** ** The route *)

Lemma replaceFirst_prefix (lit rest : jsstring) :
  replaceFirst lit [] (lit ++ rest) = rest.
Proof.
  assert (E : forall s, replaceFirst lit [] s
                        = if startsWith lit s then skipn (List.length lit) s
                          else match s with
                               | [] => []
                               | c :: s' => c :: replaceFirst lit [] s'
                               end)
    by (intros [|c s]; reflexivity).
  rewrite E.
  assert (H : startsWith lit (lit ++ rest) = true)
    by (apply startsWith_spec; eauto).
  rewrite H, skipn_app, skipn_all, Nat.sub_diag. reflexivity.
Qed.

Lemma authenticate_bearer (env : Env.t) (req : Request.t)
    (expected : jsstring) :
  Request.user req = false ->
  Env.API_BEARER_TOKEN env = Some expected ->
  expected <> [] ->
  (authenticate env req = None
   <-> Request.authorization req = Some (utf16 "Bearer " ++ expected)).
Proof.
  intros Huser Htoken Hne. unfold authenticate. rewrite Huser, Htoken.
  destruct expected as [|e expected]; [contradiction|].
  destruct (Request.authorization req) as [[|h header]|].
  - split; discriminate.
  - destruct (startsWith (utf16 "Bearer ") (h :: header)) eqn:Hstart; cbn [negb].
    + apply startsWith_spec in Hstart as (rest & Hrest). rewrite Hrest.
      rewrite replaceFirst_prefix.
      destruct (streq rest (e :: expected)) eqn:Heq; cbn [negb].
      * apply streq_eq in Heq. subst rest. tauto.
      * split; [discriminate|]. intros H.
        assert (E : utf16 "Bearer " ++ rest = utf16 "Bearer " ++ e :: expected)
          by congruence.
        apply app_inv_head in E. subst rest.
        rewrite streq_refl in Heq. discriminate.
    + split; [discriminate|]. intros H.
      assert (E : h :: header = utf16 "Bearer " ++ e :: expected)
        by congruence.
      assert (Hs : startsWith (utf16 "Bearer ") (h :: header) = true).
      { apply startsWith_spec. exists (e :: expected). exact E. }
      rewrite Hs in Hstart. discriminate.
  - split; discriminate.
Qed.

Lemma authenticate_denies (env : Env.t) (req : Request.t)
    (response : HttpResponse) :
  authenticate env req = Some response ->
  exists error, response = JsonError 401 error.
Proof.
  unfold authenticate. destruct (Request.user req); [discriminate|].
  destruct (Env.API_BEARER_TOKEN env) as [[|e expected]|]; try discriminate.
  destruct (Request.authorization req) as [[|h header]|];
    try (intros H; injection H as <-; eauto).
  destruct (negb (startsWith _ _)); [intros H; injection H as <-; eauto|].
  destruct (negb (streq _ _)); [intros H; injection H as <-; eauto|].
  discriminate.
Qed.

Section RouteFacts.
Variable ocr : Buffer -> Completion (option Doc.t).
Variable languageOf : jsstring -> jsstring.
Variable ner : jsstring -> jsstring -> Completion (list PIIEntity).
Variable patterns : jsstring -> list PIIEntity.
Variable yolo : Buffer -> list RedactionCoordinate -> list RedactionCoordinate.
Variable pageCountOf : Buffer -> Completion Z.
Variable redact :
  Buffer -> list RedactionCoordinate -> jsstring -> Completion Buffer.
Variable mergePdfs : list jsstring -> Completion jsstring.
Variable base64 : Buffer -> jsstring.

Local Abbreviation route :=
  (POST ocr languageOf ner patterns yolo pageCountOf redact mergePdfs base64).
Local Abbreviation loop :=
  (processFiles ocr languageOf ner patterns yolo pageCountOf redact base64).
Local Abbreviation turn :=
  (processFile ocr languageOf ner patterns yolo pageCountOf redact base64).

Lemma respond_body (uploadedFiles : list UploadedFile)
    (excludeAddress : option jsstring) (fileResults : list Result.t)
    (totalEntities : Z) (response : HttpResponse) :
  respond mergePdfs base64 uploadedFiles excludeAddress fileResults
          totalEntities = Returns response ->
  exists body, response = Json body.
Proof.
  unfold respond.
  assert (Hmerged : forall body,
    bind (mergePdfs (map Result.redactedBase64 fileResults))
         (fun combinedBase64 => Returns (Json (body combinedBase64)))
    = Returns response -> exists b, response = Json b).
  { intros body. destruct (mergePdfs _); simpl; [|discriminate].
    intros H. injection H as <-. eauto. }
  destruct uploadedFiles as [|first [|second rest]];
    try (apply (Hmerged (fun combinedBase64 => Body.mk _ combinedBase64 _ _ _ _))).
  destruct (totalEntities =? 0);
    [intros H; injection H as <-; eauto|].
  apply (Hmerged (fun combinedBase64 => Body.mk _ combinedBase64 _ _ _ _)).
Qed.

(** Past the authentication, the answer is a body with status 200 or an
    error with status 500. *)
Lemma route_after_authentication (env : Env.t) (req : Request.t) :
  authenticate env req = None ->
  (exists body, route env req = Json body)
  \/ (exists error, route env req = JsonError 500 error).
Proof.
  intros Hauth. unfold POST. rewrite Hauth. unfold parseForm.
  destruct (Request.formData req) as [form|message]; cbn [bind]; [|eauto].
  destruct (Form.files form) as [|file files] eqn:Hfiles; cbn [bind]; [eauto|].
  rewrite Hfiles.
  destruct (negb _ || negb _); [eauto|].
  destruct (negb _ || negb _); [eauto|].
  destruct (loop _ _ _ _ _) as [done|message]; cbn [bind]; [|eauto].
  destruct (respond _ _ _ _ _ _) as [response|message] eqn:Hr; [|eauto].
  apply respond_body in Hr as (body & ->). eauto.
Qed.

(** X22: the bearer token gate.  A request without a session, when a
    token is configured, is answered with status 401 exactly when its
    [authorization] header is not ['Bearer '] followed by the token; no
    later step answers 401. *)
Theorem bearer_token_gate (env : Env.t) (req : Request.t)
    (expected : jsstring) :
  Request.user req = false ->
  Env.API_BEARER_TOKEN env = Some expected ->
  expected <> [] ->
  ((exists error, route env req = JsonError 401 error)
   <-> Request.authorization req <> Some (utf16 "Bearer " ++ expected)).
Proof.
  intros Huser Htoken Hne.
  pose proof (authenticate_bearer env req expected Huser Htoken Hne) as Hgate.
  split.
  - intros (error & H) Hheader. apply Hgate in Hheader.
    destruct (route_after_authentication env req Hheader)
      as [(body & E)|(e & E)]; rewrite E in H; discriminate.
  - intros Hheader.
    destruct (authenticate env req) as [response|] eqn:Hauth.
    + destruct (authenticate_denies env req response Hauth) as (error & ->).
      exists error. unfold POST. now rewrite Hauth.
    + exfalso. apply Hheader. now apply Hgate.
Qed.

(** X23: no request is answered with status 400: without files
    [parseForm] throws before the handler tests the number of files, and
    the error is answered with status 500. *)
Theorem route_never_answers_400 (env : Env.t) (req : Request.t)
    (error : jsstring) :
  route env req <> JsonError 400 error.
Proof.
  destruct (authenticate env req) as [response|] eqn:Hauth.
  - destruct (authenticate_denies env req response Hauth) as (e & ->).
    unfold POST. rewrite Hauth. discriminate.
  - destruct (route_after_authentication env req Hauth)
      as [(body & E)|(e & E)]; rewrite E; discriminate.
Qed.

(** X24: a single file in which the filter leaves no entity is answered
    with the bytes of the upload: the signature regions found in it and
    the PDF redacted with them are not in the answer, whose counts are
    zero. *)
Theorem single_file_without_entities_is_returned_unredacted
    (env : Env.t) (req : Request.t) (file : UploadedFile)
    (excludeAddress : option jsstring) (docIntelResult : Doc.t)
    (azureEntities : list PIIEntity) (pageCount : Z) :
  authenticate env req = None ->
  Request.formData req = Returns (Form.mk [file] excludeAddress) ->
  truthy (Env.AZURE_DOCUMENT_INTELLIGENCE_ENDPOINT env) = true ->
  truthy (Env.AZURE_DOCUMENT_INTELLIGENCE_KEY env) = true ->
  truthy (Env.AZURE_PII_ENDPOINT env) = true ->
  truthy (Env.AZURE_PII_API_KEY env) = true ->
  ocr (File.buffer file) = Returns (Some docIntelResult) ->
  ner (Doc.content docIntelResult) (languageOf (Doc.content docIntelResult))
  = Returns azureEntities ->
  fileEntities excludeAddress azureEntities
               (patterns (Doc.content docIntelResult)) = [] ->
  pageCountOf (File.buffer file) = Returns pageCount ->
  (forall redactions name,
     exists redacted, redact (File.buffer file) redactions name
                      = Returns redacted) ->
  route env req
  = Json (Body.mk [Entry.mk (File.originalFilename file)
                            (base64 (File.buffer file)) pageCount 0]
                  (base64 (File.buffer file)) 0 0 1 None).
Proof.
  intros Hauth Hform He1 He2 He3 He4 Hocr Hner Hfiltered Hpages Hredact.
  unfold POST, parseForm. rewrite Hauth, Hform. cbn [bind Form.files].
  rewrite He1, He2, He3, He4. cbn [negb orb Form.excludeAddress].
  cbn [processFiles]. unfold processFile. rewrite Hocr. cbn [bind].
  rewrite Hner. cbn [bind]. rewrite Hfiltered, Hpages. cbn [bind].
  match goal with
  | |- context [redact ?b ?r ?n] =>
    destruct (Hredact r n) as (out & ->)
  end.
  cbn [bind processFiles fst snd app List.length]. reflexivity.
Qed.

Lemma loop_throws (excludeAddress : option jsstring) (file : UploadedFile)
    (message : jsstring) (files : list UploadedFile) :
  In file files ->
  ocr (File.buffer file) = Throws message ->
  forall i fileResults totalEntities,
    exists thrown,
      loop excludeAddress i files fileResults totalEntities = Throws thrown.
Proof.
  intros Hin Hocr. induction files as [|f files IH]; [contradiction|].
  intros i fileResults totalEntities. cbn [processFiles].
  destruct (turn excludeAddress i f) as [done|thrown] eqn:Hturn;
    cbn [bind]; [|eauto].
  destruct Hin as [->|Hin]; [|now apply IH].
  unfold processFile in Hturn. rewrite Hocr in Hturn. discriminate.
Qed.

(** X26: one failing file fails the request: when the OCR of one of the
    uploaded files throws, the answer is an error with status 500 and
    holds nothing of the other files. *)
Theorem failing_file_fails_request (env : Env.t) (req : Request.t)
    (form : Form.t) (file : UploadedFile) (message : jsstring) :
  authenticate env req = None ->
  Request.formData req = Returns form ->
  In file (Form.files form) ->
  ocr (File.buffer file) = Throws message ->
  exists error, route env req = JsonError 500 error.
Proof.
  intros Hauth Hform Hin Hocr. unfold POST, parseForm.
  rewrite Hauth, Hform. cbn [bind].
  destruct (Form.files form) as [|f files] eqn:Hfiles; [contradiction|].
  cbn [bind]. rewrite Hfiles.
  destruct (negb _ || negb _); [eauto|].
  destruct (negb _ || negb _); [eauto|].
  destruct (loop_throws (Form.excludeAddress form) file message (f :: files)
              Hin Hocr 0%nat [] 0) as (thrown & ->).
  cbn [bind]. eauto.
Qed.
End RouteFacts.

Lemma bearer_token_gate_witness :
  (exists error,
     POST (fun _ => Returns (Some signedDoc)) (fun _ => utf16 "de")
          (fun _ _ => Returns []) (fun _ => []) (fun _ _ => [])
          (fun _ => Returns 1) blackened (fun all => Returns (List.concat all))
          (fun pdf => pdf) tokenEnv signedRequest
     = JsonError 401 error)
  <-> Request.authorization signedRequest
      <> Some (utf16 "Bearer " ++ utf16 "s3cret").
Proof.
  apply (bearer_token_gate
           (fun _ => Returns (Some signedDoc)) (fun _ => utf16 "de")
           (fun _ _ => Returns []) (fun _ => []) (fun _ _ => [])
           (fun _ => Returns 1) blackened (fun all => Returns (List.concat all))
           (fun pdf => pdf) tokenEnv signedRequest (utf16 "s3cret"));
    [reflexivity | reflexivity | discriminate].
Defined.

Lemma single_file_without_entities_is_returned_unredacted_witness :
  POST (fun _ => Returns (Some signedDoc)) (fun _ => utf16 "de")
       (fun _ _ => Returns []) (fun _ => []) (fun _ _ => [])
       (fun _ => Returns 1) blackened (fun all => Returns (List.concat all))
       (fun pdf => pdf) openEnv signedRequest
  = Json (Body.mk [Entry.mk (File.originalFilename signedFile)
                            (File.buffer signedFile) 1 0]
                  (File.buffer signedFile) 0 0 1 None).
Proof.
  apply (single_file_without_entities_is_returned_unredacted
           (fun _ => Returns (Some signedDoc)) (fun _ => utf16 "de")
           (fun _ _ => Returns []) (fun _ => []) (fun _ _ => [])
           (fun _ => Returns 1) blackened (fun all => Returns (List.concat all))
           (fun pdf => pdf) openEnv signedRequest signedFile None signedDoc
           [] 1);
    try reflexivity.
  intros redactions name. eexists. reflexivity.
Defined.

(** The file of the request above has a signature region, which the
    redaction would have blackened. *)
Example signed_upload_has_signature_region :
  List.length (detectSignaturesFromStyles signedDoc) = 1%nat.
Proof. vm_compute. reflexivity. Qed.

Lemma failing_file_fails_request_witness :
  exists error,
    POST (fun _ => Throws (utf16 "OCR failed: timeout")) (fun _ => utf16 "de")
         (fun _ _ => Returns []) (fun _ => []) (fun _ _ => [])
         (fun _ => Returns 1) blackened (fun all => Returns (List.concat all))
         (fun pdf => pdf) openEnv signedRequest
    = JsonError 500 error.
Proof.
  apply (failing_file_fails_request
           (fun _ => Throws (utf16 "OCR failed: timeout")) (fun _ => utf16 "de")
           (fun _ _ => Returns []) (fun _ => []) (fun _ _ => [])
           (fun _ => Returns 1) blackened (fun all => Returns (List.concat all))
           (fun pdf => pdf) openEnv signedRequest
           (Form.mk [signedFile] None) signedFile (utf16 "OCR failed: timeout"));
    [reflexivity | reflexivity | now left | reflexivity].
Defined.

(** A request without files is answered with status 500. *)
Example request_without_files :
  POST (fun _ => Returns (Some signedDoc)) (fun _ => utf16 "de")
       (fun _ _ => Returns []) (fun _ => []) (fun _ _ => [])
       (fun _ => Returns 1) blackened (fun all => Returns (List.concat all))
       (fun pdf => pdf) openEnv emptyRequest
  = JsonError 500 (utf16 "No files uploaded").
Proof. reflexivity. Qed.

(** X25: from the entities to the regions of a file: every region made
    for the entities of a file carries the text and the category of an
    entity found by the NER service or by the patterns that the filter
    kept, so none carries a whitelisted text. *)
Theorem pii_regions_come_from_kept_entities
    (excludeAddress : option jsstring)
    (azureEntities customEntities : list PIIEntity) (docIntelResult : Doc.t)
    (r : RedactionCoordinate) :
  In r (piiRedactions
          (fileEntities excludeAddress azureEntities customEntities)
          docIntelResult) ->
  exists entity,
    In entity (azureEntities ++ customEntities)
    /\ keepEntity excludeAddress entity = true
    /\ isWhitelisted (text entity) = false
    /\ Region.text r = Some (text entity)
    /\ Region.category r = Some (category entity).
Proof.
  unfold piiRedactions.
  destruct (fileEntities _ _ _) as [|e0 filtered] eqn:Hf; [contradiction|].
  rewrite <- Hf. clear Hf. intros H.
  apply convert_In in H as (entity & w & i & page & He & _ & _ & _ & ->).
  unfold fileEntities, filteredEntities in He.
  apply filter_In in He as [He Hkeep].
  exists entity. split; [|split; [exact Hkeep|split]].
  - apply (Permutation_in _ (mergeEntities_perm_loop _ _)) in He.
    apply in_or_app.
    destruct (mergeLoop_members azureEntities customEntities customEntities
                azureEntities (incl_refl _) (fun x Hx => or_introl Hx)
                entity He) as [H|[H _]]; auto.
  - unfold keepEntity in Hkeep.
    destruct (isWhitelisted (text entity)); [discriminate | reflexivity].
  - split; reflexivity.
Qed.

Lemma pii_regions_come_from_kept_entities_witness :
  exists entity,
    In entity ([personMax] ++ [])
    /\ keepEntity None entity = true
    /\ isWhitelisted (text entity) = false
    /\ Region.text (wordRedaction inchPage personMax (wordMax, 0%nat))
       = Some (text entity)
    /\ Region.category (wordRedaction inchPage personMax (wordMax, 0%nat))
       = Some (category entity).
Proof.
  apply (pii_regions_come_from_kept_entities None [personMax] [] inchDoc).
  vm_compute. left. reflexivity.
Defined.

(** ** The upload page and its list of files *)

Lemma splice1_split {A} (arr : list A) :
  forall i x, nth_error arr i = Some x ->
    arr = firstn i arr ++ x :: skipn (S i) arr
    /\ splice1 i arr = firstn i arr ++ skipn (S i) arr.
Proof.
  induction arr as [|a arr IH]; intros [|i] x H; try discriminate.
  - injection H as ->. split; reflexivity.
  - destruct (IH i x H) as [E1 E2]. cbn [splice1 firstn skipn app].
    split; [f_equal; exact E1 | f_equal; exact E2].
Qed.

Lemma splice1_spliceIn {A} (item : A) (arr : list A) :
  forall i, (i <= List.length arr)%nat ->
    splice1 i (spliceIn i item arr) = arr.
Proof.
  unfold spliceIn. induction arr as [|a arr IH]; intros [|i] Hi;
    try reflexivity; simpl in Hi; [lia|].
  cbn [firstn skipn app splice1]. f_equal. apply IH. lia.
Qed.

Lemma spliceIn_nth {A} (item : A) (arr : list A) (i : nat) :
  (i <= List.length arr)%nat ->
  nth_error (spliceIn i item arr) i = Some item.
Proof.
  intros Hi. unfold spliceIn.
  rewrite nth_error_app2 by (rewrite length_firstn; lia).
  rewrite length_firstn.
  replace (i - Nat.min i (List.length arr))%nat with 0%nat by lia.
  reflexivity.
Qed.

Lemma spliceIn_perm {A} (item : A) (arr : list A) (i : nat) :
  Permutation (item :: arr) (spliceIn i item arr).
Proof.
  unfold spliceIn. rewrite <- (firstn_skipn i arr) at 1.
  apply Permutation_middle.
Qed.

Lemma splice1_length {A} (arr : list A) :
  forall i, (i < List.length arr)%nat ->
    S (List.length (splice1 i arr)) = List.length arr.
Proof.
  induction arr as [|a arr IH]; intros [|i] Hi; simpl in *; try lia.
  rewrite IH by lia. reflexivity.
Qed.

(** X27: dragging a file of the list onto another moves it there and
    moves nothing else: the new list is a permutation of the old one,
    the dragged file is at the index of the drop, and without it the
    list is the old list without it. *)
Theorem list_drop_moves_one_file {A} (undefined : A) (files : list A)
    (draggedIndex dropIndex : nat) :
  (draggedIndex < List.length files)%nat ->
  (dropIndex < List.length files)%nat ->
  draggedIndex <> dropIndex ->
  exists newFiles,
    FileList.handleDrop undefined files (Some draggedIndex) dropIndex
    = Some newFiles
    /\ Permutation files newFiles
    /\ nth_error newFiles dropIndex = nth_error files draggedIndex
    /\ splice1 dropIndex newFiles = splice1 draggedIndex files.
Proof.
  intros Hdragged Hdrop Hdiff. unfold FileList.handleDrop.
  apply Nat.eqb_neq in Hdiff. rewrite Hdiff.
  destruct (nth_error files draggedIndex) as [x|] eqn:Hx;
    [|apply nth_error_None in Hx; lia].
  rewrite (nth_error_nth _ _ undefined Hx).
  pose proof (splice1_length files draggedIndex Hdragged) as Hlen.
  eexists. split; [reflexivity|]. repeat split.
  - destruct (splice1_split files draggedIndex x Hx) as [E1 E2].
    rewrite <- spliceIn_perm. rewrite E2. rewrite E1 at 1.
    symmetry. apply Permutation_middle.
  - apply spliceIn_nth. lia.
  - apply splice1_spliceIn. lia.
Qed.

Lemma list_drop_moves_one_file_witness :
  exists newFiles,
    FileList.handleDrop pdfA [pdfA; pdfB; pdfC] (Some 0%nat) 2%nat
    = Some newFiles
    /\ Permutation [pdfA; pdfB; pdfC] newFiles
    /\ nth_error newFiles 2 = nth_error [pdfA; pdfB; pdfC] 0
    /\ splice1 2 newFiles = splice1 0 [pdfA; pdfB; pdfC].
Proof.
  apply (list_drop_moves_one_file pdfA [pdfA; pdfB; pdfC] 0 2);
    [simpl; lia | simpl; lia | discriminate].
Defined.

Lemma removeFile_sublist (files : list Upload.t) (index : nat) :
  forall start,
    let kept := map snd (filter (fun item => negb (fst item =? index)%nat)
                                (combine (seq start (List.length files)) files)) in
    (List.length kept <= List.length files)%nat /\ incl kept files.
Proof.
  induction files as [|f files IH]; intros start; simpl; [split; [lia | easy]|].
  destruct (IH (S start)) as [Hlen Hincl].
  destruct (negb (start =? index)%nat); simpl.
  - split; [lia|]. intros x [<-|Hx]; [now left | right; auto].
  - split; [lia|]. intros x Hx. right. auto.
Qed.

(** X28: the selection of the page never holds more than ten files nor a
    file that is not a PDF, whatever the user selects, drops, drags,
    removes or resets, in any order. *)
Theorem selection_at_most_ten_pdfs (events : list Home.Event) :
  (List.length (Home.files (Home.run events)) <= 10)%nat
  /\ forallb Home.isPdf (Home.files (Home.run events)) = true.
Proof.
  unfold Home.run.
  assert (G : forall s,
    (List.length (Home.files s) <= 10)%nat
    /\ forallb Home.isPdf (Home.files s) = true ->
    (List.length (Home.files (fold_left Home.handle events s)) <= 10)%nat
    /\ forallb Home.isPdf (Home.files (fold_left Home.handle events s)) = true).
  { induction events as [|e events IH]; intros s Hs; [exact Hs|].
    cbn [fold_left]. apply IH. clear IH. destruct Hs as [Hlen Hpdf].
    assert (Hadd : forall chosen,
      (List.length (Home.files (Home.addFiles s chosen)) <= 10)%nat
      /\ forallb Home.isPdf (Home.files (Home.addFiles s chosen)) = true).
    { intros chosen. unfold Home.addFiles.
      destruct (negb _); [auto|].
      destruct (10 <? _)%nat eqn:E; [auto|]. apply Nat.ltb_ge in E.
      cbn [Home.files]. rewrite length_app, forallb_app, Hpdf.
      split; [exact E|].
      apply forallb_forall. intros x Hx. now apply filter_In in Hx. }
    destruct e as [selected|dropped|dragged dropIndex|index|];
      cbn [Home.handle].
    - destruct selected; [auto | apply Hadd].
    - apply Hadd.
    - destruct ((dragged <? _)%nat && (dropIndex <? _)%nat) eqn:E; [|auto].
      apply andb_true_iff in E as [E1 E2].
      apply Nat.ltb_lt in E1, E2.
      destruct (Nat.eq_dec dragged dropIndex) as [->|Hdiff].
      { unfold FileList.handleDrop. rewrite Nat.eqb_refl. auto. }
      unfold FileList.handleDrop.
      apply Nat.eqb_neq in Hdiff. rewrite Hdiff. cbn [Home.handleReorder Home.files].
      destruct (nth_error (Home.files s) dragged) as [x|] eqn:Hx;
        [|apply nth_error_None in Hx; lia].
      rewrite (nth_error_nth _ _ (Upload.mk [] [] 0) Hx).
      destruct (splice1_split _ _ _ Hx) as [E3 E4].
      assert (P : Permutation (Home.files s)
                    (spliceIn dropIndex x (splice1 dragged (Home.files s)))).
      { rewrite <- spliceIn_perm. rewrite E4. rewrite E3 at 1.
        symmetry. apply Permutation_middle. }
      split.
      + now rewrite <- (Permutation_length P).
      + apply forallb_forall. intros y Hy.
        apply (Permutation_in _ (Permutation_sym P)) in Hy.
        rewrite forallb_forall in Hpdf. auto.
    - cbn [Home.handleRemoveFile Home.files].
      destruct (removeFile_sublist (Home.files s) index 0) as [Hl Hi].
      unfold indexed. split; [lia|].
      apply forallb_forall. intros y Hy. apply Hi in Hy.
      rewrite forallb_forall in Hpdf. auto.
    - split; [simpl; lia | reflexivity]. }
  apply G. split; [simpl; lia | reflexivity].
Qed.

(** ** The log transport *)

